(** * dts-from-thrift: the protobuf registry, resolver and entity builder

    A shallow embedding of [src/protobufNew/index.ts]: the node registry
    ([crawlAST]), the cross-file type resolver
    ([crawlAstAndAttachNamespace]), the declaration entity builder and the
    driver [loadPb].

    Conventions of the embedding.
    - The reflection objects of protobufjs are immutable trees, except for
      the [type] slot of a [pb.Field], the one thing the program mutates.
      Every field object carries its address [addr]; the [type] slots live
      in a [store] indexed by address, so the syntax tree and the registry
      (whose [meta] alias the very same objects) see the same mutation.
    - A JS [Map] is an association list in insertion order.
    - A thrown exception is an explicit outcome.
    - What the file imports from elsewhere ([typeMapping], the printers of
      [../protobuf/print], [prettier], protobufjs' [lookup], [path]) is a
      variable of the section that uses it. *)

From Stdlib Require Import String Ascii List ZArith Bool Arith Lia Sorted.
Import ListNotations.
Open Scope string_scope.
Open Scope list_scope.

Set Implicit Arguments.

(** String concatenation, JS [+] and template literals. *)
Infix "+++" := String.append (right associativity, at level 60).

(* ================================================================== *)
(** ** Strings as the source uses them *)

(** [hay.indexOf(needle)], with [None] for [-1]. *)
Definition indexOf (hay needle : string) : option nat :=
  String.index 0 needle hay.

(** [hay.indexOf(needle) !== -1] *)
Definition includes (hay needle : string) : bool :=
  match indexOf hay needle with
  | Some _ => true
  | None => false
  end.

(** [s.replace(/^\./, '')] *)
Definition stripLeadingDot (s : string) : string :=
  match s with
  | String "." rest => rest
  | _ => s
  end.

(** [lines.join(sep)] *)
Fixpoint join (sep : string) (lines : list string) : string :=
  match lines with
  | [] => ""
  | [x] => x
  | x :: rest => x +++ sep +++ join sep rest
  end.

(** [arr.indexOf(x) !== -1] on an array of strings *)
Fixpoint arrayIncludes (arr : list string) (x : string) : bool :=
  match arr with
  | [] => false
  | y :: rest => if String.eqb y x then true else arrayIncludes rest x
  end.

(** A JS string is truthy when it is not empty. *)
Definition truthy (s : string) : bool :=
  match s with
  | EmptyString => false
  | _ => true
  end.

(** [x || ''] on a [string | null] *)
Definition orEmpty (c : option string) : string :=
  match c with
  | Some s => s
  | None => ""
  end.

(* ================================================================== *)
(** ** The reflection objects of protobufjs *)

Record Field := mkField {
  f_name : string;
  f_id : Z;
  addr : nat;                       (* identity of the field object *)
  repeated : bool;
  optional : bool;
  required : bool;
  resolved : bool;
  resolvedType : option string;     (* [null] until protobufjs resolves it *)
  f_comment : option string
}.

Record Method := mkMethod {
  m_name : string;
  requestType : string;
  responseType : string;
  m_comment : option string
}.

Record Enum := mkEnum {
  e_name : string;
  e_fullName : string;
  values : list (string * Z)        (* the object, in key order *)
}.

Record Service := mkService {
  s_name : string;
  s_fullName : string;
  methodsArray : list Method
}.

#[local] Unset Elimination Schemes.

(** [pb.ReflectionObject]. [pbOther] stands for what a namespace may hold
    besides the four classes the program tests for (an extension field, for
    instance). *)
Inductive ReflectionObject : Type :=
| pbEnum (e : Enum)
| pbType (name fullName : string)
         (nestedArray : list ReflectionObject) (fieldsArray : list Field)
| pbService (s : Service)
| pbNamespace (name fullName : string) (nestedArray : list ReflectionObject)
| pbOther (name fullName : string).

#[local] Set Elimination Schemes.

Definition name (v : ReflectionObject) : string :=
  match v with
  | pbEnum e => e_name e
  | pbType n _ _ _ => n
  | pbService s => s_name s
  | pbNamespace n _ _ => n
  | pbOther n _ => n
  end.

Definition fullName (v : ReflectionObject) : string :=
  match v with
  | pbEnum e => e_fullName e
  | pbType _ fn _ _ => fn
  | pbService s => s_fullName s
  | pbNamespace _ fn _ => fn
  | pbOther _ fn => fn
  end.

(** [v.nestedArray]; [None] where the property is undefined. *)
Definition nestedArray (v : ReflectionObject) : option (list ReflectionObject) :=
  match v with
  | pbType _ _ nested _ => Some nested
  | pbNamespace _ _ nested => Some nested
  | pbService _ => Some []
  | pbEnum _ => None
  | pbOther _ _ => None
  end.

Definition isEnum (v : ReflectionObject) : bool :=
  match v with pbEnum _ => true | _ => false end.

Definition isMessage (v : ReflectionObject) : bool :=
  match v with pbType _ _ _ _ => true | _ => false end.

Definition isService (v : ReflectionObject) : bool :=
  match v with pbService _ => true | _ => false end.

(** [v instanceof pb.Namespace]: [pb.Type] and [pb.Service] derive from
    [pb.Namespace], so the test holds for them too. *)
Definition isNamespace (v : ReflectionObject) : bool :=
  match v with
  | pbNamespace _ _ _ | pbType _ _ _ _ | pbService _ => true
  | _ => false
  end.

(** Induction on reflection objects that reaches the nested ones. *)
Section ReflectionObject_ind.
Variable P : ReflectionObject -> Prop.
Hypothesis Henum : forall e, P (pbEnum e).
Hypothesis Htype : forall n fn nested fields,
    Forall P nested -> P (pbType n fn nested fields).
Hypothesis Hservice : forall s, P (pbService s).
Hypothesis Hnamespace : forall n fn nested,
    Forall P nested -> P (pbNamespace n fn nested).
Hypothesis Hother : forall n fn, P (pbOther n fn).

Fixpoint ReflectionObject_nested_ind (v : ReflectionObject) : P v :=
  let fix all (l : list ReflectionObject) : Forall P l :=
      match l with
      | [] => Forall_nil P
      | x :: r => Forall_cons x (ReflectionObject_nested_ind x) (all r)
      end in
  match v with
  | pbEnum e => Henum e
  | pbType n fn nested fields => Htype n fn fields (all nested)
  | pbService s => Hservice s
  | pbNamespace n fn nested => Hnamespace n fn (all nested)
  | pbOther n fn => Hother n fn
  end.
End ReflectionObject_ind.

(* ================================================================== *)
(** ** The registry *)

Inductive Kind := enum | message | service | namespace.

Definition Kind_eqb (a b : Kind) : bool :=
  match a, b with
  | enum, enum | message, message | service, service
  | namespace, namespace => true
  | _, _ => false
  end.

Record PbNodeEntity := mkEntity {
  meta : ReflectionObject;
  type : Kind;
  filename : string
}.

(** [Map<string, PbNodeEntity[]>], in insertion order. *)
Definition NodeMap := list (string * list PbNodeEntity).

Fixpoint has (nodeMap : NodeMap) (key : string) : bool :=
  match nodeMap with
  | [] => false
  | (k, _) :: rest => if String.eqb k key then true else has rest key
  end.

Fixpoint get (nodeMap : NodeMap) (key : string) : option (list PbNodeEntity) :=
  match nodeMap with
  | [] => None
  | (k, v) :: rest => if String.eqb k key then Some v else get rest key
  end.

(** [nodeMap.set(key, data)]: a present key keeps its place. *)
Fixpoint set (nodeMap : NodeMap) (key : string) (data : list PbNodeEntity)
  : NodeMap :=
  match nodeMap with
  | [] => [(key, data)]
  | (k, v) :: rest =>
      if String.eqb k key then (k, data) :: rest
      else (k, v) :: set rest key data
  end.

(** [nodeMap.get(key)!.push(datum)]: the array is the one the map holds. *)
Fixpoint push (nodeMap : NodeMap) (key : string) (datum : PbNodeEntity)
  : NodeMap :=
  match nodeMap with
  | [] => []
  | (k, v) :: rest =>
      if String.eqb k key then (k, v ++ [datum]) :: rest
      else (k, v) :: push rest key datum
  end.

(** The entries under a key, none when the key is absent. *)
Definition entries (nodeMap : NodeMap) (key : string) : list PbNodeEntity :=
  match get nodeMap key with
  | Some data => data
  | None => []
  end.

(** One turn of the loop of [crawlAST] on the popped node, the stack apart. *)
Definition register (filename : string) (nodeMap : NodeMap)
           (current : ReflectionObject) : NodeMap :=
  let fullname := stripLeadingDot (fullName current) in
  let nodeMap1 :=
      if has nodeMap fullname then nodeMap else set nodeMap fullname [] in
  if isEnum current then
    push nodeMap1 fullname (mkEntity current enum filename)
  else if isMessage current then
    push nodeMap1 fullname (mkEntity current message filename)
  else if isService current then
    push nodeMap1 fullname (mkEntity current service filename)
  else if isNamespace current then
    push nodeMap1 fullname (mkEntity current namespace filename)
  else nodeMap1.

(** What the loop pushes on the stack after the popped node: the children of
    a plain namespace and of nothing else, since the tests for a message and
    a service come first. *)
Definition pushed (current : ReflectionObject) : list ReflectionObject :=
  if isEnum current then []
  else if isMessage current then []
  else if isService current then []
  else if isNamespace current then
    match nestedArray current with Some nested => nested | None => [] end
  else [].

(** The loop of [crawlAST]. [nodeList] is the stack with its top first, so
    [nodeList.push(...xs)] puts [rev xs] in front. The loop ends when the
    stack is empty; [None] when the fuel runs out before that. *)
Fixpoint crawl_loop (fuel : nat) (nodeList : list ReflectionObject)
         (nodeMap : NodeMap) (filename : string) : option NodeMap :=
  match nodeList with
  | [] => Some nodeMap
  | current :: rest =>
      match fuel with
      | 0 => None
      | S fuel' =>
          crawl_loop fuel' (rev (pushed current) ++ rest)
                     (register filename nodeMap current) filename
      end
  end.

(** The nodes the loop pops, in the order it pops them. *)
Fixpoint visited (v : ReflectionObject) : list ReflectionObject :=
  match v with
  | pbNamespace _ _ nested =>
      v :: (fix go (l : list ReflectionObject) : list ReflectionObject :=
              match l with
              | [] => []
              | c :: l' => go l' ++ visited c
              end) nested
  | _ => [v]
  end.

(** One turn for every node popped is fuel enough (lemma
    [crawl_loop_visited]). *)
Definition crawlAST (node : ReflectionObject) (nodeMap : NodeMap)
           (filename : string) : NodeMap :=
  match crawl_loop (length (visited node)) [node] nodeMap filename with
  | Some nodeMap' => nodeMap'
  | None => nodeMap
  end.

(** Every declaration of a file: the node and all that is nested in it, in
    messages as well as in namespaces. *)
Fixpoint declared (v : ReflectionObject) : list ReflectionObject :=
  match v with
  | pbNamespace _ _ nested | pbType _ _ nested _ =>
      v :: (fix go (l : list ReflectionObject) : list ReflectionObject :=
              match l with
              | [] => []
              | c :: l' => declared c ++ go l'
              end) nested
  | _ => [v]
  end.

(** [reachable root v]: [v] is [root], or is reached from it through plain
    namespaces only. *)
Inductive reachable : ReflectionObject -> ReflectionObject -> Prop :=
| reach_self (v : ReflectionObject) : reachable v v
| reach_nested (n fn : string) (nested : list ReflectionObject)
               (c v : ReflectionObject) :
    In c nested -> reachable c v -> reachable (pbNamespace n fn nested) v.

(** The class of a node as the registry tags it. *)
Definition kindOf (v : ReflectionObject) : option Kind :=
  match v with
  | pbEnum _ => Some enum
  | pbType _ _ _ _ => Some message
  | pbService _ => Some service
  | pbNamespace _ _ _ => Some namespace
  | pbOther _ _ => None
  end.

(* ================================================================== *)
(** ** Exceptions *)

(** A call returns or throws; either way it leaves a state behind. *)
Inductive Outcome (A : Type) :=
| Returned (a : A)
| Thrown (a : A).

Arguments Returned {A} a.
Arguments Thrown {A} a.

Definition stateOf {A : Type} (o : Outcome A) : A :=
  match o with
  | Returned a => a
  | Thrown a => a
  end.

Definition throws {A : Type} (o : Outcome A) : bool :=
  match o with
  | Returned _ => false
  | Thrown _ => true
  end.

(* ================================================================== *)
(** ** The mutable part: the [type] slot of every field object *)

Definition store := nat -> string.

Definition update (s : store) (a : nat) (t : string) : store :=
  fun b => if Nat.eqb b a then t else s b.

(** [field.type] *)
Definition typeOf (s : store) (field : Field) : string := s (addr field).

(* ================================================================== *)
(** ** The cross-file type resolver *)

Definition originTypes : list string :=
  [ "double"; "float"; "int32"; "int64"; "uint32"; "uint64"; "sint32";
    "sint64"; "fixed32"; "fixed64"; "sfixed32"; "sfixed64"; "bool"; "bytes";
    "string"; "list"; "map" ].

Definition isOriginType (type : string) : bool :=
  arrayIncludes originTypes type.

(** The predicate of [node.filter(...)]; [fieldType] is [field.type] as it
    is when the filter runs. *)
Definition survives (fieldType : string) (d : PbNodeEntity) : bool :=
  (Kind_eqb (type d) enum && String.eqb (name (meta d)) fieldType)
  || (Kind_eqb (type d) message && String.eqb (name (meta d)) fieldType).

(** The [for (const [ns, node] of nodeMap)] loop: [filteredData[0]] at the
    first key that holds [ff] and has a surviving entry. *)
Fixpoint scan (nodeMap : NodeMap) (ff fieldType : string)
  : option PbNodeEntity :=
  match nodeMap with
  | [] => None
  | (ns, node) :: rest =>
      if negb (includes ns ff) then scan rest ff fieldType
      else match filter (survives fieldType) node with
           | [] => scan rest ff fieldType
           | d :: _ => Some d
           end
  end.

(** The search key of a candidate. *)
Definition searchKey (fieldType : string) : string :=
  if includes fieldType "." then fieldType else "." +++ fieldType.

(** The callback given to [some], for one candidate. It reads [field.type]
    from the store when it filters, and writes it on a match. (The line it
    sends to the console on a match is left out.) *)
Definition tryCandidate (nodeMap : NodeMap) (field : Field) (s : store)
           (fieldType : string) : store :=
  match scan nodeMap (searchKey fieldType) (typeOf s field) with
  | Some d => update s (addr field) (stripLeadingDot (fullName (meta d)))
  | None => s
  end.

(** The two candidates, built from [field.type] before the search starts. *)
Definition candidates (package : string) (fieldType : string) : list string :=
  [package +++ "." +++ fieldType; fieldType].

(** [candidates.some(callback)]: the callback ends in a bare [return], which
    is falsy, so [some] goes through every candidate. *)
Definition resolveField (package : string) (nodeMap : NodeMap) (s : store)
           (field : Field) : store :=
  fold_left (tryCandidate nodeMap field)
            (candidates package (typeOf s field)) s.

(** The body of [d.fieldsArray.forEach]. *)
Definition attachField (package : string) (nodeMap : NodeMap) (s : store)
           (field : Field) : store :=
  if negb (resolved field)
     && negb (match resolvedType field with Some _ => true | None => false end)
     && negb (isOriginType (typeOf s field))
  then resolveField package nodeMap s field
  else s.

(** The body of [nestedArray.forEach]. *)
Definition attachNode (package : string) (nodeMap : NodeMap) (s : store)
           (d : ReflectionObject) : store :=
  match d with
  | pbType _ _ _ fieldsArray =>
      fold_left (attachField package nodeMap) fieldsArray s
  | _ => s
  end.

Definition attachNested (package : string) (nodeMap : NodeMap)
           (nested : list ReflectionObject) (s : store) : store :=
  fold_left (attachNode package nodeMap) nested s.

Record IParserResult := mkAst {
  package : option string;
  root : ReflectionObject
}.

Section Resolver.

(** [root.lookup(path)] of protobufjs. *)
Variable lookup : ReflectionObject -> string -> option ReflectionObject.

(** [(ast.root.lookup(ast.package!)! as pb.Namespace).nestedArray]; [None]
    when the chain raises a [TypeError]. *)
Definition packageNested (ast : IParserResult)
  : option (string * list ReflectionObject) :=
  match package ast with
  | None => None
  | Some p =>
      match lookup (root ast) p with
      | None => None
      | Some ns =>
          match nestedArray ns with
          | None => None
          | Some nested => Some (p, nested)
          end
      end
  end.

(** The call throws only in the lookup chain, before it touches a
    field. *)
Definition crawlAstAndAttachNamespace (ast : IParserResult)
           (nodeMap : NodeMap) (s : store) : Outcome store :=
  match packageNested ast with
  | None => Thrown s
  | Some (p, nested) => Returned (attachNested p nodeMap nested s)
  end.

(** [astList.forEach(ast => crawlAstAndAttachNamespace(ast, nodeMap))] *)
Fixpoint attachAll (astList : list IParserResult) (nodeMap : NodeMap)
         (s : store) : Outcome store :=
  match astList with
  | [] => Returned s
  | ast :: rest =>
      match crawlAstAndAttachNamespace ast nodeMap s with
      | Thrown s' => Thrown s'
      | Returned s' => attachAll rest nodeMap s'
      end
  end.

End Resolver.

(* ================================================================== *)
(** ** The declaration entity builder *)

(** A JS object used as a map from property names to values, in the order
    the properties were created. (The names are identifiers of the schema,
    none of which is an array index.) *)
Definition object (A : Type) := list (string * A).

(** [o[key] = v] *)
Fixpoint setProperty {A : Type} (o : object A) (key : string) (v : A)
  : object A :=
  match o with
  | [] => [(key, v)]
  | (k, w) :: rest =>
      if String.eqb k key then (k, v) :: rest
      else (k, w) :: setProperty rest key v
  end.

Record InputParam := mkParam {
  p_type : string;
  index : nat;
  p_name : string
}.

Record FunctionEntity := mkFunction {
  comment : string;
  inputParams : list InputParam;
  returnType : string
}.

Record EnumEntityMember := mkMember {
  value : Z;
  em_comment : string
}.

Record EnumEntity := mkEnumEntity {
  ee_name : string;
  ee_properties : object EnumEntityMember
}.

Record InterfacePropertyEntity := mkProperty {
  ip_comment : string;
  defaultValue : string;
  ip_index : Z;
  ip_type : string;
  ip_optional : bool;
  ip_required : bool
}.

#[local] Unset Elimination Schemes.

Inductive InterfaceEntity : Type :=
| mkInterface (ie_name : string)
              (properties : object InterfacePropertyEntity)
              (childrenInterfaces : list InterfaceEntity)
              (childrenEnums : list EnumEntity).

#[local] Set Elimination Schemes.

Record ServiceEntity := mkServiceEntity {
  se_name : string;
  interfaces : object FunctionEntity
}.

Definition convertMethodToFunctionEntity (node : Method) : FunctionEntity :=
  {| comment := orEmpty (m_comment node);
     inputParams :=
       if truthy (requestType node)
       then [ {| p_type := requestType node; index := 1; p_name := "req" |} ]
       else [];
     returnType := responseType node |}.

Definition convertServiceToServiceEntity (data : Service) : ServiceEntity :=
  {| se_name := s_name data;
     interfaces :=
       fold_left
         (fun rtn acc =>
            setProperty rtn (m_name acc) (convertMethodToFunctionEntity acc))
         (methodsArray data) [] |}.

Definition convertToEnumEntity (node : Enum) : EnumEntity :=
  {| ee_name := e_name node;
     ee_properties :=
       fold_left
         (fun rtn acc =>
            setProperty rtn (fst acc)
                        {| value := snd acc; em_comment := "" |})
         (values node) [] |}.

Section EntityBuilder.

(** [typeMapping] of [../protobuf/typeMapping]. *)
Variable typeMapping : string -> bool -> string.

Definition convertFieldToInterfacePropertyEntity (s : store) (d : Field)
  : InterfacePropertyEntity :=
  {| ip_comment := orEmpty (f_comment d);
     defaultValue := "";
     ip_index := f_id d;
     ip_type := typeMapping (typeOf s d) (repeated d);
     ip_optional := optional d;
     ip_required := required d |}.

(** The argument is a [pb.Type]; the last case is there for totality. *)
Fixpoint convertMessageToInterfaceEntity (s : store)
         (node : ReflectionObject) : InterfaceEntity :=
  match node with
  | pbType n _ nested fieldsArray =>
      mkInterface n
        (fold_left
           (fun props d =>
              setProperty props (f_name d)
                          (convertFieldToInterfacePropertyEntity s d))
           fieldsArray [])
        ((fix children (l : list ReflectionObject) : list InterfaceEntity :=
            match l with
            | [] => []
            | d :: l' =>
                if isEnum d then children l'
                else if isMessage d
                     then convertMessageToInterfaceEntity s d :: children l'
                     else children l'
            end) nested)
        (flat_map (fun d => match d with
                            | pbEnum e => [convertToEnumEntity e]
                            | _ => []
                            end) nested)
  | _ => mkInterface (name node) [] [] []
  end.

End EntityBuilder.

(* ================================================================== *)
(** ** The printers *)

Definition nl : string := String (ascii_of_nat 10) EmptyString.

(** The sparse array [sortTmp]: a hole is [None]. Writing past the end
    extends the array with holes. *)
Fixpoint arraySet {A : Type} (arr : list (option A)) (i : nat) (v : A)
  : list (option A) :=
  match i, arr with
  | 0, [] => [Some v]
  | 0, _ :: rest => Some v :: rest
  | S i', [] => None :: arraySet [] i' v
  | S i', x :: rest => x :: arraySet rest i' v
  end.

(** [sortTmp.filter(d => !!d)] *)
Fixpoint compact {A : Type} (arr : list (option A)) : list A :=
  match arr with
  | [] => []
  | Some v :: rest => v :: compact rest
  | None :: rest => compact rest
  end.

(** [sortTmp] after [i.inputParams.forEach(d => (sortTmp[d.index] = d))]
    and the filter. *)
Definition sortedParams (i : FunctionEntity) : list InputParam :=
  compact (fold_left (fun sortTmp d => arraySet sortTmp (index d) d)
                     (inputParams i) []).

Definition inputParamsStr (i : FunctionEntity) : string :=
  join ", " (map (fun d => p_name d +++ ": " +++ p_type d) (sortedParams i)).

(** The text handed to [attachComment] for one method. *)
Definition signature (key : string) (i : FunctionEntity) : string :=
  "    " +++ key +++ "(" +++ inputParamsStr i +++ "): Promise<"
         +++ returnType i +++ ">;".

Section Printers.

(** [attachComment], [printEnums] and [printInternalInterfacesAndEnums]
    of [../protobuf/print]. *)
Variable attachComment : string -> string -> option string -> string.
Variable printEnums : list EnumEntity -> string.
Variable printInternalInterfacesAndEnums : InterfaceEntity -> string.

Definition printInterface (datum : InterfaceEntity) : list string :=
  match datum with
  | mkInterface n properties childrenInterfaces childrenEnums =>
      (if Nat.ltb 0 (length childrenEnums + length childrenInterfaces)
       then [printInternalInterfacesAndEnums datum] else [])
      ++ [ "export interface " +++ n +++ " {" +++ nl +++ "    "
           +++ join (nl +++ "    ")
                 (map (fun kp : string * InterfacePropertyEntity =>
                         let (key, property) := kp in
                         attachComment
                           (key +++ (if ip_required property then "" else "?")
                                +++ ": " +++ ip_type property +++ ";")
                           (ip_comment property)
                           (Some (defaultValue property)))
                      properties)
           +++ nl +++ "  }" +++ nl +++ nl ]
  end.

Definition printInterfaces (data : list InterfaceEntity) : string :=
  join "" (flat_map printInterface data).

Definition printService (cur : ServiceEntity) : string :=
  "  export interface " +++ se_name cur +++ " {" +++ nl
    +++ join nl (map (fun ki : string * FunctionEntity =>
                        let (key, i) := ki in
                        attachComment (signature key i) (comment i) None)
                     (interfaces cur))
    +++ nl +++ "  }" +++ nl +++ nl.

Definition printServices (data : list ServiceEntity) : string :=
  fold_left (fun rtn cur => rtn +++ printService cur) data "".

End Printers.

(* ================================================================== *)
(** ** The driver [loadPb] *)

(** What [pb.parse] does with the text of a file: it throws or returns. *)
Inductive ParseOutcome :=
| ParseError (e : string)
| Parsed (ast : IParserResult).

(** The three things the first [forEach] of [loadPb] builds: the registry,
    the list of syntax trees and what went to the console. *)
Record LoadState := mkState {
  st_nodeMap : NodeMap;
  st_astList : list IParserResult;
  st_log : list string
}.

Definition logged (st : LoadState) (lines : list string) : LoadState :=
  {| st_nodeMap := st_nodeMap st;
     st_astList := st_astList st;
     st_log := st_log st ++ lines |}.

(** The result of [loadPb]: the promise is rejected, or it is fulfilled with
    the registry, after the files in [written] were written. What the tasks
    of a rejected run still write depends on the caller, and is not kept. *)
Inductive LoadResult :=
| Rejected (log : list string)
| Fulfilled (nodeMap : NodeMap) (written : list (string * string))
            (s : store) (log : list string).

(** The end of one task of the last [fileList.map]: it returns before
    [fs.writeFile], it writes [text] to [target], or it is rejected by an
    exception of [prettier]. *)
Inductive WriteResult :=
| NotWritten
| Written (target text : string)
| WriteThrown.

(** The grouping of the registry by file, [filenameNodeMap]. *)
Definition groupByFilename (nodeMap : NodeMap) : NodeMap :=
  fold_left
    (fun fm (entry : string * list PbNodeEntity) =>
       fold_left
         (fun fm datum =>
            push (if has fm (filename datum) then fm
                  else set fm (filename datum) [])
                 (filename datum) datum)
         (snd entry) fm)
    nodeMap [].

Definition hasKind (k : Kind) (d : PbNodeEntity) : bool := Kind_eqb (type d) k.

Section Driver.

Variable lookup : ReflectionObject -> string -> option ReflectionObject.
Variable typeMapping : string -> bool -> string.
Variable attachComment : string -> string -> option string -> string.
Variable printEnums : list EnumEntity -> string.
Variable printInternalInterfacesAndEnums : InterfaceEntity -> string.
(** [prettier] of [../tools/format], which throws on a text it cannot parse
    ([None]); the path of the declaration file ([path.resolve],
    [path.relative], [replace]) and [os.EOL]. *)
Variable prettier : string -> option string.
Variable targetFilename : string -> string.
Variable EOL : string.

(** [options.lint] *)
Variable lint : bool.

(** The body of [fileList.forEach]. *)
Definition loadFile (st : LoadState) (file : string * ParseOutcome)
  : Outcome LoadState :=
  let (filename, outcome) := file in
  match outcome with
  | ParseError e =>
      Returned
        (logged st (["filename: " +++ filename; e]
                      ++ if lint
                         then ["pb lint ERROR: " +++ filename +++ EOL; e]
                         else []))
  | Parsed ast =>
      if lint then Returned st
      else
        match package ast with
        | None | Some EmptyString =>
            Thrown (logged st ["Package name not found. File: " +++ filename])
        | Some ns =>
            match lookup (root ast) ns with
            | None => Thrown st
            | Some namespaceNode =>
                Returned
                  {| st_nodeMap :=
                       crawlAST namespaceNode (st_nodeMap st) filename;
                     st_astList := st_astList st ++ [ast];
                     st_log := st_log st |}
            end
        end
  end.

(** [fileList.forEach]: an exception ends the loop. *)
Fixpoint loadFiles (fileList : list (string * ParseOutcome))
         (st : LoadState) : Outcome LoadState :=
  match fileList with
  | [] => Returned st
  | file :: rest =>
      match loadFile st file with
      | Returned st' => loadFiles rest st'
      | Thrown st' => Thrown st'
      end
  end.

(** The lines [strLines] of the declaration file of the entries [data] of
    one input file, [ns] being the first namespace entry among them.
    The casts of [d.meta] follow the tag [d.type]. *)
Definition strLines (ns : PbNodeEntity) (data : list PbNodeEntity)
           (s : store) : list string :=
  [ nl +++ "// generate by dts-from-protobuf" +++ nl
       +++ "declare namespace "
       +++ stripLeadingDot (fullName (meta ns)) +++ " {";
    printEnums
      (flat_map (fun d => match meta d with
                          | pbEnum e => [convertToEnumEntity e]
                          | _ => []
                          end)
                (filter (hasKind enum) data));
    printInterfaces attachComment printInternalInterfacesAndEnums
      (map (fun d => convertMessageToInterfaceEntity typeMapping s (meta d))
           (filter (hasKind message) data));
    printServices attachComment
      (flat_map (fun d => match meta d with
                          | pbService sv => [convertServiceToServiceEntity sv]
                          | _ => []
                          end)
                (filter (hasKind service) data));
    "}" ].

(** The body of the last [fileList.map], one task for each input file. The
    text is built and handed to [prettier] inside the task, with no handler
    around the call: where [prettier] throws, [fs.writeFile] is not reached
    and the task is rejected. *)
Definition writeFile (filenameNodeMap : NodeMap) (s : store)
           (filename : string) : WriteResult :=
  match get filenameNodeMap filename with
  | None => NotWritten
  | Some data =>
      match filter (hasKind namespace) data with
      | [] => NotWritten
      | ns :: _ =>
          match prettier (join EOL (strLines ns data s)) with
          | Some text => Written (targetFilename filename) text
          | None => WriteThrown
          end
      end
  end.

(** [await Promise.all(fileList.map(...))]: the files written, in the order
    of [fileList], when every task is fulfilled; [None] when a task is
    rejected, which rejects the whole. *)
Fixpoint writeFiles (filenameNodeMap : NodeMap) (s : store)
         (fileList : list (string * ParseOutcome))
  : option (list (string * string)) :=
  match fileList with
  | [] => Some []
  | (filename, _) :: rest =>
      match writeFile filenameNodeMap s filename,
            writeFiles filenameNodeMap s rest with
      | WriteThrown, _ => None
      | _, None => None
      | NotWritten, Some written => Some written
      | Written target text, Some written => Some ((target, text) :: written)
      end
  end.

(** [loadPb], from the parsed [fileList] on; the call of [combine] at the
    end lies outside this file. An exception of the loop over the files, of
    the resolver or of a writing task rejects the promise. *)
Definition loadPb (fileList : list (string * ParseOutcome)) (s : store)
  : LoadResult :=
  match loadFiles fileList (mkState [] [] []) with
  | Thrown st => Rejected (st_log st)
  | Returned st =>
      let nodeMap := st_nodeMap st in
      let filenameNodeMap := groupByFilename nodeMap in
      match attachAll lookup (st_astList st) nodeMap s with
      | Thrown _ => Rejected (st_log st)
      | Returned s' =>
          match writeFiles filenameNodeMap s' fileList with
          | None => Rejected (st_log st)
          | Some written => Fulfilled nodeMap written s' (st_log st)
          end
      end
  end.

End Driver.

(* ================================================================== *)
(** ** Vocabulary of the properties *)

(** The key a node is registered under. *)
Definition keyOf (v : ReflectionObject) : string :=
  stripLeadingDot (fullName v).

(** What [register] appends for a node. *)
Definition entryOf (filename : string) (v : ReflectionObject)
  : list PbNodeEntity :=
  match kindOf v with
  | Some k => [mkEntity v k filename]
  | None => []
  end.

(** All entries of a registry, whatever their key. *)
Definition allEntries (nodeMap : NodeMap) : list PbNodeEntity :=
  flat_map snd nodeMap.

Definition isTypeEntry (d : PbNodeEntity) : bool :=
  Kind_eqb (type d) enum || Kind_eqb (type d) message.

(** A registry as [crawlAST] builds it from parsed files: an enum or message
    entry sits under the qualified name of its node, and the simple name of
    the node, an identifier, holds no separator. *)
Definition wellFormedEntry (ns : string) (d : PbNodeEntity) : bool :=
  if isTypeEntry d
  then String.eqb (keyOf (meta d)) ns && negb (includes (name (meta d)) ".")
  else true.

Definition wellFormedRegistry (nodeMap : NodeMap) : bool :=
  forallb (fun entry : string * list PbNodeEntity =>
             forallb (wellFormedEntry (fst entry)) (snd entry))
          nodeMap.

(** The simple name of an enum or a message is an identifier. *)
Definition simpleName (v : ReflectionObject) : bool :=
  match kindOf v with
  | Some enum | Some message => negb (includes (name v) ".")
  | _ => true
  end.

Definition simpleNames (root : ReflectionObject) : bool :=
  forallb simpleName (visited root).

(** *** The resolution heuristic in the words of the specification *)

(** Steps 3 and 4: the entries under a key that holds the search key of the
    candidate, whose kind is enum or message and whose simple name is the
    bare type name; in registry order. *)
Definition survivorsOf (nodeMap : NodeMap) (candidate bare : string)
  : list PbNodeEntity :=
  flat_map
    (fun entry : string * list PbNodeEntity =>
       if includes (fst entry) (searchKey candidate)
       then filter (fun d => isTypeEntry d
                             && String.eqb (name (meta d)) bare)
                   (snd entry)
       else [])
    nodeMap.

(** Step 5: the first survivor of the first candidate that has one, the
    package-qualified candidate first; the bare name when there is none. *)
Definition specResolve (package : string) (nodeMap : NodeMap) (bare : string)
  : string :=
  match survivorsOf nodeMap (package +++ "." +++ bare) bare with
  | d :: _ => stripLeadingDot (fullName (meta d))
  | [] =>
      match survivorsOf nodeMap bare bare with
      | d :: _ => stripLeadingDot (fullName (meta d))
      | [] => bare
      end
  end.

(** *** The resolver seen from one [type] slot *)

Definition tryCell (nodeMap : NodeMap) (cur candidate : string) : string :=
  match scan nodeMap (searchKey candidate) cur with
  | Some d => stripLeadingDot (fullName (meta d))
  | None => cur
  end.

Definition resolveCell (package : string) (nodeMap : NodeMap) (t : string)
  : string :=
  fold_left (tryCell nodeMap) (candidates package t) t.

Definition eligible (field : Field) (t : string) : bool :=
  negb (resolved field)
  && negb (match resolvedType field with Some _ => true | None => false end)
  && negb (isOriginType t).

Definition attachCell (package : string) (nodeMap : NodeMap) (field : Field)
           (t : string) : string :=
  if eligible field t then resolveCell package nodeMap t else t.

(** No enum or message of the registry bears the name [t]: no search for
    [t] has a survivor. *)
Definition inert (nodeMap : NodeMap) (t : string) : Prop :=
  forall ff, scan nodeMap ff t = None.

(** The fields the resolver goes through in a namespace: those of the
    messages that are its direct children. *)
Definition topFields (nested : list ReflectionObject) : list Field :=
  flat_map (fun d => match d with
                     | pbType _ _ _ fieldsArray => fieldsArray
                     | _ => []
                     end) nested.

(** Every field declared in a tree, nested messages included. *)
Fixpoint allFields (v : ReflectionObject) : list Field :=
  match v with
  | pbType _ _ nested fieldsArray =>
      fieldsArray
        ++ (fix go (l : list ReflectionObject) : list Field :=
              match l with
              | [] => []
              | c :: l' => allFields c ++ go l'
              end) nested
  | pbNamespace _ _ nested =>
      (fix go (l : list ReflectionObject) : list Field :=
         match l with
         | [] => []
         | c :: l' => allFields c ++ go l'
         end) nested
  | _ => []
  end.

(** The slot steps of a run: what the visits do to the slot [b]. *)
Definition slotStep (m : NodeMap) (b : nat) (t : string)
           (visit : string * Field) : string :=
  if Nat.eqb b (addr (snd visit))
  then attachCell (fst visit) m (snd visit) t
  else t.

(** A run of the resolver as a sequence of field visits, each with the
    package of its file. *)
Definition runVisits (nodeMap : NodeMap) (visits : list (string * Field))
           (s : store) : store :=
  fold_left (fun s visit => attachField (fst visit) nodeMap s (snd visit))
            visits s.

Section Visits.
Variable lookup : ReflectionObject -> string -> option ReflectionObject.

Fixpoint visitsOf (astList : list IParserResult) : list (string * Field) :=
  match astList with
  | [] => []
  | ast :: rest =>
      match packageNested lookup ast with
      | None => []
      | Some (p, nested) => map (pair p) (topFields nested) ++ visitsOf rest
      end
  end.
End Visits.

(** *** The driver *)

(** Some entry of the registry was declared in the file [f]. *)
Definition mentions (f : string) (nodeMap : NodeMap) : bool :=
  existsb (fun d => String.eqb (filename d) f) (allEntries nodeMap).

(** What a run leaves behind, the console apart. *)
Definition effectsOf (r : LoadResult)
  : option (NodeMap * list (string * string) * store) :=
  match r with
  | Rejected _ => None
  | Fulfilled nodeMap written s _ => Some (nodeMap, written, s)
  end.

Definition logOf (r : LoadResult) : list string :=
  match r with
  | Rejected log => log
  | Fulfilled _ _ _ log => log
  end.

(** [!ast.package] *)
Definition noPackage (ast : IParserResult) : bool :=
  match package ast with
  | None => true
  | Some p => negb (truthy p)
  end.

(** The state [loadPb] starts from. *)
Definition emptyState : LoadState := mkState [] [] [].

(** Two states that differ by what was logged. *)
Definition sameButLog (st st' : LoadState) : Prop :=
  st_nodeMap st = st_nodeMap st' /\ st_astList st = st_astList st'.

Definition sameOutcomeButLog (o o' : Outcome LoadState) : Prop :=
  throws o = throws o' /\ sameButLog (stateOf o) (stateOf o').

(** *** The sparse array of the service printer *)

(** Every filled slot of the sparse array holds a parameter of that
    index, [off] being the index of the first slot. *)
Definition wellIndexed (off : nat) (arr : list (option InputParam)) : Prop :=
  forall i d, nth_error arr i = Some (Some d) -> index d = off + i.

(** The array after the [forEach] over [l], started from [arr]. *)
Definition filled (l : list InputParam) (arr : list (option InputParam))
  : list (option InputParam) :=
  fold_left (fun sortTmp d => arraySet sortTmp (index d) d) l arr.

(** *** More on the registry *)

(** [P key entry] holds of every entry of the registry. *)
Definition everyEntry (P : string -> PbNodeEntity -> bool) (nodeMap : NodeMap)
  : bool :=
  forallb (fun entry : string * list PbNodeEntity =>
             forallb (P (fst entry)) (snd entry))
          nodeMap.

(** An entry sits under the qualified name of its node and carries the tag
    of the class of its node. *)
Definition inPlace (key : string) (d : PbNodeEntity) : bool :=
  String.eqb (keyOf (meta d)) key
  && match kindOf (meta d) with
     | Some k => Kind_eqb k (type d)
     | None => false
     end.

(** The keys of a map, in insertion order. *)
Definition keys (nodeMap : NodeMap) : list string := map fst nodeMap.

(** A node on which the loop pushes nothing. *)
Definition leaf (v : ReflectionObject) : bool :=
  match pushed v with
  | [] => true
  | _ => false
  end.

(** The entries of a registry that were declared in the file [f], in
    registry order. *)
Definition entriesOfFile (f : string) (nodeMap : NodeMap)
  : list PbNodeEntity :=
  filter (fun d => String.eqb (filename d) f) (allEntries nodeMap).

(** Some namespace entry of the registry was declared in the file [f]. *)
Definition declaresNamespace (nodeMap : NodeMap) (f : string) : bool :=
  existsb (hasKind namespace) (entriesOfFile f nodeMap).

(** *** More on the resolver *)

From Stdlib Require Import Permutation.

(** The address of the field of a visit. *)
Definition visitAddr (visit : string * Field) : nat := addr (snd visit).

(** *** More on the driver *)

(** The lines a file that fails to parse leaves on the console. *)
Definition parseErrorLines (EOL : string) (lint : bool)
           (file : string * ParseOutcome) : list string :=
  match snd file with
  | ParseError e =>
      ["filename: " +++ fst file; e]
        ++ (if lint then ["pb lint ERROR: " +++ fst file +++ EOL; e] else [])
  | Parsed _ => []
  end.

Section DriverVocabulary.
Variable lookup : ReflectionObject -> string -> option ReflectionObject.

(** The package namespace of a parsed file, when the file names a package
    and the namespace is found. *)
Definition packageNode (ast : IParserResult) : option ReflectionObject :=
  match package ast with
  | Some ns => if truthy ns then lookup (root ast) ns else None
  | None => None
  end.

(** A file that ends the run outside lint mode: it parses, and its package
    namespace is not to be had. *)
Definition aborting (file : string * ParseOutcome) : bool :=
  match snd file with
  | ParseError _ => false
  | Parsed ast =>
      match packageNode ast with
      | Some _ => false
      | None => true
      end
  end.

(** The files that go into the registry, with their syntax tree and their
    package namespace. *)
Definition loadedFiles (fileList : list (string * ParseOutcome))
  : list (string * IParserResult * ReflectionObject) :=
  flat_map (fun file : string * ParseOutcome =>
              match snd file with
              | ParseError _ => []
              | Parsed ast =>
                  match packageNode ast with
                  | Some node => [(fst file, ast, node)]
                  | None => []
                  end
              end)
           fileList.

(** The registry after the crawl of the loaded files, in order. *)
Definition crawlAll (loaded : list (string * IParserResult * ReflectionObject))
           (nodeMap : NodeMap) : NodeMap :=
  fold_left (fun m x => crawlAST (snd x) m (fst (fst x))) loaded nodeMap.

End DriverVocabulary.

Definition rejected (r : LoadResult) : bool :=
  match r with
  | Rejected _ => true
  | Fulfilled _ _ _ _ => false
  end.

(** *** More on the entities *)

(** [o[key]] *)
Fixpoint getProperty {A : Type} (o : object A) (key : string) : option A :=
  match o with
  | [] => None
  | (k, v) :: rest => if String.eqb k key then Some v else getProperty rest key
  end.

(** The last element of a list that bears the name [k]. *)
Definition lastNamed {A : Type} (key : A -> string) (k : string) (l : list A)
  : option A :=
  find (fun x => String.eqb (key x) k) (rev l).

(** The last parameter of a list that has the index [i]. *)
Definition lastIndexed (i : nat) (l : list InputParam) : option InputParam :=
  find (fun d => Nat.eqb (index d) i) (rev l).

Definition interfaceName (e : InterfaceEntity) : string :=
  match e with mkInterface n _ _ _ => n end.

Definition propertiesOf (e : InterfaceEntity)
  : object InterfacePropertyEntity :=
  match e with mkInterface _ p _ _ => p end.

Definition childrenInterfacesOf (e : InterfaceEntity) : list InterfaceEntity :=
  match e with mkInterface _ _ c _ => c end.

Definition childrenEnumsOf (e : InterfaceEntity) : list EnumEntity :=
  match e with mkInterface _ _ _ c => c end.

(** The enums among the nested objects of a message. *)
Definition nestedEnums (nested : list ReflectionObject) : list Enum :=
  flat_map (fun d => match d with pbEnum e => [e] | _ => [] end) nested.

(** *** More on the files written *)

Definition isPlainNamespace (v : ReflectionObject) : bool :=
  match v with
  | pbNamespace _ _ _ => true
  | _ => false
  end.

(** The file [f] was loaded with a plain namespace for its package. *)
Definition loadedWithNamespace
           (loaded : list (string * IParserResult * ReflectionObject))
           (f : string) : bool :=
  existsb (fun x => String.eqb (fst (fst x)) f && isPlainNamespace (snd x))
          loaded.

(* ================================================================== *)
(** ** Sample inputs *)

Module Sample.

(** A stand-in for protobufjs' [lookup]: the declared node of that
    qualified name. *)
Definition lookup (root : ReflectionObject) (path : string)
  : option ReflectionObject :=
  find (fun v => String.eqb (stripLeadingDot (fullName v)) path)
       (declared root).

Definition typeMapping (t : string) (repeated : bool) : string :=
  if repeated then t +++ "[]" else t.

Definition attachComment (str comment : string) (d : option string)
  : string := str.

Definition printEnums (data : list EnumEntity) : string :=
  join nl (map (fun e => "enum " +++ ee_name e) data).

Definition printInternal (datum : InterfaceEntity) : string := "".

Definition prettier (text : string) : option string := Some text.

(** A formatter that throws on a property whose type begins with a dot. *)
Definition strictPrettier (text : string) : option string :=
  if includes text ": ." then None else Some text.

Definition targetFilename (filename : string) : string :=
  filename +++ ".d.ts".

(** [package p; message M { enum E { A = 0; } }] *)
Definition enumE : ReflectionObject :=
  pbEnum (mkEnum "E" ".p.M.E" [("A", 0%Z)]).
Definition messageM : ReflectionObject := pbType "M" ".p.M" [enumE] [].
Definition namespaceP : ReflectionObject := pbNamespace "p" ".p" [messageM].
Definition astP : IParserResult :=
  mkAst (Some "p") (pbNamespace "" "" [namespaceP]).

(** A second file of the same package that declares [M] again. *)
Definition messageM' : ReflectionObject := pbType "M" ".p.M" [] [].
Definition namespaceP' : ReflectionObject :=
  pbNamespace "p" ".p" [messageM'].

(** [package p; message Foo {} message Outer { message Inner { Foo f = 1; }
    Foo g = 2; }], the field [f] at address 1 and [g] at address 2. *)
Definition fieldF : Field := mkField "f" 1 1 false true false false None None.
Definition fieldG : Field := mkField "g" 2 2 false true false false None None.
Definition messageFoo : ReflectionObject := pbType "Foo" ".p.Foo" [] [].
Definition messageInner : ReflectionObject :=
  pbType "Inner" ".p.Outer.Inner" [] [fieldF].
Definition messageOuter : ReflectionObject :=
  pbType "Outer" ".p.Outer" [messageInner] [fieldG].
Definition namespaceQ : ReflectionObject :=
  pbNamespace "p" ".p" [messageFoo; messageOuter].
Definition astQ : IParserResult :=
  mkAst (Some "p") (pbNamespace "" "" [namespaceQ]).

(** Every field is declared of type [Foo]. *)
Definition typesFoo : store := fun _ => "Foo".

(** Every field is declared of type [.x.Bar], a type no file declares. *)
Definition typesBar : store := fun _ => ".x.Bar".

(** The registry of the file [astQ]. *)
Definition registryQ : NodeMap := crawlAST namespaceQ [] "q.proto".

(** A second file of the package [p] that declares [Foo] again, with a
    field [h] at address 3. *)
Definition fieldH : Field := mkField "h" 1 3 false true false false None None.
Definition messageFoo' : ReflectionObject :=
  pbType "Foo" ".p.Foo" [] [fieldH].
Definition namespaceR : ReflectionObject :=
  pbNamespace "p" ".p" [messageFoo'].
Definition astR : IParserResult :=
  mkAst (Some "p") (pbNamespace "" "" [namespaceR]).

(** The registry after both files. *)
Definition registryQR : NodeMap := crawlAST namespaceR registryQ "r.proto".

End Sample.

(* ================================================================== *)
(** * Properties *)

Unset Implicit Arguments.

(** ** Substrings *)

Lemma append_assoc (a b c : string) : (a +++ b) +++ c = a +++ b +++ c.
Proof. induction a as [|x a IH]; simpl; [reflexivity | now rewrite IH]. Qed.

Lemma prefix_spec (s1 s2 : string) :
  prefix s1 s2 = true <-> exists post, s2 = s1 +++ post.
Proof.
  Transparent prefix.
  revert s1; induction s2 as [|b s2 IH]; intros [|a s1]; simpl.
  - split; [exists ""; reflexivity | reflexivity].
  - split; [discriminate | intros [post H]; discriminate].
  - split; [exists (String b s2); reflexivity | reflexivity].
  - destruct (ascii_dec a b) as [->|Hab].
    + rewrite IH. split; intros [post H]; exists post.
      * now rewrite H.
      * now injection H.
    + split; [discriminate | intros [post H]; injection H; congruence].
  Opaque prefix.
Qed.

(** [includes] is the substring relation. *)
Lemma includes_spec (hay needle : string) :
  includes hay needle = true <-> exists pre post, hay = pre +++ needle +++ post.
Proof.
  unfold includes, indexOf.
  induction hay as [|b hay IH]; simpl.
  - destruct needle as [|a needle]; split; try discriminate.
    + exists "", ""; reflexivity.
    + reflexivity.
    + intros [[|x pre] [post H]]; simpl in H; discriminate.
  - destruct (prefix needle (String b hay)) eqn:Hp.
    + split; [intros _ | reflexivity].
      apply prefix_spec in Hp. destruct Hp as [post H].
      exists "", post; exact H.
    + destruct (String.index 0 needle hay) as [n|] eqn:Hi.
      * split; [intros _ | reflexivity].
        destruct IH as [IH _]. destruct (IH eq_refl) as [pre [post H]].
        exists (String b pre), post. simpl. now rewrite H.
      * split; [discriminate |].
        intros [[|x pre] [post H]]; simpl in H.
        -- assert (prefix needle (String b hay) = true) as Hp'
              by (apply prefix_spec; exists post; exact H).
           congruence.
        -- injection H as _ H. destruct IH as [_ IH].
           assert (false = true) by (apply IH; exists pre, post; exact H).
           discriminate.
Qed.

Lemma includes_trans (a b c : string) :
  includes a b = true -> includes b c = true -> includes a c = true.
Proof.
  rewrite !includes_spec.
  intros [pre1 [post1 ->]] [pre2 [post2 ->]].
  exists (pre1 +++ pre2), (post2 +++ post1).
  now rewrite !append_assoc.
Qed.

Lemma includes_app_dot (p t : string) : includes (p +++ "." +++ t) "." = true.
Proof. apply includes_spec. exists p, t. reflexivity. Qed.

(** A search key always holds a separator. *)
Lemma searchKey_dot (c : string) : includes (searchKey c) "." = true.
Proof.
  unfold searchKey. destruct (includes c ".") eqn:H; [exact H |].
  apply includes_spec. exists "", c. reflexivity.
Qed.

(* ================================================================== *)
(** ** The registry builder *)

Lemma has_get (m : NodeMap) (k : string) :
  has m k = match get m k with Some _ => true | None => false end.
Proof.
  induction m as [|[k0 v] m IH]; simpl; [reflexivity |].
  destruct (String.eqb k0 k); [reflexivity | exact IH].
Qed.

Lemma get_set_absent (m : NodeMap) (k k' : string) (v : list PbNodeEntity) :
  has m k = false ->
  get (set m k v) k' = if String.eqb k k' then Some v else get m k'.
Proof.
  induction m as [|[k0 w] m IH]; simpl; intros H.
  - reflexivity.
  - destruct (String.eqb k0 k) eqn:E0; [discriminate |].
    simpl. destruct (String.eqb k0 k') eqn:E1.
    + apply String.eqb_eq in E1; subst k0.
      destruct (String.eqb k k') eqn:E2; [| reflexivity].
      apply String.eqb_eq in E2; subst k'.
      rewrite String.eqb_refl in E0; discriminate.
    + apply IH, H.
Qed.

Lemma get_push (m : NodeMap) (k k' : string) (d : PbNodeEntity) :
  get (push m k d) k' =
  if String.eqb k k' then option_map (fun v => v ++ [d]) (get m k)
  else get m k'.
Proof.
  induction m as [|[k0 w] m IH]; simpl.
  - destruct (String.eqb k k'); reflexivity.
  - destruct (String.eqb k0 k) eqn:E0; simpl.
    + apply String.eqb_eq in E0; subst k0.
      destruct (String.eqb k k'); reflexivity.
    + destruct (String.eqb k0 k') eqn:E1.
      * apply String.eqb_eq in E1; subst k0. now rewrite String.eqb_sym, E0.
      * exact IH.
Qed.

(** The registry after one turn of the loop: the node's key is present and
    holds what it held, with the new entry behind; no other key changes. *)
Lemma get_register (f : string) (m : NodeMap) (v : ReflectionObject)
      (k : string) :
  get (register f m v) k =
  if String.eqb (keyOf v) k then Some (entries m k ++ entryOf f v)
  else get m k.
Proof.
  assert (Hset : get (if has m (keyOf v) then m else set m (keyOf v) []) k
                 = if String.eqb (keyOf v) k then Some (entries m k)
                   else get m k).
  { unfold entries. destruct (has m (keyOf v)) eqn:Hh.
    - rewrite has_get in Hh.
      destruct (String.eqb (keyOf v) k) eqn:E; [| reflexivity].
      apply String.eqb_eq in E; subst k.
      destruct (get m (keyOf v)); [reflexivity | discriminate].
    - rewrite get_set_absent by exact Hh. rewrite has_get in Hh.
      destruct (String.eqb (keyOf v) k) eqn:E; [| reflexivity].
      apply String.eqb_eq in E; subst k.
      destruct (get m (keyOf v)); [discriminate | reflexivity]. }
  assert (Hpush : forall d,
             get (push (if has m (keyOf v) then m else set m (keyOf v) [])
                       (keyOf v) d) k
             = if String.eqb (keyOf v) k then Some (entries m k ++ [d])
               else get m k).
  { intros d. rewrite get_push.
    destruct (String.eqb (keyOf v) k) eqn:E.
    - apply String.eqb_eq in E; subst k.
      now rewrite Hset.
    - exact Hset. }
  unfold register, entryOf. fold (keyOf v).
  destruct v; simpl isEnum; simpl isMessage; simpl isService;
    simpl isNamespace; cbv iota; try apply Hpush.
  simpl kindOf. cbv iota. rewrite Hset.
  destruct (String.eqb _ k); [now rewrite app_nil_r | reflexivity].
Qed.

Lemma entries_register (f : string) (m : NodeMap) (v : ReflectionObject)
      (k : string) :
  entries (register f m v) k =
  entries m k ++ (if String.eqb (keyOf v) k then entryOf f v else []).
Proof.
  unfold entries at 1. rewrite get_register.
  destruct (String.eqb (keyOf v) k); [reflexivity |].
  now rewrite app_nil_r.
Qed.

(** A key once present stays present. *)
Lemma has_register (f : string) (m : NodeMap) (v : ReflectionObject)
      (k : string) :
  has m k = true -> has (register f m v) k = true.
Proof.
  rewrite !has_get, get_register.
  destruct (String.eqb (keyOf v) k); [reflexivity | trivial].
Qed.

Lemma has_fold_register (f : string) (l : list ReflectionObject)
      (m : NodeMap) (k : string) :
  has m k = true -> has (fold_left (register f) l m) k = true.
Proof.
  revert m; induction l as [|v l IH]; intros m H; simpl; [exact H |].
  apply IH, has_register, H.
Qed.

Lemma entries_fold_register (f : string) (l : list ReflectionObject)
      (m : NodeMap) (k : string) :
  entries (fold_left (register f) l m) k =
  entries m k
  ++ flat_map (fun v => if String.eqb (keyOf v) k then entryOf f v else []) l.
Proof.
  revert m; induction l as [|v l IH]; intros m; simpl.
  - now rewrite app_nil_r.
  - rewrite IH, entries_register, <- app_assoc. reflexivity.
Qed.

(** The inner loop of [visited] goes through the children last to first. *)
Lemma visited_children (nested : list ReflectionObject) :
  (fix go (l : list ReflectionObject) : list ReflectionObject :=
     match l with
     | [] => []
     | c :: l' => go l' ++ visited c
     end) nested
  = flat_map visited (rev nested).
Proof.
  induction nested as [|c l IH]; [reflexivity |].
  simpl rev. rewrite flat_map_app, <- IH. simpl. now rewrite app_nil_r.
Qed.

Lemma visited_unfold (v : ReflectionObject) :
  visited v = v :: flat_map visited (rev (pushed v)).
Proof.
  destruct v; try reflexivity.
  simpl visited. rewrite visited_children. reflexivity.
Qed.

(** With a turn of fuel for every node to pop, the loop ends on the empty
    stack, and what it has built is [register] run over the visited nodes
    in order. *)
Lemma crawl_loop_visited (f : string) (fuel : nat)
      (nodeList : list ReflectionObject) (m : NodeMap) :
  length (flat_map visited nodeList) <= fuel ->
  crawl_loop fuel nodeList m f
  = Some (fold_left (register f) (flat_map visited nodeList) m).
Proof.
  revert nodeList m; induction fuel as [|fuel IH]; intros nodeList m Hlen.
  - destruct nodeList as [|v rest]; [reflexivity |].
    simpl in Hlen. rewrite visited_unfold in Hlen. simpl in Hlen. lia.
  - destruct nodeList as [|v rest]; [reflexivity |].
    simpl crawl_loop. simpl flat_map.
    rewrite visited_unfold. simpl fold_left.
    rewrite IH.
    + now rewrite flat_map_app.
    + simpl in Hlen. rewrite visited_unfold in Hlen. simpl in Hlen.
      rewrite flat_map_app. lia.
Qed.

Lemma crawlAST_fold (node : ReflectionObject) (m : NodeMap) (f : string) :
  crawlAST node m f = fold_left (register f) (visited node) m.
Proof.
  unfold crawlAST. rewrite crawl_loop_visited; simpl; now rewrite app_nil_r.
Qed.

(** More fuel changes nothing. *)
Lemma crawl_loop_enough (f : string) (fuel : nat) (node : ReflectionObject)
      (m : NodeMap) :
  length (visited node) <= fuel ->
  crawl_loop fuel [node] m f = Some (crawlAST node m f).
Proof.
  intros H. rewrite crawlAST_fold, crawl_loop_visited; simpl;
    now rewrite app_nil_r.
Qed.

Lemma entries_crawlAST (node : ReflectionObject) (m : NodeMap)
      (f k : string) :
  entries (crawlAST node m f) k =
  entries m k
  ++ flat_map (fun v => if String.eqb (keyOf v) k then entryOf f v else [])
              (visited node).
Proof. rewrite crawlAST_fold. apply entries_fold_register. Qed.

(** Among nodes of distinct keys, one key picks one node. *)
Lemma flat_map_pick (f k : string) (l : list ReflectionObject)
      (v : ReflectionObject) :
  NoDup (map keyOf l) -> In v l -> keyOf v = k ->
  flat_map (fun v => if String.eqb (keyOf v) k then entryOf f v else []) l
  = entryOf f v.
Proof.
  intros Hnd Hin Hk. subst k.
  induction l as [|w l IH]; [destruct Hin |].
  simpl in Hnd. inversion Hnd as [|? ? Hnotin Hnd']; subst.
  assert (Hnone : forall l', ~ In (keyOf v) (map keyOf l') ->
            flat_map (fun v0 => if String.eqb (keyOf v0) (keyOf v)
                                then entryOf f v0 else []) l' = []).
  { induction l' as [|x l' IH']; intros Hx; [reflexivity |].
    simpl. destruct (String.eqb (keyOf x) (keyOf v)) eqn:E.
    - apply String.eqb_eq in E. exfalso. apply Hx. left. exact E.
    - apply IH'. intros Hc. apply Hx. right. exact Hc. }
  simpl. destruct Hin as [->|Hin].
  - rewrite String.eqb_refl, Hnone by exact Hnotin. apply app_nil_r.
  - destruct (String.eqb (keyOf w) (keyOf v)) eqn:E.
    + apply String.eqb_eq in E. exfalso. apply Hnotin. rewrite E.
      apply in_map, Hin.
    + simpl. apply IH; assumption.
Qed.

(** A crawl leaves alone every key that is the key of no visited node. *)
Lemma get_fold_register_other (f : string) (l : list ReflectionObject)
      (m : NodeMap) (k : string) :
  (forall u, In u l -> keyOf u <> k) ->
  get (fold_left (register f) l m) k = get m k.
Proof.
  revert m; induction l as [|v l IH]; intros m Hl; simpl; [reflexivity |].
  rewrite IH by (intros u Hu; apply Hl; right; exact Hu).
  rewrite get_register.
  destruct (String.eqb (keyOf v) k) eqn:E; [| reflexivity].
  apply String.eqb_eq in E. exfalso. apply (Hl v); [left; reflexivity | exact E].
Qed.

(** The nodes the loop pops are the reachable ones. *)
Lemma visited_reachable (root v : ReflectionObject) :
  In v (visited root) <-> reachable root v.
Proof.
  split.
  - revert v. induction root as [e|n fn nested fields _|s|n fn nested IH|n fn]
      using ReflectionObject_nested_ind; intros v Hin;
      try (destruct Hin as [<-|[]]; constructor).
    rewrite visited_unfold in Hin. simpl pushed in Hin.
    destruct Hin as [<-|Hin]; [constructor |].
    apply in_flat_map in Hin. destruct Hin as [c [Hc Hv]].
    apply in_rev in Hc.
    rewrite Forall_forall in IH.
    eapply reach_nested; [exact Hc | apply IH; assumption].
  - induction 1 as [v|n fn nested c v Hc _ IH].
    + rewrite visited_unfold. left. reflexivity.
    + rewrite visited_unfold. right. simpl pushed.
      apply in_flat_map. exists c. split; [now apply in_rev in Hc | exact IH].
Qed.

(** C1, as the code has it. In non-lint mode, a file that parses, names its
    package and holds the package namespace is crawled from that namespace;
    when the nodes reached from there through namespaces only have distinct
    qualified names, the crawl adds for every such enum, message, service
    and namespace exactly one entry of this file under the node's qualified
    name (leading separator stripped), behind the entries other files left
    there. A key that is the qualified name of no such node is left as
    it was: what is nested in a message is not registered. *)
Theorem crawlAST_registers_reachable_once
        (lookup : ReflectionObject -> string -> option ReflectionObject)
        (EOL : string) (st : LoadState) (file : string)
        (ast : IParserResult) (ns : string)
        (node v : ReflectionObject) (k : Kind) :
  package ast = Some ns -> truthy ns = true ->
  lookup (root ast) ns = Some node ->
  NoDup (map keyOf (visited node)) ->
  reachable node v ->
  kindOf v = Some k ->
  loadFile lookup EOL false st (file, Parsed ast)
  = Returned (mkState (crawlAST node (st_nodeMap st) file)
                      (st_astList st ++ [ast]) (st_log st))
  /\ (forall nodeMap,
         entries (crawlAST node nodeMap file) (keyOf v)
         = entries nodeMap (keyOf v) ++ [mkEntity v k file])
  /\ (forall nodeMap key,
         (forall u, reachable node u -> keyOf u <> key) ->
         get (crawlAST node nodeMap file) key = get nodeMap key).
Proof.
  intros Hpkg Hns Hlk Hnd Hr Hk. split; [| split].
  - simpl. rewrite Hpkg. destruct ns; [discriminate |]. now rewrite Hlk.
  - intros nodeMap. apply visited_reachable in Hr.
    rewrite entries_crawlAST.
    rewrite (flat_map_pick file (keyOf v) _ v Hnd Hr eq_refl).
    unfold entryOf. now rewrite Hk.
  - intros nodeMap key Hkey. rewrite crawlAST_fold.
    apply get_fold_register_other.
    intros u Hu. apply Hkey. now apply visited_reachable.
Qed.

Lemma crawlAST_registers_reachable_once_witness :
  package Sample.astP = Some "p" /\ truthy "p" = true
  /\ Sample.lookup (root Sample.astP) "p" = Some Sample.namespaceP
  /\ NoDup (map keyOf (visited Sample.namespaceP))
  /\ reachable Sample.namespaceP Sample.messageM
  /\ kindOf Sample.messageM = Some message
  /\ loadFile Sample.lookup nl false emptyState
              ("a.proto", Parsed Sample.astP)
     = Returned (mkState (crawlAST Sample.namespaceP [] "a.proto")
                         [Sample.astP] [])
  /\ entries (crawlAST Sample.namespaceP [] "a.proto") "p.M"
     = [mkEntity Sample.messageM message "a.proto"].
Proof.
  assert (Hnd : NoDup (map keyOf (visited Sample.namespaceP))).
  { simpl. repeat constructor; simpl; intuition discriminate. }
  assert (Hr : reachable Sample.namespaceP Sample.messageM).
  { eapply reach_nested; [left; reflexivity | constructor]. }
  destruct (crawlAST_registers_reachable_once
              Sample.lookup nl emptyState "a.proto" Sample.astP "p"
              Sample.namespaceP Sample.messageM message
              eq_refl eq_refl eq_refl Hnd Hr eq_refl)
    as [Hload [Hentries _]].
  split; [reflexivity |]. split; [reflexivity |]. split; [reflexivity |].
  split; [exact Hnd |]. split; [exact Hr |]. split; [reflexivity |].
  split; [exact Hload | exact (Hentries [])].
Defined.

(** C1 as stated fails: an enum declared inside a message is declared in the
    file, yet crawling the file leaves nothing under its qualified name. *)
Lemma nested_in_message_not_registered :
  In Sample.enumE (declared Sample.namespaceP)
  /\ kindOf Sample.enumE = Some enum
  /\ keyOf Sample.enumE = "p.M.E"
  /\ get (crawlAST Sample.namespaceP [] "a.proto") "p.M.E" = None
  /\ entries (crawlAST Sample.namespaceP [] "a.proto") "p.M.E" = [].
Proof.
  repeat split; try reflexivity.
  simpl. right. right. left. reflexivity.
Qed.

Lemma flat_map_split (A B : Type) (g : A -> list B) (l : list A) (x : A) :
  In x l -> exists pre post, flat_map g l = pre ++ g x ++ post.
Proof.
  intros Hin. apply in_split in Hin. destruct Hin as [l1 [l2 ->]].
  exists (flat_map g l1), (flat_map g l2).
  rewrite flat_map_app. reflexivity.
Qed.

(** C4. A turn of the registry loop on a node whose qualified name is
    already a key appends the node's entry to the list under that key; a
    crawl keeps every list it finds as a prefix of the list it leaves; and
    after two files that declare the same qualified name were crawled, the
    entry of the first file and the entry of the second are both there, in
    that order. *)
Theorem registry_appends_never_overwrites :
  (forall file nodeMap v k data,
      kindOf v = Some k ->
      get nodeMap (keyOf v) = Some data ->
      get (register file nodeMap v) (keyOf v)
      = Some (data ++ [mkEntity v k file]))
  /\ (forall root nodeMap file key data,
         get nodeMap key = Some data ->
         exists extra,
           get (crawlAST root nodeMap file) key = Some (data ++ extra))
  /\ (forall root1 root2 file1 file2 nodeMap v1 v2 k1 k2,
         reachable root1 v1 -> reachable root2 v2 ->
         kindOf v1 = Some k1 -> kindOf v2 = Some k2 ->
         keyOf v1 = keyOf v2 ->
         exists before between after,
           entries (crawlAST root2 (crawlAST root1 nodeMap file1) file2)
                   (keyOf v1)
           = before ++ mkEntity v1 k1 file1 :: between
                    ++ mkEntity v2 k2 file2 :: after).
Proof.
  split; [| split].
  - intros file nodeMap v k data Hk Hget.
    rewrite get_register, String.eqb_refl.
    unfold entries, entryOf. now rewrite Hget, Hk.
  - intros root nodeMap file key data Hget.
    pose proof (entries_crawlAST root nodeMap file key) as He.
    assert (Hhas : has (crawlAST root nodeMap file) key = true).
    { rewrite crawlAST_fold. apply has_fold_register.
      rewrite has_get. now rewrite Hget. }
    rewrite has_get in Hhas. unfold entries in He. rewrite Hget in He.
    destruct (get (crawlAST root nodeMap file) key) as [data'|];
      [| discriminate].
    eexists. rewrite He. reflexivity.
  - intros root1 root2 file1 file2 nodeMap v1 v2 k1 k2 Hr1 Hr2 Hk1 Hk2 Hkey.
    apply visited_reachable in Hr1, Hr2.
    rewrite !entries_crawlAST.
    destruct (flat_map_split _ _
                (fun v => if String.eqb (keyOf v) (keyOf v1)
                          then entryOf file1 v else []) _ _ Hr1)
      as [a1 [b1 ->]].
    destruct (flat_map_split _ _
                (fun v => if String.eqb (keyOf v) (keyOf v1)
                          then entryOf file2 v else []) _ _ Hr2)
      as [a2 [b2 ->]].
    rewrite <- Hkey, !String.eqb_refl. unfold entryOf. rewrite Hk1, Hk2.
    exists (entries nodeMap (keyOf v1) ++ a1), (b1 ++ a2), b2.
    repeat (rewrite <- app_assoc; simpl). reflexivity.
Qed.

Lemma registry_appends_never_overwrites_witness :
  let m1 := crawlAST Sample.namespaceP [] "a.proto" in
  let m2 := crawlAST Sample.namespaceP' m1 "b.proto" in
  get m1 "p.M" = Some [mkEntity Sample.messageM message "a.proto"]
  /\ get m2 "p.M" = Some [mkEntity Sample.messageM message "a.proto";
                         mkEntity Sample.messageM' message "b.proto"]
  /\ get (register "b.proto" m1 Sample.messageM') "p.M"
     = Some ([mkEntity Sample.messageM message "a.proto"]
               ++ [mkEntity Sample.messageM' message "b.proto"])
  /\ (exists extra,
         get m2 "p.M"
         = Some ([mkEntity Sample.messageM message "a.proto"] ++ extra))
  /\ (exists before between after,
         entries m2 "p.M"
         = before ++ mkEntity Sample.messageM message "a.proto" :: between
                  ++ mkEntity Sample.messageM' message "b.proto" :: after).
Proof.
  intros m1 m2.
  destruct registry_appends_never_overwrites as [Hstep [Hcrawl Htwo]].
  assert (H1 : get m1 "p.M"
               = Some [mkEntity Sample.messageM message "a.proto"])
    by reflexivity.
  split; [| split; [| split; [| split]]].
  - exact H1.
  - reflexivity.
  - exact (Hstep "b.proto" m1 Sample.messageM' message _ eq_refl H1).
  - exact (Hcrawl Sample.namespaceP' m1 "b.proto" "p.M" _ H1).
  - refine (Htwo Sample.namespaceP Sample.namespaceP' "a.proto" "b.proto" []
                 Sample.messageM Sample.messageM' message message
                 _ _ eq_refl eq_refl eq_refl).
    + eapply reach_nested; [left; reflexivity | constructor].
    + eapply reach_nested; [left; reflexivity | constructor].
Defined.

(* ================================================================== *)
(** ** The resolver *)

Lemma arrayIncludes_In (arr : list string) (x : string) :
  arrayIncludes arr x = true <-> In x arr.
Proof.
  induction arr as [|y arr IH]; simpl.
  - split; [discriminate | tauto].
  - destruct (String.eqb y x) eqn:E.
    + apply String.eqb_eq in E. tauto.
    + apply String.eqb_neq in E. rewrite IH. tauto.
Qed.

Lemma survives_spec (t : string) (d : PbNodeEntity) :
  survives t d = isTypeEntry d && String.eqb (name (meta d)) t.
Proof.
  unfold survives, isTypeEntry.
  destruct (Kind_eqb (type d) enum), (Kind_eqb (type d) message),
    (String.eqb (name (meta d)) t); reflexivity.
Qed.

(** The loop over the registry finds the first survivor of the candidate. *)
Lemma scan_survivorsOf (m : NodeMap) (c t : string) :
  scan m (searchKey c) t = hd_error (survivorsOf m c t).
Proof.
  unfold survivorsOf.
  induction m as [|[ns node] m IH]; simpl; [reflexivity |].
  rewrite (filter_ext _ _ (survives_spec t)).
  destruct (includes ns (searchKey c)); simpl; [| exact IH].
  destruct (filter _ node) as [|d rest]; simpl; [exact IH | reflexivity].
Qed.

Lemma scan_Some (m : NodeMap) (ff t : string) (d : PbNodeEntity) :
  scan m ff t = Some d ->
  exists ns node,
    In (ns, node) m /\ includes ns ff = true /\ In d node
    /\ survives t d = true.
Proof.
  induction m as [|[ns node] m IH]; simpl; [discriminate |].
  destruct (includes ns ff) eqn:Hinc; simpl.
  - destruct (filter (survives t) node) as [|d' rest] eqn:Hf.
    + intros H. destruct (IH H) as [ns' [node' [Hin H']]].
      exists ns', node'. split; [right; exact Hin | exact H'].
    + intros H. injection H as ->.
      assert (Hd : In d (filter (survives t) node))
        by (rewrite Hf; left; reflexivity).
      apply filter_In in Hd. destruct Hd as [Hd Hs].
      exists ns, node. repeat split; auto.
  - intros H. destruct (IH H) as [ns' [node' [Hin H']]].
    exists ns', node'. split; [right; exact Hin | exact H'].
Qed.

Lemma wellFormedRegistry_entry (m : NodeMap) (ns : string)
      (node : list PbNodeEntity) (d : PbNodeEntity) :
  wellFormedRegistry m = true -> In (ns, node) m -> In d node ->
  isTypeEntry d = true ->
  keyOf (meta d) = ns /\ includes (name (meta d)) "." = false.
Proof.
  unfold wellFormedRegistry. rewrite forallb_forall.
  intros Hwf Hin Hd Ht. specialize (Hwf _ Hin). simpl in Hwf.
  rewrite forallb_forall in Hwf. specialize (Hwf _ Hd).
  unfold wellFormedEntry in Hwf. rewrite Ht in Hwf.
  apply andb_prop in Hwf. destruct Hwf as [Hk Hn].
  apply String.eqb_eq in Hk. apply negb_true_iff in Hn. auto.
Qed.

(** In a well-formed registry, the name a field is rewritten to is the name
    of no enum or message: it holds a separator, as the search key did. *)
Lemma rewritten_inert (m : NodeMap) (ff t : string) (d : PbNodeEntity) :
  wellFormedRegistry m = true ->
  includes ff "." = true ->
  scan m ff t = Some d ->
  inert m (stripLeadingDot (fullName (meta d))).
Proof.
  intros Hwf Hdot Hscan ff'.
  apply scan_Some in Hscan. destruct Hscan as [ns [node [Hin [Hinc [Hd Hs]]]]].
  rewrite survives_spec in Hs. apply andb_prop in Hs. destruct Hs as [Ht _].
  destruct (wellFormedRegistry_entry m ns node d Hwf Hin Hd Ht) as [Hk _].
  fold (keyOf (meta d)). rewrite Hk.
  destruct (scan m ff' ns) as [d'|] eqn:Hscan'; [| reflexivity].
  exfalso.
  apply scan_Some in Hscan'.
  destruct Hscan' as [ns' [node' [Hin' [_ [Hd' Hs']]]]].
  rewrite survives_spec in Hs'. apply andb_prop in Hs'.
  destruct Hs' as [Ht' Hn'].
  destruct (wellFormedRegistry_entry m ns' node' d' Hwf Hin' Hd' Ht')
    as [_ Hnodot].
  apply String.eqb_eq in Hn'. rewrite Hn' in Hnodot.
  rewrite (includes_trans ns ff "." Hinc Hdot) in Hnodot. discriminate.
Qed.

Lemma tryCell_inert (m : NodeMap) (t c : string) :
  inert m t -> tryCell m t c = t.
Proof. intros H. unfold tryCell. now rewrite H. Qed.

(** One candidate, seen from the slots of the store. *)
Lemma tryCandidate_cell (m : NodeMap) (field : Field) (s : store)
      (c : string) (b : nat) :
  tryCandidate m field s c b =
  if Nat.eqb b (addr field) then tryCell m (s (addr field)) c else s b.
Proof.
  unfold tryCandidate, tryCell, typeOf.
  destruct (scan m (searchKey c) (s (addr field))) as [d|]; unfold update.
  - reflexivity.
  - destruct (Nat.eqb b (addr field)) eqn:E; [| reflexivity].
    apply Nat.eqb_eq in E. now subst b.
Qed.

Lemma fold_tryCandidate_cell (m : NodeMap) (field : Field)
      (cands : list string) (s : store) (b : nat) :
  fold_left (tryCandidate m field) cands s b =
  if Nat.eqb b (addr field)
  then fold_left (tryCell m) cands (s (addr field))
  else s b.
Proof.
  revert s; induction cands as [|c cands IH]; intros s; simpl.
  - destruct (Nat.eqb b (addr field)) eqn:E; [| reflexivity].
    apply Nat.eqb_eq in E. now subst b.
  - rewrite IH, !tryCandidate_cell, Nat.eqb_refl.
    destruct (Nat.eqb b (addr field)); reflexivity.
Qed.

(** A visit of a field changes its slot alone, and by [attachCell]. *)
Lemma attachField_cell (p : string) (m : NodeMap) (s : store) (field : Field)
      (b : nat) :
  attachField p m s field b =
  if Nat.eqb b (addr field) then attachCell p m field (s (addr field))
  else s b.
Proof.
  unfold attachField, attachCell, eligible, resolveField, resolveCell, typeOf.
  destruct (negb (resolved field) && _ && _).
  - apply fold_tryCandidate_cell.
  - destruct (Nat.eqb b (addr field)) eqn:E; [| reflexivity].
    apply Nat.eqb_eq in E. now subst b.
Qed.

(** The resolution of a slot in the words of the specification. *)
Lemma resolveCell_spec (p : string) (m : NodeMap) (t : string) :
  wellFormedRegistry m = true ->
  resolveCell p m t = specResolve p m t.
Proof.
  intros Hwf. unfold resolveCell, specResolve, candidates. cbn [fold_left].
  set (c1 := p +++ "." +++ t).
  pose proof (scan_survivorsOf m c1 t) as H1.
  unfold tryCell at 2.
  destruct (survivorsOf m c1 t) as [|d1 rest1]; simpl in H1; rewrite H1.
  - unfold tryCell. rewrite scan_survivorsOf.
    destruct (survivorsOf m t t); reflexivity.
  - apply tryCell_inert.
    exact (rewritten_inert m _ t d1 Hwf (searchKey_dot _) H1).
Qed.

Lemma attachCell_inert (p : string) (m : NodeMap) (field : Field)
      (t : string) :
  inert m t -> attachCell p m field t = t.
Proof.
  intros H. unfold attachCell, resolveCell, candidates.
  destruct (eligible field t); [| reflexivity].
  cbn [fold_left]. now rewrite !(tryCell_inert m t) by exact H.
Qed.

(** A visit leaves a slot as it was, or leaves in it a name that no later
    visit can change. *)
Lemma attachCell_settles (p : string) (m : NodeMap) (field : Field)
      (t : string) :
  wellFormedRegistry m = true ->
  attachCell p m field t = t \/ inert m (attachCell p m field t).
Proof.
  intros Hwf. unfold attachCell.
  destruct (eligible field t); [| left; reflexivity].
  unfold resolveCell, candidates. cbn [fold_left].
  destruct (scan m (searchKey (p +++ "." +++ t)) t) as [d1|] eqn:H1.
  - assert (E1 : tryCell m t (p +++ "." +++ t)
                 = stripLeadingDot (fullName (meta d1)))
      by (unfold tryCell; now rewrite H1).
    rewrite E1. right.
    pose proof (rewritten_inert m _ t d1 Hwf (searchKey_dot _) H1) as Hi.
    now rewrite tryCell_inert.
  - assert (E1 : tryCell m t (p +++ "." +++ t) = t)
      by (unfold tryCell; now rewrite H1).
    rewrite E1. unfold tryCell.
    destruct (scan m (searchKey t) t) as [d2|] eqn:H2.
    + right. exact (rewritten_inert m _ t d2 Hwf (searchKey_dot _) H2).
    + left. reflexivity.
Qed.

Lemma runVisits_cell (m : NodeMap) (visits : list (string * Field))
      (s : store) (b : nat) :
  runVisits m visits s b = fold_left (slotStep m b) visits (s b).
Proof.
  unfold runVisits. revert s; induction visits as [|[p f] visits IH];
    intros s; simpl; [reflexivity |].
  rewrite IH, attachField_cell. f_equal. unfold slotStep. simpl.
  destruct (Nat.eqb b (addr f)) eqn:E; [| reflexivity].
  apply Nat.eqb_eq in E. now subst b.
Qed.

Lemma slotSteps_inert (m : NodeMap) (b : nat) (visits : list (string * Field))
      (t : string) :
  inert m t -> fold_left (slotStep m b) visits t = t.
Proof.
  intros Hi. induction visits as [|v visits IH]; simpl; [reflexivity |].
  assert (Hv : slotStep m b t v = t).
  { unfold slotStep. destruct (Nat.eqb b (addr (snd v)));
      [now apply attachCell_inert | reflexivity]. }
  now rewrite Hv.
Qed.

Lemma slotSteps_fixed (m : NodeMap) (b : nat) (visits : list (string * Field))
      (t : string) :
  Forall (fun v => slotStep m b t v = t) visits ->
  fold_left (slotStep m b) visits t = t.
Proof.
  induction 1 as [|v visits Hv _ IH]; simpl; [reflexivity |].
  now rewrite Hv.
Qed.

Lemma slotSteps_settle (m : NodeMap) (b : nat)
      (visits : list (string * Field)) (t : string) :
  wellFormedRegistry m = true ->
  inert m (fold_left (slotStep m b) visits t)
  \/ (fold_left (slotStep m b) visits t = t
      /\ Forall (fun v => slotStep m b t v = t) visits).
Proof.
  intros Hwf. induction visits as [|v visits IH]; simpl.
  - right. split; [reflexivity | constructor].
  - assert (Hstep : slotStep m b t v = t \/ inert m (slotStep m b t v)).
    { unfold slotStep. destruct (Nat.eqb b (addr (snd v)));
        [apply attachCell_settles, Hwf | left; reflexivity]. }
    destruct Hstep as [Heq|Hi].
    + rewrite Heq. destruct IH as [IH|[IH1 IH2]]; [left; exact IH |].
      right. split; [exact IH1 | constructor; assumption].
    + left. now rewrite slotSteps_inert.
Qed.

(** A second run of the same visits finds every slot settled. *)
Lemma runVisits_idempotent (m : NodeMap) (visits : list (string * Field))
      (s : store) (b : nat) :
  wellFormedRegistry m = true ->
  runVisits m visits (runVisits m visits s) b = runVisits m visits s b.
Proof.
  intros Hwf. rewrite (runVisits_cell m visits (runVisits m visits s)).
  rewrite runVisits_cell.
  destruct (slotSteps_settle m b visits (s b) Hwf) as [Hi|[Heq Hall]].
  - now apply slotSteps_inert.
  - rewrite Heq. now apply slotSteps_fixed.
Qed.

Lemma fold_left_flat_map (A B C : Type) (g : A -> C -> A) (h : B -> list C)
      (l : list B) (a : A) :
  fold_left (fun a x => fold_left g (h x) a) l a
  = fold_left g (flat_map h l) a.
Proof.
  revert a; induction l as [|x l IH]; intros a; simpl; [reflexivity |].
  now rewrite fold_left_app, IH.
Qed.

Lemma fold_left_map (A B C : Type) (g : A -> C -> A) (h : B -> C)
      (l : list B) (a : A) :
  fold_left g (map h l) a = fold_left (fun a x => g a (h x)) l a.
Proof.
  revert a; induction l as [|x l IH]; intros a; simpl; [reflexivity |].
  apply IH.
Qed.

(** The resolver on a namespace is the visit of the fields of its
    messages, in order. *)
Lemma attachNested_visits (p : string) (m : NodeMap)
      (nested : list ReflectionObject) (s : store) :
  attachNested p m nested s
  = runVisits m (map (pair p) (topFields nested)) s.
Proof.
  unfold attachNested, runVisits, topFields.
  rewrite fold_left_map. simpl.
  rewrite <- (fold_left_flat_map _ _ _ (attachField p m)).
  revert s. induction nested as [|d nested IH]; intros s; simpl;
    [reflexivity |].
  rewrite <- IH. destruct d; reflexivity.
Qed.

Section ResolverRuns.
Variable lookup : ReflectionObject -> string -> option ReflectionObject.

Lemma attachAll_visits (l : list IParserResult) (m : NodeMap) (s : store) :
  stateOf (attachAll lookup l m s) = runVisits m (visitsOf lookup l) s.
Proof.
  revert s; induction l as [|ast l IH]; intros s; simpl; [reflexivity |].
  unfold crawlAstAndAttachNamespace.
  destruct (packageNested lookup ast) as [[p nested]|]; [| reflexivity].
  rewrite IH, attachNested_visits. unfold runVisits.
  now rewrite fold_left_app.
Qed.

(** Whether the resolver throws depends on the syntax trees alone. *)
Lemma attachAll_throws (l : list IParserResult) (m : NodeMap)
      (s s' : store) :
  throws (attachAll lookup l m s) = throws (attachAll lookup l m s').
Proof.
  revert s s'; induction l as [|ast l IH]; intros s s'; simpl;
    [reflexivity |].
  unfold crawlAstAndAttachNamespace.
  destruct (packageNested lookup ast) as [[p nested]|]; [| reflexivity].
  apply IH.
Qed.
End ResolverRuns.

Lemma slot_untouched (m : NodeMap) (p : string) (b : nat)
      (fields : list Field) (t : string) :
  ~ In b (map addr fields) ->
  fold_left (slotStep m b) (map (pair p) fields) t = t.
Proof.
  induction fields as [|f fields IH]; simpl; intros Hb; [reflexivity |].
  unfold slotStep at 2. simpl.
  destruct (Nat.eqb b (addr f)) eqn:E.
  - apply Nat.eqb_eq in E. exfalso. apply Hb. left. now symmetry.
  - apply IH. intros Hc. apply Hb. right. exact Hc.
Qed.

Lemma slot_visited_once (m : NodeMap) (p : string) (field : Field)
      (fields : list Field) (t : string) :
  NoDup (map addr fields) -> In field fields ->
  fold_left (slotStep m (addr field)) (map (pair p) fields) t
  = attachCell p m field t.
Proof.
  induction fields as [|f fields IH]; simpl; intros Hnd Hin; [destruct Hin |].
  inversion Hnd as [|? ? Hnotin Hnd']; subst.
  destruct Hin as [->|Hin].
  - assert (E : slotStep m (addr field) t (p, field) = attachCell p m field t)
      by (unfold slotStep; simpl; now rewrite Nat.eqb_refl).
    rewrite E. now apply slot_untouched.
  - assert (E : slotStep m (addr field) t (p, f) = t).
    { unfold slotStep. simpl.
      destruct (Nat.eqb (addr field) (addr f)) eqn:E; [| reflexivity].
      apply Nat.eqb_eq in E. exfalso. apply Hnotin. rewrite <- E.
      apply in_map, Hin. }
    rewrite E. now apply IH.
Qed.

(** C2, as the code has it. In a file whose package namespace is found, the
    resolver visits the fields of the messages that are direct children of
    that namespace, and no other field: with distinct field objects, the
    type of each such field ends as its own visit leaves it (for a field not
    resolved by the schema source and not of a primitive type, as the
    rewrite attempt [resolveField] leaves it), and every other slot keeps
    its type. *)
Theorem resolver_visits_fields_of_top_level_messages
        (lookup : ReflectionObject -> string -> option ReflectionObject)
        (ast : IParserResult) (nodeMap : NodeMap) (s : store)
        (p : string) (nested : list ReflectionObject) :
  packageNested lookup ast = Some (p, nested) ->
  NoDup (map addr (topFields nested)) ->
  exists s',
    crawlAstAndAttachNamespace lookup ast nodeMap s = Returned s'
    /\ (forall field, In field (topFields nested) ->
                      typeOf s' field
                      = typeOf (attachField p nodeMap s field) field)
    /\ (forall field, In field (topFields nested) ->
                      eligible field (typeOf s field) = true ->
                      typeOf s' field
                      = typeOf (resolveField p nodeMap s field) field)
    /\ (forall b, ~ In b (map addr (topFields nested)) -> s' b = s b).
Proof.
  intros Hpkg Hnd.
  unfold crawlAstAndAttachNamespace. rewrite Hpkg.
  eexists. split; [reflexivity |].
  assert (Hfield : forall field, In field (topFields nested) ->
            typeOf (attachNested p nodeMap nested s) field
            = typeOf (attachField p nodeMap s field) field).
  { intros field Hin. unfold typeOf.
    rewrite attachNested_visits, runVisits_cell, attachField_cell,
      Nat.eqb_refl.
    now apply slot_visited_once. }
  split; [exact Hfield |]. split.
  - intros field Hin Hel. rewrite (Hfield field Hin).
    unfold attachField. unfold eligible in Hel. now rewrite Hel.
  - intros b Hb. rewrite attachNested_visits, runVisits_cell.
    now apply slot_untouched.
Qed.

Lemma resolver_visits_fields_of_top_level_messages_witness :
  packageNested Sample.lookup Sample.astQ
  = Some ("p", [Sample.messageFoo; Sample.messageOuter])
  /\ NoDup (map addr (topFields [Sample.messageFoo; Sample.messageOuter]))
  /\ exists s',
      crawlAstAndAttachNamespace Sample.lookup Sample.astQ Sample.registryQ
                                 Sample.typesFoo = Returned s'
      /\ (forall field,
             In field (topFields [Sample.messageFoo; Sample.messageOuter]) ->
             typeOf s' field
             = typeOf (attachField "p" Sample.registryQ Sample.typesFoo field)
                      field)
      /\ (forall field,
             In field (topFields [Sample.messageFoo; Sample.messageOuter]) ->
             eligible field (typeOf Sample.typesFoo field) = true ->
             typeOf s' field
             = typeOf (resolveField "p" Sample.registryQ Sample.typesFoo field)
                      field)
      /\ (forall b,
             ~ In b (map addr
                         (topFields [Sample.messageFoo; Sample.messageOuter])) ->
             s' b = Sample.typesFoo b).
Proof.
  assert (Hpkg : packageNested Sample.lookup Sample.astQ
                 = Some ("p", [Sample.messageFoo; Sample.messageOuter]))
    by reflexivity.
  assert (Hnd : NoDup (map addr (topFields [Sample.messageFoo;
                                            Sample.messageOuter]))).
  { simpl. repeat constructor. simpl. tauto. }
  split; [exact Hpkg |]. split; [exact Hnd |].
  exact (resolver_visits_fields_of_top_level_messages
           Sample.lookup Sample.astQ Sample.registryQ Sample.typesFoo
           "p" _ Hpkg Hnd).
Defined.

(** C2 as stated fails: the field [f] of the message [Inner], nested in
    [Outer], is declared in the file, is not resolved by the schema source
    and is not of a primitive type; a rewrite attempt would name it [p.Foo],
    as the resolver does for the field [g] of [Outer]; yet the resolver
    leaves its type as it was. *)
Lemma nested_message_field_not_visited :
  In Sample.fieldF (allFields (root Sample.astQ))
  /\ eligible Sample.fieldF (typeOf Sample.typesFoo Sample.fieldF) = true
  /\ typeOf (resolveField "p" Sample.registryQ Sample.typesFoo Sample.fieldF)
            Sample.fieldF = "p.Foo"
  /\ exists s',
      crawlAstAndAttachNamespace Sample.lookup Sample.astQ Sample.registryQ
                                 Sample.typesFoo = Returned s'
      /\ typeOf s' Sample.fieldG = "p.Foo"
      /\ typeOf s' Sample.fieldF = "Foo".
Proof.
  split; [simpl; tauto |]. split; [vm_compute; reflexivity |].
  split; [vm_compute; reflexivity |].
  eexists. split; [reflexivity |]. split; vm_compute; reflexivity.
Qed.



(** Why the registry has to be well formed: the callback given to [some]
    never returns a truthy value, so the second candidate is scanned even
    after the first one matched. With an entry whose simple name holds a
    separator, the second candidate rewrites the field once more. *)
Remark second_candidate_scanned_after_a_match :
  let odd := pbType "p.A" ".q.A" [] [] in
  let m := [("p.A", [mkEntity (pbType "A" ".p.A" [] []) message "a.proto"]);
            ("q.A", [mkEntity odd message "b.proto"])] in
  let field := mkField "x" 1 0 false true false false None None in
  wellFormedRegistry m = false
  /\ specResolve "p" m "A" = "p.A"
  /\ typeOf (resolveField "p" m (fun _ => "A") field) field = "q.A".
Proof. vm_compute. repeat split. Qed.

Lemma survivorsOf_app (m1 m2 : NodeMap) (c t : string) :
  survivorsOf (m1 ++ m2) c t = survivorsOf m1 c t ++ survivorsOf m2 c t.
Proof. unfold survivorsOf. apply flat_map_app. Qed.

(** C10. Let the registry be well formed and let [c] be the first candidate
    of the field that has a survivor. If [ns] is the first key, in insertion
    order, that holds the search key of [c] and has surviving entries
    [d :: rest], then the field is rewritten to the qualified name of [d],
    leading separator stripped, whatever else matches: [rest], and the keys
    after [ns]. *)
Theorem resolveField_takes_first_match_in_insertion_order
        (p : string) (nodeMap : NodeMap) (s : store) (field : Field)
        (pre post : NodeMap) (ns : string) (node : list PbNodeEntity)
        (c : string) (d : PbNodeEntity) (rest : list PbNodeEntity) :
  wellFormedRegistry nodeMap = true ->
  nodeMap = pre ++ (ns, node) :: post ->
  (c = p +++ "." +++ typeOf s field
   \/ (c = typeOf s field
       /\ survivorsOf nodeMap (p +++ "." +++ typeOf s field)
                      (typeOf s field) = [])) ->
  survivorsOf pre c (typeOf s field) = [] ->
  includes ns (searchKey c) = true ->
  filter (survives (typeOf s field)) node = d :: rest ->
  typeOf (resolveField p nodeMap s field) field
  = stripLeadingDot (fullName (meta d)).
Proof.
  intros Hwf Hm Hc Hpre Hinc Hf.
  assert (Hsurv : exists more,
             survivorsOf nodeMap c (typeOf s field) = d :: more).
  { rewrite Hm, survivorsOf_app, Hpre. simpl.
    unfold survivorsOf at 1. simpl. rewrite Hinc.
    rewrite <- (filter_ext _ _ (survives_spec (typeOf s field))), Hf.
    simpl. eexists. reflexivity. }
  destruct Hsurv as [more Hsurv].
  unfold typeOf at 1. unfold resolveField.
  rewrite fold_tryCandidate_cell, Nat.eqb_refl.
  change (fold_left (tryCell nodeMap) (candidates p (typeOf s field))
                    (s (addr field)))
    with (resolveCell p nodeMap (typeOf s field)).
  rewrite resolveCell_spec by exact Hwf.
  unfold specResolve.
  destruct Hc as [->|[-> Hnone]].
  - now rewrite Hsurv.
  - now rewrite Hnone, Hsurv.
Qed.

Lemma resolveField_takes_first_match_in_insertion_order_witness :
  let first := mkEntity Sample.messageFoo message "q.proto" in
  let second := mkEntity Sample.messageFoo' message "r.proto" in
  let pre := [("p", [mkEntity Sample.namespaceQ namespace "q.proto";
                     mkEntity Sample.namespaceR namespace "r.proto"]);
              ("p.Outer", [mkEntity Sample.messageOuter message "q.proto"])] in
  wellFormedRegistry Sample.registryQR = true
  /\ Sample.registryQR = pre ++ [("p.Foo", [first; second])]
  /\ survivorsOf pre "p.Foo" "Foo" = []
  /\ includes "p.Foo" (searchKey "p.Foo") = true
  /\ filter (survives "Foo") [first; second] = [first; second]
  /\ typeOf (resolveField "p" Sample.registryQR Sample.typesFoo Sample.fieldG)
            Sample.fieldG = "p.Foo".
Proof.
  intros first second pre.
  assert (Hwf : wellFormedRegistry Sample.registryQR = true)
    by (vm_compute; reflexivity).
  assert (Hm : Sample.registryQR = pre ++ [("p.Foo", [first; second])])
    by (vm_compute; reflexivity).
  assert (Hpre : survivorsOf pre "p.Foo" "Foo" = [])
    by (vm_compute; reflexivity).
  assert (Hinc : includes "p.Foo" (searchKey "p.Foo") = true)
    by (vm_compute; reflexivity).
  assert (Hf : filter (survives "Foo") [first; second] = [first; second])
    by (vm_compute; reflexivity).
  split; [exact Hwf |]. split; [exact Hm |]. split; [exact Hpre |].
  split; [exact Hinc |]. split; [exact Hf |].
  exact (resolveField_takes_first_match_in_insertion_order
           "p" Sample.registryQR Sample.typesFoo Sample.fieldG
           pre [] "p.Foo" [first; second] "p.Foo" first [second]
           Hwf Hm (or_introl eq_refl) Hpre Hinc Hf).
Defined.

Lemma isOriginType_attachCell (p : string) (m : NodeMap) (field : Field)
      (t : string) :
  isOriginType t = true -> attachCell p m field t = t.
Proof.
  intros H. unfold attachCell, eligible. rewrite H.
  now rewrite andb_false_r.
Qed.

(** C5. For every name of the fixed primitive set, the visit of a field of
    that type leaves the store as it is, and a whole run of the resolver,
    over any list of files and any registry, leaves every slot that holds
    that name as it is. *)
Theorem primitive_types_never_rewritten (t : string) :
  In t originTypes ->
  (forall p nodeMap s field,
      typeOf s field = t -> attachField p nodeMap s field = s)
  /\ (forall lookup astList nodeMap s a,
         s a = t -> stateOf (attachAll lookup astList nodeMap s) a = t).
Proof.
  intros Hin. apply arrayIncludes_In in Hin. fold (isOriginType t) in Hin.
  split.
  - intros p nodeMap s field Ht. unfold attachField.
    now rewrite Ht, Hin, andb_false_r.
  - intros lookup astList nodeMap s a Ha.
    rewrite attachAll_visits, runVisits_cell, Ha.
    apply slotSteps_fixed. apply Forall_forall. intros v _.
    unfold slotStep. destruct (Nat.eqb a (addr (snd v))); [| reflexivity].
    now apply isOriginType_attachCell.
Qed.

Lemma primitive_types_never_rewritten_witness :
  let s : store := fun a => if Nat.eqb a 2 then "int32" else "Foo" in
  In "int32" originTypes
  /\ attachField "p" Sample.registryQ s Sample.fieldG = s
  /\ stateOf (attachAll Sample.lookup [Sample.astQ] Sample.registryQ s) 2
     = "int32".
Proof.
  intros s.
  assert (Hin : In "int32" originTypes)
    by (right; right; left; reflexivity).
  destruct (primitive_types_never_rewritten "int32" Hin) as [Hfield Hrun].
  split; [exact Hin |]. split.
  - exact (Hfield "p" Sample.registryQ s Sample.fieldG eq_refl).
  - exact (Hrun Sample.lookup [Sample.astQ] Sample.registryQ s 2 eq_refl).
Defined.

(** C6. Over a well-formed registry the resolver is idempotent: run a second
    time over the same files, from the store the first run left, it throws
    if and only if the first run did and leaves every field type as the
    first run left it. *)
Theorem resolver_idempotent
        (lookup : ReflectionObject -> string -> option ReflectionObject)
        (astList : list IParserResult) (nodeMap : NodeMap) (s : store) :
  wellFormedRegistry nodeMap = true ->
  let once := attachAll lookup astList nodeMap s in
  let twice := attachAll lookup astList nodeMap (stateOf once) in
  throws twice = throws once
  /\ forall a, stateOf twice a = stateOf once a.
Proof.
  intros Hwf once twice. split.
  - apply attachAll_throws.
  - intros a. unfold twice, once. rewrite !attachAll_visits.
    now apply runVisits_idempotent.
Qed.

Lemma resolver_idempotent_witness :
  let once :=
      attachAll Sample.lookup [Sample.astQ; Sample.astR] Sample.registryQR
                Sample.typesFoo in
  let twice :=
      attachAll Sample.lookup [Sample.astQ; Sample.astR] Sample.registryQR
                (stateOf once) in
  wellFormedRegistry Sample.registryQR = true
  /\ throws once = false
  /\ stateOf once 2 = "p.Foo"
  /\ throws twice = throws once
  /\ forall a, stateOf twice a = stateOf once a.
Proof.
  intros once twice.
  assert (Hwf : wellFormedRegistry Sample.registryQR = true)
    by (vm_compute; reflexivity).
  split; [exact Hwf |]. split; [reflexivity |].
  split; [vm_compute; reflexivity |].
  exact (resolver_idempotent Sample.lookup [Sample.astQ; Sample.astR]
                             Sample.registryQR Sample.typesFoo Hwf).
Defined.

(* ================================================================== *)
(** ** The driver *)

Lemma mentions_set (f k : string) (m : NodeMap) :
  mentions f m = false -> mentions f (set m k []) = false.
Proof.
  unfold mentions, allEntries.
  induction m as [|[k0 v] m IH]; simpl; [trivial |].
  rewrite existsb_app. intros H. apply orb_false_elim in H.
  destruct H as [Hv Hm].
  destruct (String.eqb k0 k); simpl.
  - exact Hm.
  - rewrite existsb_app, Hv. simpl. apply IH, Hm.
Qed.

Lemma mentions_push (f k : string) (d : PbNodeEntity) (m : NodeMap) :
  String.eqb (filename d) f = false ->
  mentions f m = false -> mentions f (push m k d) = false.
Proof.
  unfold mentions, allEntries. intros Hd.
  induction m as [|[k0 v] m IH]; simpl; [trivial |].
  rewrite existsb_app. intros H. apply orb_false_elim in H.
  destruct H as [Hv Hm].
  destruct (String.eqb k0 k); simpl; rewrite !existsb_app.
  - simpl. now rewrite Hv, Hd, Hm.
  - rewrite Hv. simpl. apply IH, Hm.
Qed.

(** Crawling a file adds entries of that file only. *)
Lemma mentions_register (f file : string) (m : NodeMap)
      (v : ReflectionObject) :
  String.eqb file f = false ->
  mentions f m = false -> mentions f (register file m v) = false.
Proof.
  intros Hf Hm.
  assert (H1 : mentions f (if has m (keyOf v) then m
                           else set m (keyOf v) []) = false)
    by (destruct (has m (keyOf v)); [exact Hm | now apply mentions_set]).
  unfold register. fold (keyOf v).
  destruct v; simpl isEnum; simpl isMessage; simpl isService;
    simpl isNamespace; cbv iota;
    try (apply mentions_push; [exact Hf | exact H1]).
  exact H1.
Qed.

Lemma mentions_crawlAST (f file : string) (m : NodeMap)
      (root : ReflectionObject) :
  String.eqb file f = false ->
  mentions f m = false -> mentions f (crawlAST root m file) = false.
Proof.
  intros Hf. rewrite crawlAST_fold. revert m.
  induction (visited root) as [|v l IH]; intros m Hm; simpl; [exact Hm |].
  apply IH. now apply mentions_register.
Qed.

Lemma has_set (m : NodeMap) (k k' : string) (v : list PbNodeEntity) :
  has (set m k v) k' = has m k' || String.eqb k k'.
Proof.
  induction m as [|[k0 w] m IH]; simpl.
  - destruct (String.eqb k k'); reflexivity.
  - destruct (String.eqb k0 k) eqn:E0; simpl.
    + apply String.eqb_eq in E0; subst k0.
      destruct (String.eqb k k'); simpl; [reflexivity |].
      now rewrite orb_false_r.
    + destruct (String.eqb k0 k'); [reflexivity | exact IH].
Qed.

Lemma has_push (m : NodeMap) (k k' : string) (d : PbNodeEntity) :
  has (push m k d) k' = has m k'.
Proof.
  induction m as [|[k0 w] m IH]; simpl; [reflexivity |].
  destruct (String.eqb k0 k); simpl;
    destruct (String.eqb k0 k'); try reflexivity.
  exact IH.
Qed.

(** The files the grouping has a key for are the files of the entries. *)
Lemma has_groupByFilename (m : NodeMap) (f : string) :
  has (groupByFilename m) f = mentions f m.
Proof.
  unfold groupByFilename, mentions, allEntries.
  rewrite (fold_left_flat_map _ _ _
             (fun fm datum =>
                push (if has fm (filename datum) then fm
                      else set fm (filename datum) [])
                     (filename datum) datum) snd).
  generalize (flat_map snd m) as l. intros l.
  assert (H : forall fm,
             has (fold_left
                    (fun fm datum =>
                       push (if has fm (filename datum) then fm
                             else set fm (filename datum) [])
                            (filename datum) datum) l fm) f
             = has fm f || existsb (fun d => String.eqb (filename d) f) l).
  { induction l as [|d l IH]; intros fm; simpl.
    - now rewrite orb_false_r.
    - rewrite IH, has_push.
      destruct (has fm (filename d)) eqn:Hh.
      + destruct (String.eqb (filename d) f) eqn:E.
        * apply String.eqb_eq in E. subst f. now rewrite Hh.
        * reflexivity.
      + rewrite has_set. now rewrite orb_assoc. }
  apply H.
Qed.

Section DriverProperties.

Variable lookup : ReflectionObject -> string -> option ReflectionObject.
Variable typeMapping : string -> bool -> string.
Variable attachComment : string -> string -> option string -> string.
Variable printEnums : list EnumEntity -> string.
Variable printInternalInterfacesAndEnums : InterfaceEntity -> string.
Variable prettier : string -> option string.
Variable targetFilename : string -> string.
Variable EOL : string.

Abbreviation theLoadFile := (loadFile lookup EOL).
Abbreviation theLoadFiles := (loadFiles lookup EOL).
Abbreviation theWriteFile :=
  (writeFile typeMapping attachComment printEnums
             printInternalInterfacesAndEnums prettier targetFilename EOL).
Abbreviation theWriteFiles :=
  (writeFiles typeMapping attachComment printEnums
              printInternalInterfacesAndEnums prettier targetFilename EOL).
Abbreviation theLoadPb :=
  (loadPb lookup typeMapping attachComment printEnums
          printInternalInterfacesAndEnums prettier targetFilename EOL).

Lemma loadFiles_app (lint : bool) (l1 l2 : list (string * ParseOutcome))
      (st : LoadState) :
  theLoadFiles lint (l1 ++ l2) st =
  match theLoadFiles lint l1 st with
  | Returned st1 => theLoadFiles lint l2 st1
  | Thrown st1 => Thrown st1
  end.
Proof.
  revert st; induction l1 as [|file l1 IH]; intros st; simpl;
    [reflexivity |].
  destruct (theLoadFile lint st file); [apply IH | reflexivity].
Qed.

Lemma loadFile_sameButLog (lint : bool) (st st' : LoadState)
      (file : string * ParseOutcome) :
  sameButLog st st' ->
  sameOutcomeButLog (theLoadFile lint st file) (theLoadFile lint st' file).
Proof.
  intros [Hm Ha]. destruct file as [f [e|ast]]; simpl.
  - split; [reflexivity | split; assumption].
  - destruct lint; [split; [reflexivity | split; assumption] |].
    destruct (package ast) as [[|c ns]|].
    + split; [reflexivity | split; assumption].
    + destruct (lookup (root ast) (String c ns)).
      * split; [reflexivity |]. split; simpl; congruence.
      * split; [reflexivity | split; assumption].
    + split; [reflexivity | split; assumption].
Qed.

Lemma loadFiles_sameButLog (lint : bool) (l : list (string * ParseOutcome))
      (st st' : LoadState) :
  sameButLog st st' ->
  sameOutcomeButLog (theLoadFiles lint l st) (theLoadFiles lint l st').
Proof.
  revert st st'; induction l as [|file l IH]; intros st st' H; simpl.
  - split; [reflexivity | exact H].
  - destruct (loadFile_sameButLog lint st st' file H) as [Ht Hs].
    destruct (theLoadFile lint st file), (theLoadFile lint st' file);
      simpl in Ht, Hs; try discriminate.
    + now apply IH.
    + split; [reflexivity | exact Hs].
Qed.

(** What is on the console stays there. *)
Lemma loadFile_log (lint : bool) (st : LoadState)
      (file : string * ParseOutcome) (line : string) :
  In line (st_log st) -> In line (st_log (stateOf (theLoadFile lint st file))).
Proof.
  intros H. destruct file as [f [e|ast]]; simpl.
  - apply in_or_app. now left.
  - destruct lint; [exact H |].
    destruct (package ast) as [[|c ns]|]; simpl.
    + apply in_or_app. now left.
    + destruct (lookup (root ast) (String c ns)); exact H.
    + apply in_or_app. now left.
Qed.

Lemma loadFiles_log (lint : bool) (l : list (string * ParseOutcome))
      (st : LoadState) (line : string) :
  In line (st_log st) -> In line (st_log (stateOf (theLoadFiles lint l st))).
Proof.
  revert st; induction l as [|file l IH]; intros st H; simpl; [exact H |].
  pose proof (loadFile_log lint st file line H) as H'.
  destruct (theLoadFile lint st file); simpl in H'; [now apply IH | exact H'].
Qed.

(** A file that did not parse, or that was not given, is the file of no
    entry. *)
Lemma loadFiles_mentions (lint : bool) (f : string)
      (l : list (string * ParseOutcome)) (st : LoadState) :
  (forall ast, ~ In (f, Parsed ast) l) ->
  mentions f (st_nodeMap st) = false ->
  mentions f (st_nodeMap (stateOf (theLoadFiles lint l st))) = false.
Proof.
  revert st; induction l as [|file l IH]; intros st Hl Hm; simpl;
    [exact Hm |].
  assert (Hl' : forall ast, ~ In (f, Parsed ast) l)
    by (intros ast Hc; apply (Hl ast); right; exact Hc).
  assert (Hstep : mentions f (st_nodeMap (stateOf (theLoadFile lint st file)))
                  = false).
  { destruct file as [f' [e|ast]]; simpl; [exact Hm |].
    destruct lint; [exact Hm |].
    destruct (package ast) as [[|c ns]|]; simpl; try exact Hm.
    destruct (lookup (root ast) (String c ns)); simpl; [| exact Hm].
    apply mentions_crawlAST; [| exact Hm].
    apply String.eqb_neq. intros ->. apply (Hl ast). left. reflexivity. }
  destruct (theLoadFile lint st file); simpl in Hstep;
    [now apply IH | exact Hstep].
Qed.

Lemma writeFile_unmentioned (m : NodeMap) (s : store) (f : string) :
  mentions f m = false -> theWriteFile (groupByFilename m) s f = NotWritten.
Proof.
  intros H. unfold writeFile.
  rewrite <- has_groupByFilename, has_get in H.
  destruct (get (groupByFilename m) f); [discriminate | reflexivity].
Qed.

Lemma writeFiles_app (fm : NodeMap) (s : store)
      (l1 l2 : list (string * ParseOutcome)) :
  theWriteFiles fm s (l1 ++ l2)
  = match theWriteFiles fm s l1, theWriteFiles fm s l2 with
    | Some w1, Some w2 => Some (w1 ++ w2)
    | _, _ => None
    end.
Proof.
  induction l1 as [|[f o] l1 IH]; simpl.
  - destruct (theWriteFiles fm s l2); reflexivity.
  - rewrite IH.
    destruct (theWriteFile fm s f), (theWriteFiles fm s l1),
             (theWriteFiles fm s l2); reflexivity.
Qed.

Lemma logOf_loadPb (lint : bool) (l : list (string * ParseOutcome))
      (s : store) :
  logOf (theLoadPb lint l s) = st_log (stateOf (theLoadFiles lint l emptyState)).
Proof.
  unfold loadPb. fold emptyState.
  destruct (theLoadFiles lint l emptyState) as [st|st]; simpl;
    [| reflexivity].
  destruct (attachAll lookup (st_astList st) (st_nodeMap st) s) as [s'|s'];
    [| reflexivity].
  destruct (theWriteFiles (groupByFilename (st_nodeMap st)) s' l);
    reflexivity.
Qed.

Lemma loadPb_Fulfilled (lint : bool) (l : list (string * ParseOutcome))
      (s s' : store) (nodeMap : NodeMap) (written : list (string * string))
      (log : list string) :
  theLoadPb lint l s = Fulfilled nodeMap written s' log ->
  nodeMap = st_nodeMap (stateOf (theLoadFiles lint l emptyState)).
Proof.
  unfold loadPb. fold emptyState.
  destruct (theLoadFiles lint l emptyState) as [st|st]; simpl;
    [| discriminate].
  destruct (attachAll lookup (st_astList st) (st_nodeMap st) s) as [s1|s1];
    [| discriminate].
  destruct (theWriteFiles (groupByFilename (st_nodeMap st)) s1 l);
    [| discriminate].
  intros H. now injection H.
Qed.

(** C8, as the code has it. Outside lint mode, a file that parses and
    declares no package name ends the run: the loop over the files throws
    at the first such file, with the registry and the console as the
    files before it left them and one more line on the console, no later
    file is looked at, and the run is rejected. *)
Theorem missing_package_aborts_outside_lint_mode
        (l1 l2 : list (string * ParseOutcome)) (f : string)
        (ast : IParserResult) (st0 : LoadState) (s : store) :
  noPackage ast = true ->
  theLoadFiles false (l1 ++ (f, Parsed ast) :: l2) st0
  = match theLoadFiles false l1 st0 with
    | Returned st1 =>
        Thrown (logged st1 ["Package name not found. File: " +++ f])
    | Thrown st1 => Thrown st1
    end
  /\ exists log, theLoadPb false (l1 ++ (f, Parsed ast) :: l2) s = Rejected log.
Proof.
  intros Hno.
  assert (Hstep : forall st,
             theLoadFile false st (f, Parsed ast)
             = Thrown (logged st ["Package name not found. File: " +++ f])).
  { intros st. unfold noPackage in Hno. simpl.
    destruct (package ast) as [[|c ns]|]; [reflexivity | discriminate
                                           | reflexivity]. }
  assert (Hall : forall st,
             theLoadFiles false (l1 ++ (f, Parsed ast) :: l2) st
             = match theLoadFiles false l1 st with
               | Returned st1 =>
                   Thrown (logged st1
                                  ["Package name not found. File: " +++ f])
               | Thrown st1 => Thrown st1
               end).
  { intros st. rewrite loadFiles_app.
    destruct (theLoadFiles false l1 st) as [st1|st1]; [| reflexivity].
    cbn [loadFiles]. now rewrite Hstep. }
  split; [apply Hall |].
  unfold loadPb. rewrite Hall.
  destruct (theLoadFiles false l1 _); eexists; reflexivity.
Qed.

End DriverProperties.

Lemma missing_package_aborts_outside_lint_mode_witness :
  let anonymous := mkAst None (pbNamespace "" "" []) in
  noPackage anonymous = true
  /\ loadFiles Sample.lookup nl false
               ([("q.proto", Parsed Sample.astQ)]
                  ++ ("x.proto", Parsed anonymous)
                  :: [("r.proto", Parsed Sample.astR)])
               emptyState
     = Thrown (mkState Sample.registryQ [Sample.astQ]
                       ["Package name not found. File: x.proto"]).
Proof.
  intros anonymous.
  split; [reflexivity |].
  exact (proj1 (missing_package_aborts_outside_lint_mode
                  Sample.lookup Sample.typeMapping Sample.attachComment
                  Sample.printEnums Sample.printInternal Sample.prettier
                  Sample.targetFilename nl
                  [("q.proto", Parsed Sample.astQ)]
                  [("r.proto", Parsed Sample.astR)]
                  "x.proto" anonymous emptyState Sample.typesFoo eq_refl)).
Defined.

(** C8 as stated fails: in lint mode a file that parses and declares no
    package name is passed over like any other, the files after it are
    parsed, and the run is fulfilled. *)
Lemma lint_mode_ignores_missing_package :
  let anonymous := mkAst None (pbNamespace "" "" []) in
  noPackage anonymous = true
  /\ loadPb Sample.lookup Sample.typeMapping Sample.attachComment
            Sample.printEnums Sample.printInternal Sample.prettier
            Sample.targetFilename nl true
            [("x.proto", Parsed anonymous);
             ("bad.proto", ParseError "illegal token")]
            Sample.typesFoo
     = Fulfilled [] [] Sample.typesFoo
                 ["filename: bad.proto"; "illegal token";
                  "pb lint ERROR: bad.proto" +++ nl; "illegal token"].
Proof. split; reflexivity. Qed.

(* ================================================================== *)
(** ** The registry of a run is well formed *)

Lemma wellFormed_set (m : NodeMap) (k : string) :
  wellFormedRegistry m = true -> wellFormedRegistry (set m k []) = true.
Proof.
  unfold wellFormedRegistry.
  induction m as [|[k0 v] m IH]; simpl; [trivial |].
  intros H. apply andb_prop in H. destruct H as [Hv Hm].
  destruct (String.eqb k0 k); simpl.
  - exact Hm.
  - now rewrite Hv, IH.
Qed.

Lemma wellFormed_push (m : NodeMap) (k : string) (d : PbNodeEntity) :
  wellFormedEntry k d = true ->
  wellFormedRegistry m = true -> wellFormedRegistry (push m k d) = true.
Proof.
  unfold wellFormedRegistry. intros Hd.
  induction m as [|[k0 v] m IH]; simpl; [trivial |].
  intros H. apply andb_prop in H. destruct H as [Hv Hm].
  destruct (String.eqb k0 k) eqn:E; simpl.
  - apply String.eqb_eq in E. subst k0.
    rewrite forallb_app, Hv, Hm. simpl. now rewrite Hd.
  - now rewrite Hv, IH.
Qed.

Lemma wellFormed_register (f : string) (m : NodeMap) (v : ReflectionObject) :
  simpleName v = true ->
  wellFormedRegistry m = true -> wellFormedRegistry (register f m v) = true.
Proof.
  intros Hv Hm.
  assert (H1 : wellFormedRegistry (if has m (keyOf v) then m
                                   else set m (keyOf v) []) = true)
    by (destruct (has m (keyOf v)); [exact Hm | now apply wellFormed_set]).
  unfold register. fold (keyOf v).
  destruct v; simpl isEnum; simpl isMessage; simpl isService;
    simpl isNamespace; cbv iota; try exact H1;
    (apply wellFormed_push; [| exact H1]);
    unfold wellFormedEntry, isTypeEntry; simpl; try reflexivity;
    rewrite String.eqb_refl; exact Hv.
Qed.

(** Crawling a tree whose enums and messages bear identifiers keeps the
    registry well formed. *)
Lemma wellFormed_crawlAST (root : ReflectionObject) (m : NodeMap)
      (f : string) :
  simpleNames root = true ->
  wellFormedRegistry m = true ->
  wellFormedRegistry (crawlAST root m f) = true.
Proof.
  unfold simpleNames. rewrite crawlAST_fold, forallb_forall.
  revert m. induction (visited root) as [|v l IH]; intros m Hs Hm; simpl;
    [exact Hm |].
  apply IH.
  - intros x Hx. apply Hs. right. exact Hx.
  - apply wellFormed_register; [apply Hs; left; reflexivity | exact Hm].
Qed.

Section RegistryOfARun.
Variable lookup : ReflectionObject -> string -> option ReflectionObject.
Variable EOL : string.

(** The registry [loadPb] hands to the resolver is well formed whenever
    the package namespaces of the parsed files bear identifiers. *)
Lemma wellFormed_loadFiles (lint : bool) (l : list (string * ParseOutcome))
      (st : LoadState) :
  (forall f ast ns node,
      In (f, Parsed ast) l -> lookup (root ast) ns = Some node ->
      simpleNames node = true) ->
  wellFormedRegistry (st_nodeMap st) = true ->
  wellFormedRegistry
    (st_nodeMap (stateOf (loadFiles lookup EOL lint l st))) = true.
Proof.
  revert st; induction l as [|file l IH]; intros st Hl Hm; simpl;
    [exact Hm |].
  assert (Hstep : wellFormedRegistry
                    (st_nodeMap (stateOf (loadFile lookup EOL lint st file)))
                  = true).
  { destruct file as [f [e|ast]]; simpl; [exact Hm |].
    destruct lint; [exact Hm |].
    destruct (package ast) as [[|c ns]|]; simpl; try exact Hm.
    destruct (lookup (root ast) (String c ns)) as [node|] eqn:Hlk; simpl;
      [| exact Hm].
    apply wellFormed_crawlAST; [| exact Hm].
    apply (Hl f ast (String c ns) node); [left; reflexivity | exact Hlk]. }
  destruct (loadFile lookup EOL lint st file); simpl in Hstep;
    [| exact Hstep].
  apply IH; [| exact Hstep].
  intros f ast ns node Hin. apply (Hl f ast ns node). right. exact Hin.
Qed.
End RegistryOfARun.

(* ================================================================== *)
(** ** The entity builder and the service printer *)

Lemma nth_arraySet_same (A : Type) (arr : list (option A)) (i : nat) (v : A) :
  nth_error (arraySet arr i v) i = Some (Some v).
Proof.
  revert arr; induction i as [|i IH]; intros [|x arr]; simpl; auto.
Qed.

Lemma nth_arraySet_other (A : Type) (arr : list (option A)) (i j : nat)
      (v d : A) :
  i <> j ->
  (nth_error (arraySet arr i v) j = Some (Some d)
   <-> nth_error arr j = Some (Some d)).
Proof.
  revert arr j; induction i as [|i IH]; intros [|x arr] [|j] Hij; simpl;
    try tauto; try (exfalso; apply Hij; reflexivity).
  - destruct j; simpl; split; discriminate.
  - split; discriminate.
  - rewrite (IH [] j) by auto. destruct j; reflexivity.
  - apply IH. auto.
Qed.

Lemma In_compact (A : Type) (arr : list (option A)) (d : A) :
  In d (compact arr) <-> exists i, nth_error arr i = Some (Some d).
Proof.
  induction arr as [|[v|] arr IH]; simpl.
  - split; [tauto | intros [[|i] H]; discriminate].
  - rewrite IH. split.
    + intros [->|[i H]]; [exists 0; reflexivity | exists (S i); exact H].
    + intros [[|i] H]; simpl in H.
      * left. congruence.
      * right. exists i. exact H.
  - rewrite IH. split.
    + intros [i H]. exists (S i). exact H.
    + intros [[|i] H]; simpl in H; [discriminate | exists i; exact H].
Qed.

Lemma wellIndexed_tail (off : nat) (x : option InputParam)
      (arr : list (option InputParam)) :
  wellIndexed off (x :: arr) -> wellIndexed (S off) arr.
Proof.
  intros H i d Hi. rewrite (H (S i) d Hi). lia.
Qed.

(** The filter keeps the filled slots in the order of their index. *)
Lemma compact_sorted (off : nat) (arr : list (option InputParam)) :
  wellIndexed off arr ->
  StronglySorted (fun a b => (index a < index b)%nat) (compact arr)
  /\ Forall (fun d => off <= index d) (compact arr).
Proof.
  revert off; induction arr as [|x arr IH]; intros off Hw; simpl.
  - split; constructor.
  - destruct (IH (S off) (wellIndexed_tail off x arr Hw)) as [Hs Hf].
    assert (Hf' : Forall (fun d => off <= index d) (compact arr)).
    { eapply Forall_impl; [| exact Hf]. simpl. intros d Hd. lia. }
    destruct x as [v|]; [| split; assumption].
    assert (Hv : index v = off) by (rewrite (Hw 0 v eq_refl); lia).
    split.
    + constructor; [exact Hs |].
      eapply Forall_impl; [| exact Hf]. simpl. intros d Hd. lia.
    + constructor; [lia | exact Hf'].
Qed.

Lemma wellIndexed_arraySet (arr : list (option InputParam)) (d : InputParam) :
  wellIndexed 0 arr -> wellIndexed 0 (arraySet arr (index d) d).
Proof.
  intros Hw i d' Hi. destruct (Nat.eq_dec (index d) i) as [<-|Hne].
  - rewrite nth_arraySet_same in Hi. injection Hi as <-. reflexivity.
  - apply nth_arraySet_other in Hi; [| exact Hne]. now apply Hw.
Qed.

Lemma filled_wellIndexed (l : list InputParam)
      (arr : list (option InputParam)) :
  wellIndexed 0 arr -> wellIndexed 0 (filled l arr).
Proof.
  revert arr; induction l as [|d l IH]; intros arr Hw; simpl; [exact Hw |].
  apply IH, wellIndexed_arraySet, Hw.
Qed.

Lemma filled_from (l : list InputParam) (arr : list (option InputParam))
      (i : nat) (d : InputParam) :
  nth_error (filled l arr) i = Some (Some d) ->
  In d l \/ nth_error arr i = Some (Some d).
Proof.
  revert arr; induction l as [|x l IH]; intros arr H; simpl in H;
    [right; exact H |].
  destruct (IH _ H) as [Hin|Hn]; [left; right; exact Hin |].
  destruct (Nat.eq_dec (index x) i) as [<-|Hne].
  - rewrite nth_arraySet_same in Hn. injection Hn as <-.
    left. left. reflexivity.
  - apply nth_arraySet_other in Hn; [| exact Hne]. right. exact Hn.
Qed.

Lemma filled_keeps (l : list InputParam) (arr : list (option InputParam))
      (i : nat) :
  (exists d, nth_error arr i = Some (Some d)) ->
  exists d, nth_error (filled l arr) i = Some (Some d).
Proof.
  revert arr; induction l as [|x l IH]; intros arr [d H]; simpl;
    [exists d; exact H |].
  apply IH. destruct (Nat.eq_dec (index x) i) as [<-|Hne].
  - exists x. apply nth_arraySet_same.
  - exists d. apply nth_arraySet_other; assumption.
Qed.

Lemma filled_covers (l : list InputParam) (arr : list (option InputParam))
      (d : InputParam) :
  In d l -> exists d', nth_error (filled l arr) (index d) = Some (Some d').
Proof.
  revert arr; induction l as [|x l IH]; intros arr Hin; [destruct Hin |].
  simpl. destruct Hin as [->|Hin]; [| now apply IH].
  apply filled_keeps. exists d. apply nth_arraySet_same.
Qed.

(** C9. A method with a request type becomes a function with one input
    parameter, [req], of index 1, and a method without one a function with
    none; the return type is the response type. The text of a method in
    the printed service interface is its name, the rendered parameters
    between parentheses, and the return type inside [Promise<...>]. The
    parameters rendered are the filled slots of the sparse array in the
    order of their index: strictly ascending, every one a declared
    parameter, and every declared index present. *)
Theorem service_methods_as_promise_functions :
  (forall node,
      inputParams (convertMethodToFunctionEntity node)
      = if truthy (requestType node)
        then [mkParam (requestType node) 1 "req"]
        else [])
  /\ (forall node,
         returnType (convertMethodToFunctionEntity node) = responseType node)
  /\ (forall key node,
         signature key (convertMethodToFunctionEntity node)
         = "    " +++ key +++ "("
                  +++ (if truthy (requestType node)
                       then "req: " +++ requestType node
                       else "")
                  +++ "): Promise<" +++ responseType node +++ ">;")
  /\ (forall key i,
         signature key i
         = "    " +++ key +++ "("
                  +++ join ", " (map (fun d => p_name d +++ ": " +++ p_type d)
                                     (sortedParams i))
                  +++ "): Promise<" +++ returnType i +++ ">;")
  /\ (forall attachComment name methods,
         printServices attachComment [mkServiceEntity name methods]
         = "  export interface " +++ name +++ " {" +++ nl
             +++ join nl (map (fun ki =>
                                 attachComment (signature (fst ki) (snd ki))
                                               (comment (snd ki)) None)
                              methods)
             +++ nl +++ "  }" +++ nl +++ nl)
  /\ (forall i,
         StronglySorted (fun a b => (index a < index b)%nat) (sortedParams i)
         /\ (forall d, In d (sortedParams i) -> In d (inputParams i))
         /\ (forall d, In d (inputParams i) ->
                       exists d', In d' (sortedParams i)
                                  /\ index d' = index d)).
Proof.
  split; [reflexivity |]. split; [reflexivity |]. split.
  { intros key node. unfold signature, inputParamsStr, sortedParams.
    simpl. destruct (truthy (requestType node)); reflexivity. }
  split; [reflexivity |]. split.
  { intros attachComment name methods. unfold printServices, printService.
    cbn [fold_left se_name interfaces].
    rewrite (map_ext _ (fun ki : string * FunctionEntity =>
                          attachComment (signature (fst ki) (snd ki))
                                        (comment (snd ki)) None))
      by (intros [key i]; reflexivity).
    reflexivity. }
  intros i. unfold sortedParams. split; [| split].
  - refine (proj1 (compact_sorted 0 _ _)).
    apply filled_wellIndexed. intros [|j] d H; discriminate.
  - intros d Hd. apply In_compact in Hd. destruct Hd as [j Hj].
    apply filled_from in Hj. destruct Hj as [Hin|Hn]; [exact Hin |].
    destruct j; discriminate.
  - intros d Hin. destruct (filled_covers _ [] d Hin) as [d' Hd'].
    exists d'. split.
    + apply In_compact. exists (index d). exact Hd'.
    + assert (Hw : wellIndexed 0
                     (fold_left (fun sortTmp d0 => arraySet sortTmp (index d0) d0)
                                (inputParams i) []))
        by (apply filled_wellIndexed; intros [|j] x H; discriminate).
      exact (Hw _ _ Hd').
Qed.

Lemma service_methods_as_promise_functions_witness :
  let a := mkParam "A" 1 "a" in
  let c := mkParam "C" 3 "c" in
  let c' := mkParam "C2" 3 "c2" in
  let i := mkFunction "" [c; a; c'] "R" in
  In c (inputParams i)
  /\ sortedParams i = [a; c']
  /\ (exists d', In d' (sortedParams i) /\ index d' = index c)
  /\ signature "call" i = "    call(a: A, c2: C2): Promise<R>;"
  /\ signature "get" (convertMethodToFunctionEntity
                        (mkMethod "get" "Req" "Res" None))
     = "    get(req: Req): Promise<Res>;".
Proof.
  intros a c c' i.
  destruct service_methods_as_promise_functions
    as [_ [_ [Hsig [_ [_ Hsorted]]]]].
  assert (Hin : In c (inputParams i)) by (left; reflexivity).
  split; [exact Hin |]. split; [reflexivity |].
  split; [exact (proj2 (proj2 (Hsorted i)) c Hin) |].
  split; [reflexivity |].
  exact (Hsig "get" (mkMethod "get" "Req" "Res" None)).
Defined.

(* ================================================================== *)
(** * Further properties *)

(** ** The registry builder *)

Lemma has_In_keys (m : NodeMap) (k : string) :
  has m k = true <-> In k (keys m).
Proof.
  unfold keys. induction m as [|[k0 v] m IH]; simpl.
  - split; [discriminate | tauto].
  - destruct (String.eqb k0 k) eqn:E.
    + apply String.eqb_eq in E. tauto.
    + apply String.eqb_neq in E. rewrite IH. tauto.
Qed.

Lemma keys_push (m : NodeMap) (k : string) (d : PbNodeEntity) :
  keys (push m k d) = keys m.
Proof.
  unfold keys. induction m as [|[k0 v] m IH]; simpl; [reflexivity |].
  destruct (String.eqb k0 k); simpl; [reflexivity | now rewrite IH].
Qed.

Lemma keys_set_absent (m : NodeMap) (k : string) (v : list PbNodeEntity) :
  has m k = false -> keys (set m k v) = keys m ++ [k].
Proof.
  unfold keys. induction m as [|[k0 w] m IH]; simpl; intros H;
    [reflexivity |].
  destruct (String.eqb k0 k); [discriminate |]. simpl. now rewrite IH.
Qed.

(** A turn of the loop adds the key of the node behind the others when it
    is new, and moves no key. *)
Lemma keys_register (f : string) (m : NodeMap) (v : ReflectionObject) :
  keys (register f m v)
  = if has m (keyOf v) then keys m else keys m ++ [keyOf v].
Proof.
  assert (H1 : keys (if has m (keyOf v) then m else set m (keyOf v) [])
               = if has m (keyOf v) then keys m else keys m ++ [keyOf v]).
  { destruct (has m (keyOf v)) eqn:Hh; [reflexivity |].
    now apply keys_set_absent. }
  unfold register. fold (keyOf v).
  destruct v; simpl isEnum; simpl isMessage; simpl isService;
    simpl isNamespace; cbv iota; rewrite ?keys_push; exact H1.
Qed.

Lemma keys_fold_register_fresh (f : string) (l : list ReflectionObject)
      (m : NodeMap) :
  NoDup (map keyOf l) ->
  (forall v, In v l -> has m (keyOf v) = false) ->
  keys (fold_left (register f) l m) = keys m ++ map keyOf l.
Proof.
  revert m; induction l as [|v l IH]; intros m Hnd Hfresh; simpl.
  - now rewrite app_nil_r.
  - inversion Hnd as [|? ? Hnotin Hnd']; subst.
    rewrite IH; [| exact Hnd' |].
    + rewrite keys_register, (Hfresh v (or_introl eq_refl)).
      now rewrite <- app_assoc.
    + intros u Hu.
      destruct (has (register f m v) (keyOf u)) eqn:Hh; [| reflexivity].
      apply has_In_keys in Hh.
      rewrite keys_register, (Hfresh v (or_introl eq_refl)) in Hh.
      apply in_app_or in Hh. destruct Hh as [Hh|[Hh|[]]].
      * apply has_In_keys in Hh.
        rewrite (Hfresh u (or_intror Hu)) in Hh. discriminate.
      * exfalso. apply Hnotin. rewrite Hh. now apply in_map.
Qed.

Lemma NoDup_keys_register (f : string) (m : NodeMap) (v : ReflectionObject) :
  NoDup (keys m) -> NoDup (keys (register f m v)).
Proof.
  intros Hnd. rewrite keys_register.
  destruct (has m (keyOf v)) eqn:Hh; [exact Hnd |].
  apply NoDup_app; [exact Hnd | repeat constructor; simpl; tauto |].
  intros x Hx [<-|[]]. apply has_In_keys in Hx. congruence.
Qed.

Lemma everyEntry_set (P : string -> PbNodeEntity -> bool) (m : NodeMap)
      (k : string) :
  everyEntry P m = true -> everyEntry P (set m k []) = true.
Proof.
  unfold everyEntry.
  induction m as [|[k0 v] m IH]; simpl; [trivial |].
  intros H. apply andb_prop in H. destruct H as [Hv Hm].
  destruct (String.eqb k0 k); simpl.
  - exact Hm.
  - now rewrite Hv, IH.
Qed.

Lemma everyEntry_push (P : string -> PbNodeEntity -> bool) (m : NodeMap)
      (k : string) (d : PbNodeEntity) :
  P k d = true -> everyEntry P m = true -> everyEntry P (push m k d) = true.
Proof.
  unfold everyEntry. intros Hd.
  induction m as [|[k0 v] m IH]; simpl; [trivial |].
  intros H. apply andb_prop in H. destruct H as [Hv Hm].
  destruct (String.eqb k0 k) eqn:E; simpl.
  - apply String.eqb_eq in E. subst k0.
    rewrite forallb_app, Hv, Hm. simpl. now rewrite Hd.
  - now rewrite Hv, IH.
Qed.

Lemma everyEntry_register (P : string -> PbNodeEntity -> bool) (f : string)
      (m : NodeMap) (v : ReflectionObject) :
  (forall k, kindOf v = Some k -> P (keyOf v) (mkEntity v k f) = true) ->
  everyEntry P m = true -> everyEntry P (register f m v) = true.
Proof.
  intros Hv Hm.
  assert (H1 : everyEntry P (if has m (keyOf v) then m
                             else set m (keyOf v) []) = true)
    by (destruct (has m (keyOf v)); [exact Hm | now apply everyEntry_set]).
  unfold register. fold (keyOf v).
  destruct v; simpl isEnum; simpl isMessage; simpl isService;
    simpl isNamespace; cbv iota; try exact H1;
    (apply everyEntry_push; [apply Hv; reflexivity | exact H1]).
Qed.

Lemma everyEntry_crawlAST (P : string -> PbNodeEntity -> bool)
      (root : ReflectionObject) (m : NodeMap) (f : string) :
  (forall v k, kindOf v = Some k -> P (keyOf v) (mkEntity v k f) = true) ->
  everyEntry P m = true -> everyEntry P (crawlAST root m f) = true.
Proof.
  intros HP. rewrite crawlAST_fold. revert m.
  induction (visited root) as [|v l IH]; intros m Hm; simpl; [exact Hm |].
  apply IH. apply everyEntry_register; [apply HP | exact Hm].
Qed.

Lemma everyEntry_In (P : string -> PbNodeEntity -> bool) (m : NodeMap)
      (k : string) (data : list PbNodeEntity) (d : PbNodeEntity) :
  everyEntry P m = true -> In (k, data) m -> In d data -> P k d = true.
Proof.
  unfold everyEntry. rewrite forallb_forall. intros H Hin Hd.
  specialize (H _ Hin). simpl in H. rewrite forallb_forall in H.
  now apply H.
Qed.

(** X1. A crawl keeps the registry in order: the keys stay distinct, and
    every entry still sits under the qualified name of its node (leading
    separator stripped) and carries the tag of the class of its node, so
    that the casts [<pb.Enum>d.meta], [<pb.Type>d.meta] and
    [<pb.Service>d.meta] of the emitter are right. A message or a service,
    though an instance of [pb.Namespace], is never tagged a namespace. *)
Theorem crawlAST_keeps_registry_in_order
        (root : ReflectionObject) (nodeMap : NodeMap) (file : string) :
  NoDup (keys nodeMap) ->
  everyEntry inPlace nodeMap = true ->
  NoDup (keys (crawlAST root nodeMap file))
  /\ everyEntry inPlace (crawlAST root nodeMap file) = true
  /\ (forall key data d,
         In (key, data) (crawlAST root nodeMap file) -> In d data ->
         keyOf (meta d) = key
         /\ kindOf (meta d) = Some (type d)
         /\ (type d = namespace ->
             isMessage (meta d) = false /\ isService (meta d) = false)).
Proof.
  intros Hnd Hin.
  assert (Hkeys : NoDup (keys (crawlAST root nodeMap file))).
  { rewrite crawlAST_fold. revert nodeMap Hnd Hin.
    induction (visited root) as [|v l IH]; intros m Hnd Hin; simpl;
      [exact Hnd |].
    apply IH; [now apply NoDup_keys_register |].
    apply everyEntry_register; [| exact Hin].
    intros k Hk. unfold inPlace. simpl. rewrite String.eqb_refl, Hk.
    destruct k; reflexivity. }
  assert (Hall : everyEntry inPlace (crawlAST root nodeMap file) = true).
  { apply everyEntry_crawlAST; [| exact Hin].
    intros v k Hk. unfold inPlace. simpl. rewrite String.eqb_refl, Hk.
    destruct k; reflexivity. }
  split; [exact Hkeys |]. split; [exact Hall |].
  intros key data d Hk Hd.
  pose proof (everyEntry_In inPlace _ key data d Hall Hk Hd) as H.
  unfold inPlace in H. apply andb_prop in H. destruct H as [H1 H2].
  apply String.eqb_eq in H1.
  destruct (kindOf (meta d)) as [k|] eqn:Hkind; [| discriminate].
  assert (k = type d) by (destruct k, (type d); try discriminate; reflexivity).
  subst k. split; [exact H1 |]. split; [reflexivity |].
  intros Hns. rewrite Hns in Hkind.
  destruct (meta d); try discriminate. split; reflexivity.
Qed.

Lemma crawlAST_keeps_registry_in_order_witness :
  NoDup (keys Sample.registryQ)
  /\ everyEntry inPlace Sample.registryQ = true
  /\ NoDup (keys (crawlAST Sample.namespaceR Sample.registryQ "r.proto"))
  /\ everyEntry inPlace (crawlAST Sample.namespaceR Sample.registryQ "r.proto")
     = true.
Proof.
  assert (Hnd : NoDup (keys Sample.registryQ)).
  { vm_compute. repeat constructor; simpl; intuition discriminate. }
  assert (Hin : everyEntry inPlace Sample.registryQ = true)
    by (vm_compute; reflexivity).
  destruct (crawlAST_keeps_registry_in_order
              Sample.namespaceR Sample.registryQ "r.proto" Hnd Hin)
    as [H1 [H2 _]].
  split; [exact Hnd |]. split; [exact Hin |]. split; [exact H1 | exact H2].
Defined.

Lemma visited_leaf (v : ReflectionObject) : leaf v = true -> visited v = [v].
Proof.
  unfold leaf. intros H. rewrite visited_unfold.
  destruct (pushed v); [reflexivity | discriminate].
Qed.

Lemma flat_map_visited_leaves (l : list ReflectionObject) :
  forallb leaf l = true -> flat_map visited l = l.
Proof.
  induction l as [|v l IH]; simpl; [reflexivity |].
  intros H. apply andb_prop in H. destruct H as [Hv Hl].
  now rewrite (visited_leaf v Hv), IH.
Qed.

(** X2. Crawling a namespace whose children have nothing nested to crawl
    (enums, messages, services) and bear distinct qualified names, none of
    them registered yet, adds the key of the namespace and then the keys
    of its children in the reverse of their declaration order, behind the
    keys that were there. *)
Theorem crawlAST_inserts_siblings_in_reverse_order
        (n fn : string) (nested : list ReflectionObject)
        (nodeMap : NodeMap) (file : string) :
  forallb leaf nested = true ->
  NoDup (map keyOf (pbNamespace n fn nested :: nested)) ->
  (forall v, In v (pbNamespace n fn nested :: nested) ->
             has nodeMap (keyOf v) = false) ->
  keys (crawlAST (pbNamespace n fn nested) nodeMap file)
  = keys nodeMap
    ++ stripLeadingDot fn :: rev (map keyOf nested).
Proof.
  intros Hleaf Hnd Hfresh.
  assert (Hv : visited (pbNamespace n fn nested)
               = pbNamespace n fn nested :: rev nested).
  { rewrite visited_unfold. simpl pushed.
    rewrite flat_map_visited_leaves; [reflexivity |].
    rewrite forallb_forall in *. intros x Hx. apply Hleaf.
    now apply in_rev. }
  rewrite crawlAST_fold, Hv, keys_fold_register_fresh.
  - simpl. now rewrite map_rev.
  - simpl. simpl in Hnd. inversion Hnd as [|? ? Hnotin Hnd']; subst.
    constructor.
    + intros Hc. apply Hnotin. rewrite map_rev in Hc. now apply in_rev in Hc.
    + rewrite map_rev. apply NoDup_rev, Hnd'.
  - intros v [<-|Hin]; apply Hfresh; [left; reflexivity |].
    right. now apply in_rev.
Qed.

Lemma crawlAST_inserts_siblings_in_reverse_order_witness :
  forallb leaf [Sample.messageFoo; Sample.messageOuter] = true
  /\ keys (crawlAST Sample.namespaceQ [] "q.proto")
     = ["p"; "p.Outer"; "p.Foo"].
Proof.
  split; [reflexivity |].
  refine (crawlAST_inserts_siblings_in_reverse_order
            "p" ".p" [Sample.messageFoo; Sample.messageOuter] [] "q.proto"
            eq_refl _ _).
  - simpl. repeat constructor; simpl; intuition discriminate.
  - intros v _. reflexivity.
Defined.

(** The resolver returns when the package namespace of every file is
    found. *)
Lemma attachAll_returns
      (lookup : ReflectionObject -> string -> option ReflectionObject)
      (l : list IParserResult) (m : NodeMap) (s : store) :
  Forall (fun ast => packageNested lookup ast <> None) l ->
  throws (attachAll lookup l m s) = false.
Proof.
  intros H. revert s. induction H as [|ast l Hast _ IH]; intros s;
    [reflexivity |].
  simpl. unfold crawlAstAndAttachNamespace.
  destruct (packageNested lookup ast) as [[p nested]|]; [apply IH |].
  exfalso. now apply Hast.
Qed.

(* ================================================================== *)
(** ** The grouping by file and the emitter *)

(** The two steps of the grouping loop on one entry, under any key. *)
Lemma get_push_new (m : NodeMap) (k0 k : string) (d : PbNodeEntity) :
  get (push (if has m k0 then m else set m k0 []) k0 d) k
  = if String.eqb k0 k then Some (entries m k ++ [d]) else get m k.
Proof.
  rewrite get_push. unfold entries.
  destruct (has m k0) eqn:Hh.
  - rewrite has_get in Hh.
    destruct (String.eqb k0 k) eqn:E; [| reflexivity].
    apply String.eqb_eq in E. subst k.
    destruct (get m k0); [reflexivity | discriminate].
  - rewrite !get_set_absent by exact Hh. rewrite String.eqb_refl.
    rewrite has_get in Hh.
    destruct (String.eqb k0 k) eqn:E; [| reflexivity].
    apply String.eqb_eq in E. subst k.
    destruct (get m k0); [discriminate | reflexivity].
Qed.

Lemma filter_none (A : Type) (p : A -> bool) (l : list A) :
  existsb p l = false -> filter p l = [].
Proof.
  induction l as [|x l IH]; simpl; [reflexivity |].
  intros H. apply orb_false_elim in H. destruct H as [Hx Hl].
  rewrite Hx. now apply IH.
Qed.

Lemma get_group_fold (l : list PbNodeEntity) (fm : NodeMap) (f : string) :
  get (fold_left
         (fun fm datum =>
            push (if has fm (filename datum) then fm
                  else set fm (filename datum) [])
                 (filename datum) datum) l fm) f
  = if existsb (fun d => String.eqb (filename d) f) l
    then Some (entries fm f
                 ++ filter (fun d => String.eqb (filename d) f) l)
    else get fm f.
Proof.
  revert fm; induction l as [|d l IH]; intros fm; simpl; [reflexivity |].
  rewrite IH. unfold entries at 1. rewrite !get_push_new.
  destruct (String.eqb (filename d) f) eqn:E; simpl; [| reflexivity].
  destruct (existsb (fun d0 => String.eqb (filename d0) f) l) eqn:Hex.
  - rewrite <- app_assoc. reflexivity.
  - now rewrite (filter_none _ _ l Hex).
Qed.

Lemma get_groupByFilename (nodeMap : NodeMap) (f : string) :
  get (groupByFilename nodeMap) f
  = if mentions f nodeMap then Some (entriesOfFile f nodeMap) else None.
Proof.
  unfold groupByFilename, mentions, entriesOfFile, allEntries.
  rewrite (fold_left_flat_map _ _ _
             (fun fm datum =>
                push (if has fm (filename datum) then fm
                      else set fm (filename datum) [])
                     (filename datum) datum) snd).
  rewrite get_group_fold. reflexivity.
Qed.

Lemma NoDup_keys_push_new (m : NodeMap) (k : string) (d : PbNodeEntity) :
  NoDup (keys m) ->
  NoDup (keys (push (if has m k then m else set m k []) k d)).
Proof.
  intros Hnd. rewrite keys_push.
  destruct (has m k) eqn:Hh; [exact Hnd |].
  rewrite keys_set_absent by exact Hh.
  apply NoDup_app; [exact Hnd | repeat constructor; simpl; tauto |].
  intros x Hx [<-|[]]. apply has_In_keys in Hx. congruence.
Qed.

(** X3. The grouping by file is the projection of the registry on each
    file: it has one key for every file some entry was declared in and no
    other, and under the name of a file it holds the entries declared in
    that file, all of them, once each and in registry order. *)
Theorem groupByFilename_projects (nodeMap : NodeMap) :
  NoDup (keys (groupByFilename nodeMap))
  /\ (forall f, has (groupByFilename nodeMap) f = mentions f nodeMap)
  /\ (forall f,
         get (groupByFilename nodeMap) f
         = if mentions f nodeMap then Some (entriesOfFile f nodeMap)
           else None).
Proof.
  split; [| split].
  - unfold groupByFilename.
    rewrite (fold_left_flat_map _ _ _
               (fun fm datum =>
                  push (if has fm (filename datum) then fm
                        else set fm (filename datum) [])
                       (filename datum) datum) snd).
    generalize (flat_map snd nodeMap) as l. intros l.
    assert (H : forall fm, NoDup (keys fm) ->
                NoDup (keys (fold_left
                               (fun fm datum =>
                                  push (if has fm (filename datum) then fm
                                        else set fm (filename datum) [])
                                       (filename datum) datum) l fm))).
    { induction l as [|d l IH]; intros fm Hfm; simpl; [exact Hfm |].
      apply IH. now apply NoDup_keys_push_new. }
    apply H. constructor.
  - intros f. apply has_groupByFilename.
  - intros f. apply get_groupByFilename.
Qed.

Section EmitterProperties.

Variable typeMapping : string -> bool -> string.
Variable attachComment : string -> string -> option string -> string.
Variable printEnums : list EnumEntity -> string.
Variable printInternalInterfacesAndEnums : InterfaceEntity -> string.
Variable prettier : string -> option string.
Variable targetFilename : string -> string.
Variable EOL : string.

Abbreviation emitFile :=
  (writeFile typeMapping attachComment printEnums
             printInternalInterfacesAndEnums prettier targetFilename EOL).
Abbreviation emitFiles :=
  (writeFiles typeMapping attachComment printEnums
              printInternalInterfacesAndEnums prettier targetFilename EOL).
Abbreviation linesOf :=
  (strLines typeMapping attachComment printEnums
            printInternalInterfacesAndEnums).

Lemma emitFile_of_group (nodeMap : NodeMap) (s : store) (f : string) :
  emitFile (groupByFilename nodeMap) s f
  = emitFile [(f, entriesOfFile f nodeMap)] s f.
Proof.
  unfold writeFile. rewrite get_groupByFilename. cbn [get].
  rewrite String.eqb_refl.
  destruct (mentions f nodeMap) eqn:Hm; [reflexivity |].
  assert (He : entriesOfFile f nodeMap = [])
    by (apply filter_none; exact Hm).
  now rewrite He.
Qed.

(** The task of a file with a namespace entry gets as far as [prettier]. *)
Lemma emitFile_text (nodeMap : NodeMap) (s : store) (f : string)
      (ns : PbNodeEntity) (rest : list PbNodeEntity) :
  filter (hasKind namespace) (entriesOfFile f nodeMap) = ns :: rest ->
  emitFile (groupByFilename nodeMap) s f
  = match prettier (join EOL (linesOf ns (entriesOfFile f nodeMap) s)) with
    | Some text => Written (targetFilename f) text
    | None => WriteThrown
    end.
Proof.
  intros Hf. rewrite emitFile_of_group. unfold writeFile. cbn [get].
  rewrite String.eqb_refl, Hf. reflexivity.
Qed.

Lemma emitFile_NotWritten (nodeMap : NodeMap) (s : store) (f : string) :
  emitFile (groupByFilename nodeMap) s f = NotWritten
  <-> declaresNamespace nodeMap f = false.
Proof.
  unfold declaresNamespace.
  destruct (filter (hasKind namespace) (entriesOfFile f nodeMap))
    as [|d l] eqn:Hf.
  - split.
    + intros _.
      destruct (existsb (hasKind namespace) (entriesOfFile f nodeMap))
               eqn:Hex; [| reflexivity].
      apply existsb_exists in Hex. destruct Hex as [x [Hx Hk]].
      assert (Hin : In x (filter (hasKind namespace)
                                 (entriesOfFile f nodeMap)))
        by (apply filter_In; split; assumption).
      rewrite Hf in Hin. destruct Hin.
    + intros _. rewrite emitFile_of_group. unfold writeFile. cbn [get].
      rewrite String.eqb_refl, Hf. reflexivity.
  - rewrite (emitFile_text nodeMap s f d l Hf). split.
    + destruct (prettier _); discriminate.
    + intros Hex. rewrite (filter_none _ _ _ Hex) in Hf. discriminate.
Qed.

Lemma emitFile_Written (fm : NodeMap) (s : store) (f target text : string) :
  emitFile fm s f = Written target text -> target = targetFilename f.
Proof.
  unfold writeFile.
  destruct (get fm f) as [data|]; [| discriminate].
  destruct (filter (hasKind namespace) data); [discriminate |].
  destruct (prettier _); [| discriminate].
  intros H. now injection H.
Qed.

Lemma emitFiles_None (fm : NodeMap) (s : store)
      (fileList : list (string * ParseOutcome)) :
  emitFiles fm s fileList = None
  <-> exists file, In file fileList /\ emitFile fm s (fst file) = WriteThrown.
Proof.
  induction fileList as [|[f o] l IH]; simpl.
  - split; [discriminate | intros [file [[] _]]].
  - destruct (emitFile fm s f) eqn:He.
    + destruct (emitFiles fm s l).
      * split; [discriminate |].
        intros [file [[<-|Hin] Hw]]; [simpl in Hw; congruence |].
        assert (Hn : exists file', In file' l
                                   /\ emitFile fm s (fst file') = WriteThrown)
          by (exists file; split; assumption).
        apply IH in Hn. discriminate.
      * split; [| reflexivity]. intros _.
        destruct (proj1 IH eq_refl) as [file [Hin Hw]].
        exists file. split; [now right | exact Hw].
    + destruct (emitFiles fm s l).
      * split; [discriminate |].
        intros [file [[<-|Hin] Hw]]; [simpl in Hw; congruence |].
        assert (Hn : exists file', In file' l
                                   /\ emitFile fm s (fst file') = WriteThrown)
          by (exists file; split; assumption).
        apply IH in Hn. discriminate.
      * split; [| reflexivity]. intros _.
        destruct (proj1 IH eq_refl) as [file [Hin Hw]].
        exists file. split; [now right | exact Hw].
    + split; [| reflexivity]. intros _.
      exists (f, o). split; [now left | exact He].
Qed.

Lemma emitFiles_In (fm : NodeMap) (s : store)
      (fileList : list (string * ParseOutcome))
      (written : list (string * string)) (f target text : string) :
  emitFiles fm s fileList = Some written ->
  In f (map fst fileList) ->
  emitFile fm s f = Written target text ->
  In (target, text) written.
Proof.
  revert written; induction fileList as [|[f' o] l IH]; intros written;
    simpl; [intros _ [] |].
  intros Hw Hin He.
  destruct Hin as [->|Hin].
  - rewrite He in Hw. destruct (emitFiles fm s l); [| discriminate].
    injection Hw as <-. now left.
  - destruct (emitFile fm s f'), (emitFiles fm s l) as [w|];
      try discriminate; injection Hw as <-.
    + now apply IH.
    + right. now apply IH.
Qed.

Lemma emitFiles_targets (nodeMap : NodeMap) (s : store)
      (fileList : list (string * ParseOutcome))
      (written : list (string * string)) :
  emitFiles (groupByFilename nodeMap) s fileList = Some written ->
  map fst written
  = map targetFilename
        (filter (declaresNamespace nodeMap) (map fst fileList)).
Proof.
  revert written; induction fileList as [|[f o] l IH]; intros written; simpl.
  - intros H. now injection H as <-.
  - pose proof (emitFile_NotWritten nodeMap s f) as Hn.
    destruct (emitFile (groupByFilename nodeMap) s f) as [|t text|] eqn:He;
      [| | discriminate].
    + destruct Hn as [Hn _]. rewrite (Hn eq_refl).
      destruct (emitFiles (groupByFilename nodeMap) s l); [| discriminate].
      intros H. injection H as <-. now apply IH.
    + destruct (declaresNamespace nodeMap f) eqn:Hd.
      * destruct (emitFiles (groupByFilename nodeMap) s l); [| discriminate].
        intros H. injection H as <-. simpl.
        rewrite (emitFile_Written _ _ _ _ _ He). f_equal. now apply IH.
      * destruct Hn as [_ Hn]. now discriminate Hn.
Qed.

(** X4. The task of an input file writes nothing exactly when the registry
    holds no namespace entry declared in that file; otherwise it hands the
    text of the entries of that file alone to [prettier], and writes the
    declaration file if [prettier] returns and is rejected if it throws.
    The whole is rejected exactly when a task is, and otherwise the files
    are written in the order of the input files, one at most for each. *)
Theorem writeFiles_one_per_file_with_namespace
        (nodeMap : NodeMap) (s : store)
        (fileList : list (string * ParseOutcome)) :
  (forall f,
      emitFile (groupByFilename nodeMap) s f = NotWritten
      <-> declaresNamespace nodeMap f = false)
  /\ (forall f,
         emitFile (groupByFilename nodeMap) s f
         = emitFile [(f, entriesOfFile f nodeMap)] s f)
  /\ (forall f ns rest,
         filter (hasKind namespace) (entriesOfFile f nodeMap) = ns :: rest ->
         emitFile (groupByFilename nodeMap) s f
         = match prettier
                   (join EOL (linesOf ns (entriesOfFile f nodeMap) s)) with
           | Some text => Written (targetFilename f) text
           | None => WriteThrown
           end)
  /\ (emitFiles (groupByFilename nodeMap) s fileList = None
      <-> exists file,
          In file fileList
          /\ emitFile (groupByFilename nodeMap) s (fst file) = WriteThrown)
  /\ (forall written,
         emitFiles (groupByFilename nodeMap) s fileList = Some written ->
         map fst written
         = map targetFilename
               (filter (declaresNamespace nodeMap) (map fst fileList))).
Proof.
  split; [intros f; apply emitFile_NotWritten |].
  split; [intros f; apply emitFile_of_group |].
  split; [intros f ns rest; apply emitFile_text |].
  split; [apply emitFiles_None |].
  intros written; apply emitFiles_targets.
Qed.

End EmitterProperties.

(* ================================================================== *)
(** ** The loop over the files *)

Section LoadProperties.

Variable lookup : ReflectionObject -> string -> option ReflectionObject.
Variable EOL : string.

Lemma loadFile_lint (st : LoadState) (file : string * ParseOutcome) :
  loadFile lookup EOL true st file
  = Returned (logged st (parseErrorLines EOL true file)).
Proof.
  destruct st as [m a log], file as [f [e|ast]]; simpl; [reflexivity |].
  unfold logged, parseErrorLines. simpl. now rewrite app_nil_r.
Qed.

Lemma loadFiles_lint (l : list (string * ParseOutcome)) (st : LoadState) :
  loadFiles lookup EOL true l st
  = Returned (logged st (flat_map (parseErrorLines EOL true) l)).
Proof.
  revert st; induction l as [|file l IH]; intros st.
  - destruct st as [m a log]. unfold logged. simpl. now rewrite app_nil_r.
  - cbn [loadFiles]. rewrite loadFile_lint, IH.
    unfold logged. simpl. now rewrite <- app_assoc.
Qed.

(** Outside lint mode, a file that does not abort the run. *)
Lemma loadFile_loaded (st : LoadState) (file : string * ParseOutcome) :
  aborting lookup file = false ->
  loadFile lookup EOL false st file
  = Returned
      (mkState (crawlAll (loadedFiles lookup [file]) (st_nodeMap st))
               (st_astList st
                  ++ map (fun x => snd (fst x)) (loadedFiles lookup [file]))
               (st_log st ++ parseErrorLines EOL false file)).
Proof.
  destruct st as [m a log], file as [f [e|ast]];
    unfold aborting, loadedFiles, packageNode, parseErrorLines, crawlAll;
    simpl.
  - intros _. unfold logged. simpl. now rewrite app_nil_r.
  - destruct (package ast) as [[|c ns]|]; simpl; try discriminate.
    destruct (lookup (root ast) (String c ns)); simpl; [| discriminate].
    intros _. now rewrite app_nil_r.
Qed.

Lemma loadFile_aborting (st : LoadState) (file : string * ParseOutcome) :
  aborting lookup file = true ->
  throws (loadFile lookup EOL false st file) = true.
Proof.
  destruct file as [f [e|ast]]; unfold aborting, packageNode; simpl;
    [discriminate |].
  destruct (package ast) as [[|c ns]|]; simpl; try reflexivity.
  destruct (lookup (root ast) (String c ns)); [discriminate | reflexivity].
Qed.

Lemma loadedFiles_app (l1 l2 : list (string * ParseOutcome)) :
  loadedFiles lookup (l1 ++ l2) = loadedFiles lookup l1 ++ loadedFiles lookup l2.
Proof. unfold loadedFiles. apply flat_map_app. Qed.

Lemma loadFiles_returned (l : list (string * ParseOutcome))
      (st : LoadState) :
  existsb (aborting lookup) l = false ->
  loadFiles lookup EOL false l st
  = Returned
      (mkState (crawlAll (loadedFiles lookup l) (st_nodeMap st))
               (st_astList st
                  ++ map (fun x => snd (fst x)) (loadedFiles lookup l))
               (st_log st ++ flat_map (parseErrorLines EOL false) l)).
Proof.
  revert st; induction l as [|file l IH]; intros st Hl.
  - destruct st as [m a log]. simpl. now rewrite !app_nil_r.
  - simpl in Hl. apply orb_false_elim in Hl. destruct Hl as [Hf Hl].
    cbn [loadFiles]. rewrite (loadFile_loaded st file Hf), (IH _ Hl).
    cbn [st_nodeMap st_astList st_log].
    change (file :: l) with ([file] ++ l).
    rewrite loadedFiles_app, map_app, flat_map_app.
    unfold crawlAll. rewrite fold_left_app, <- !app_assoc.
    simpl flat_map at 2. now rewrite app_nil_r.
Qed.

Lemma loadFiles_throws (l : list (string * ParseOutcome)) (st : LoadState) :
  throws (loadFiles lookup EOL false l st) = existsb (aborting lookup) l.
Proof.
  revert st; induction l as [|file l IH]; intros st; [reflexivity |].
  cbn [loadFiles existsb].
  destruct (aborting lookup file) eqn:Hf.
  - pose proof (loadFile_aborting st file Hf) as Ht.
    destruct (loadFile lookup EOL false st file); [discriminate | reflexivity].
  - rewrite (loadFile_loaded st file Hf). apply IH.
Qed.

(** X5. Outside lint mode the loop over the files throws exactly when some
    file parses and either names no package or holds no namespace of that
    name; files that fail to parse never make it throw. When it does not
    throw, it returns with the registry that the crawls of the package
    namespaces of the parsed files build one after the other in file
    order, with the syntax trees of these files in the same order, and
    with two lines on the console for every file that failed to parse and
    nothing else. *)
Theorem loadFiles_outcome
        (l : list (string * ParseOutcome)) (st : LoadState) :
  throws (loadFiles lookup EOL false l st) = existsb (aborting lookup) l
  /\ (existsb (aborting lookup) l = false ->
      loadFiles lookup EOL false l st
      = Returned
          (mkState (crawlAll (loadedFiles lookup l) (st_nodeMap st))
                   (st_astList st
                      ++ map (fun x => snd (fst x)) (loadedFiles lookup l))
                   (st_log st ++ flat_map (parseErrorLines EOL false) l))).
Proof.
  split.
  - apply loadFiles_throws.
  - intros Hl. now apply loadFiles_returned.
Qed.

End LoadProperties.

(* ================================================================== *)
(** ** The whole run *)

Section RunProperties.

Variable lookup : ReflectionObject -> string -> option ReflectionObject.
Variable typeMapping : string -> bool -> string.
Variable attachComment : string -> string -> option string -> string.
Variable printEnums : list EnumEntity -> string.
Variable printInternalInterfacesAndEnums : InterfaceEntity -> string.
Variable prettier : string -> option string.
Variable targetFilename : string -> string.
Variable EOL : string.

Abbreviation runPb :=
  (loadPb lookup typeMapping attachComment printEnums
          printInternalInterfacesAndEnums prettier targetFilename EOL).
Abbreviation runWrites :=
  (writeFiles typeMapping attachComment printEnums
              printInternalInterfacesAndEnums prettier targetFilename EOL).
Abbreviation runWrite :=
  (writeFile typeMapping attachComment printEnums
             printInternalInterfacesAndEnums prettier targetFilename EOL).

Lemma writeFiles_empty_registry (s : store)
      (l : list (string * ParseOutcome)) :
  runWrites (groupByFilename []) s l = Some [].
Proof.
  induction l as [|[f o] l IH]; [reflexivity |].
  cbn [writeFiles]. rewrite IH. reflexivity.
Qed.

(** X6. In lint mode the run is never rejected, whatever the files hold: it
    is fulfilled with an empty registry, writes no file and rewrites no
    field type, and the console holds the four lines of each file that
    failed to parse, in file order. *)
Theorem lint_mode_only_reports (l : list (string * ParseOutcome))
        (s : store) :
  runPb true l s
  = Fulfilled [] [] s (flat_map (parseErrorLines EOL true) l).
Proof.
  unfold loadPb. rewrite loadFiles_lint. simpl.
  now rewrite writeFiles_empty_registry.
Qed.

Lemma loadedFiles_In (l : list (string * ParseOutcome)) (f : string)
      (ast : IParserResult) (node : ReflectionObject) :
  In (f, ast, node) (loadedFiles lookup l) ->
  In (f, Parsed ast) l /\ packageNode lookup ast = Some node.
Proof.
  unfold loadedFiles. intros H. apply in_flat_map in H.
  destruct H as [[f' [e|ast']] [Hin H]]; simpl in H; [destruct H |].
  destruct (packageNode lookup ast') as [node'|] eqn:Hp; [| destruct H].
  destruct H as [H|[]]. injection H as -> -> ->. split; assumption.
Qed.

Lemma packageNode_nested (ast : IParserResult) (node : ReflectionObject) :
  packageNode lookup ast = Some node ->
  nestedArray node <> None ->
  packageNested lookup ast <> None.
Proof.
  unfold packageNode, packageNested.
  destruct (package ast) as [ns|]; [| discriminate].
  destruct (truthy ns); [| discriminate].
  intros ->. destruct (nestedArray node); [discriminate |].
  intros H _. now apply H.
Qed.

(** Outside lint mode, a run in which no file aborts and the resolver finds
    its namespaces gets as far as the writing tasks. *)
Lemma loadPb_fulfilled (l : list (string * ParseOutcome)) (s : store) :
  (forall f ast node,
      In (f, ast, node) (loadedFiles lookup l) -> nestedArray node <> None) ->
  existsb (aborting lookup) l = false ->
  runPb false l s
  = match runWrites
            (groupByFilename (crawlAll (loadedFiles lookup l) []))
            (stateOf (attachAll lookup
                                (map (fun x => snd (fst x))
                                     (loadedFiles lookup l))
                                (crawlAll (loadedFiles lookup l) []) s))
            l with
    | Some written =>
        Fulfilled
          (crawlAll (loadedFiles lookup l) [])
          written
          (stateOf (attachAll lookup
                              (map (fun x => snd (fst x))
                                   (loadedFiles lookup l))
                              (crawlAll (loadedFiles lookup l) []) s))
          (flat_map (parseErrorLines EOL false) l)
    | None => Rejected (flat_map (parseErrorLines EOL false) l)
    end.
Proof.
  intros Hns Hab.
  assert (Hret : throws (attachAll lookup
                                   (map (fun x => snd (fst x))
                                        (loadedFiles lookup l))
                                   (crawlAll (loadedFiles lookup l) []) s)
                 = false).
  { apply (attachAll_returns lookup). apply Forall_forall.
    intros ast Hin. apply in_map_iff in Hin.
    destruct Hin as [[[f ast'] node] [<- Hin]]. simpl.
    destruct (loadedFiles_In l f ast' node Hin) as [_ Hp].
    exact (packageNode_nested ast' node Hp (Hns f ast' node Hin)). }
  unfold loadPb.
  rewrite (loadFiles_returned lookup EOL l (mkState [] [] []) Hab).
  cbn [st_nodeMap st_astList st_log app].
  destruct (attachAll lookup _ (crawlAll (loadedFiles lookup l) []) s);
    [reflexivity | discriminate].
Qed.

(** X7. Outside lint mode, when the package namespaces the parsed files
    hold have a [nestedArray], the run is rejected exactly when some file
    parses and either names no package or holds no namespace of that name,
    or [prettier] throws on the text of some file. Otherwise it is
    fulfilled with the registry crawled from the parsed files in order, the
    field types the resolver leaves over that registry, the files written
    from both, and the lines of the parse errors on the console. *)
Theorem loadPb_rejected_iff_abort_or_prettier_throws
        (l : list (string * ParseOutcome)) (s : store) :
  (forall f ast node,
      In (f, ast, node) (loadedFiles lookup l) -> nestedArray node <> None) ->
  let nodeMap := crawlAll (loadedFiles lookup l) [] in
  let s' :=
      stateOf (attachAll lookup
                         (map (fun x => snd (fst x)) (loadedFiles lookup l))
                         nodeMap s) in
  (rejected (runPb false l s) = true
   <-> existsb (aborting lookup) l = true
       \/ exists file,
           In file l
           /\ runWrite (groupByFilename nodeMap) s' (fst file) = WriteThrown)
  /\ (forall written,
         existsb (aborting lookup) l = false ->
         runWrites (groupByFilename nodeMap) s' l = Some written ->
         runPb false l s
         = Fulfilled nodeMap written s'
                     (flat_map (parseErrorLines EOL false) l)).
Proof.
  intros Hns nodeMap s'.
  destruct (existsb (aborting lookup) l) eqn:Hab.
  - split; [| discriminate].
    split; [intros _; now left | intros _]. unfold loadPb.
    pose proof (loadFiles_throws lookup EOL l (mkState [] [] [])) as Hthrows.
    rewrite Hab in Hthrows.
    destruct (loadFiles lookup EOL false l (mkState [] [] []));
      [discriminate | reflexivity].
  - rewrite (loadPb_fulfilled l s Hns Hab). fold nodeMap. fold s'.
    pose proof (emitFiles_None typeMapping attachComment printEnums
                  printInternalInterfacesAndEnums prettier targetFilename
                  EOL (groupByFilename nodeMap) s' l) as Hnone.
    destruct (runWrites (groupByFilename nodeMap) s' l) as [written|].
    + split.
      * split; [discriminate |].
        intros [Hc|Hc]; [discriminate |].
        apply Hnone in Hc. discriminate.
      * intros written' _ Hw. now injection Hw as <-.
    + split; [| discriminate].
      split; [intros _; right; now apply Hnone | reflexivity].
Qed.

End RunProperties.

Lemma loadPb_rejected_iff_abort_or_prettier_throws_witness :
  let l := [("q.proto", Parsed Sample.astQ);
            ("bad.proto", ParseError "illegal token")] in
  let run :=
      loadPb Sample.lookup Sample.typeMapping Sample.attachComment
             Sample.printEnums Sample.printInternal Sample.strictPrettier
             Sample.targetFilename nl false in
  (forall f ast node,
      In (f, ast, node) (loadedFiles Sample.lookup l) ->
      nestedArray node <> None)
  /\ existsb (aborting Sample.lookup) l = false
  /\ rejected (run l Sample.typesBar) = true
  /\ rejected (run l Sample.typesFoo) = false.
Proof.
  intros l run.
  assert (Hns : forall f ast node,
             In (f, ast, node) (loadedFiles Sample.lookup l) ->
             nestedArray node <> None).
  { intros f ast node [H|[]]; injection H as _ _ <-; discriminate. }
  split; [exact Hns |]. split; [reflexivity |]. split.
  - apply (proj1 (loadPb_rejected_iff_abort_or_prettier_throws
                    Sample.lookup Sample.typeMapping Sample.attachComment
                    Sample.printEnums Sample.printInternal
                    Sample.strictPrettier Sample.targetFilename nl l
                    Sample.typesBar Hns)).
    right. exists ("q.proto", Parsed Sample.astQ).
    split; [now left | vm_compute; reflexivity].
  - vm_compute. reflexivity.
Defined.

Lemma loadFiles_outcome_witness :
  let l := [("q.proto", Parsed Sample.astQ);
            ("bad.proto", ParseError "illegal token");
            ("r.proto", Parsed Sample.astR)] in
  existsb (aborting Sample.lookup) l = false
  /\ loadFiles Sample.lookup nl false l emptyState
     = Returned (mkState Sample.registryQR [Sample.astQ; Sample.astR]
                         ["filename: bad.proto"; "illegal token"]).
Proof.
  intros l. split; [reflexivity |].
  exact (proj2 (loadFiles_outcome Sample.lookup nl l emptyState) eq_refl).
Defined.

(** A crawl adds entries of the crawled file only. *)
Lemma filenames_crawlAll
      (loaded : list (string * IParserResult * ReflectionObject))
      (files : list string) (m : NodeMap) :
  (forall x, In x loaded -> In (fst (fst x)) files) ->
  everyEntry (fun _ d => existsb (String.eqb (filename d)) files) m = true ->
  everyEntry (fun _ d => existsb (String.eqb (filename d)) files)
             (crawlAll loaded m) = true.
Proof.
  unfold crawlAll. revert m.
  induction loaded as [|x loaded IH]; intros m Hl Hm; simpl; [exact Hm |].
  apply IH; [intros y Hy; apply Hl; right; exact Hy |].
  apply everyEntry_crawlAST; [| exact Hm].
  intros v k _. simpl. apply existsb_exists.
  exists (fst (fst x)). split; [apply Hl; left; reflexivity |].
  apply String.eqb_refl.
Qed.

Lemma allEntries_In (m : NodeMap) (d : PbNodeEntity) :
  In d (allEntries m) <-> exists k data, In (k, data) m /\ In d data.
Proof.
  unfold allEntries. rewrite in_flat_map. split.
  - intros [[k data] [H1 H2]]. exists k, data. split; assumption.
  - intros [k [data [H1 H2]]]. exists (k, data). split; assumption.
Qed.

(** X8. Outside lint mode, in a run that no file aborts, every entry the
    loop over the files leaves in the registry names as its declaring file
    an input file that parsed and whose package namespace was found. *)
Theorem registry_entries_name_loaded_files
        (lookup : ReflectionObject -> string -> option ReflectionObject)
        (EOL : string) (l : list (string * ParseOutcome))
        (d : PbNodeEntity) :
  existsb (aborting lookup) l = false ->
  In d (allEntries
          (st_nodeMap (stateOf (loadFiles lookup EOL false l emptyState)))) ->
  exists ast node,
    In (filename d, Parsed ast) l
    /\ packageNode lookup ast = Some node.
Proof.
  intros Hab Hd.
  rewrite (loadFiles_returned lookup EOL l emptyState Hab) in Hd.
  cbn [stateOf st_nodeMap emptyState] in Hd.
  apply allEntries_In in Hd. destruct Hd as [k [data [Hk Hd]]].
  pose proof (filenames_crawlAll (loadedFiles lookup l)
                (map (fun x => fst (fst x)) (loadedFiles lookup l)) []
                (fun x Hx => in_map (fun x => fst (fst x)) _ x Hx) eq_refl)
    as Hall.
  pose proof (everyEntry_In _ _ k data d Hall Hk Hd) as Hf. simpl in Hf.
  apply existsb_exists in Hf. destruct Hf as [f [Hin Heq]].
  apply String.eqb_eq in Heq. subst f.
  apply in_map_iff in Hin. destruct Hin as [[[f ast] node] [Hf Hin]].
  simpl in Hf. subst f. exists ast, node.
  exact (loadedFiles_In lookup l _ ast node Hin).
Qed.

Lemma registry_entries_name_loaded_files_witness :
  let l := [("q.proto", Parsed Sample.astQ);
            ("bad.proto", ParseError "illegal token")] in
  let d := mkEntity Sample.messageFoo message "q.proto" in
  existsb (aborting Sample.lookup) l = false
  /\ In d (allEntries
             (st_nodeMap (stateOf (loadFiles Sample.lookup nl false l
                                             emptyState))))
  /\ exists ast node,
      In (filename d, Parsed ast) l
      /\ packageNode Sample.lookup ast = Some node.
Proof.
  intros l d.
  assert (Hd : In d (allEntries
                       (st_nodeMap (stateOf (loadFiles Sample.lookup nl false
                                                       l emptyState))))).
  { vm_compute. right. right. left. reflexivity. }
  split; [reflexivity |]. split; [exact Hd |].
  exact (registry_entries_name_loaded_files Sample.lookup nl l d eq_refl Hd).
Defined.

(* ================================================================== *)
(** ** The resolver, further *)

Lemma resolveField_inert (p : string) (m : NodeMap) (s : store)
      (field : Field) :
  inert m (typeOf s field) -> resolveField p m s field = s.
Proof.
  intros Hi. unfold resolveField, candidates. cbn [fold_left].
  unfold tryCandidate at 2. rewrite Hi.
  unfold tryCandidate. now rewrite Hi.
Qed.

(** In a well-formed registry no enum or message bears a name with a
    separator. *)
Lemma dotted_inert (m : NodeMap) (t : string) :
  wellFormedRegistry m = true -> includes t "." = true -> inert m t.
Proof.
  intros Hwf Hdot ff.
  destruct (scan m ff t) as [d|] eqn:Hscan; [| reflexivity].
  exfalso. apply scan_Some in Hscan.
  destruct Hscan as [ns [node [Hin [_ [Hd Hs]]]]].
  rewrite survives_spec in Hs. apply andb_prop in Hs. destruct Hs as [Ht Hn].
  destruct (wellFormedRegistry_entry m ns node d Hwf Hin Hd Ht) as [_ Hnodot].
  apply String.eqb_eq in Hn. rewrite Hn in Hnodot. congruence.
Qed.

(** X9. Over a well-formed registry, a field whose type is written with a
    separator, a qualified reference such as [other.Foo], is never
    rewritten: neither its own visit nor a whole run of the resolver
    changes a slot that holds such a name. *)
Theorem qualified_types_never_rewritten (nodeMap : NodeMap) (t : string) :
  wellFormedRegistry nodeMap = true ->
  includes t "." = true ->
  (forall p s field,
      typeOf s field = t -> attachField p nodeMap s field = s)
  /\ (forall lookup astList s a,
         s a = t -> stateOf (attachAll lookup astList nodeMap s) a = t).
Proof.
  intros Hwf Hdot. pose proof (dotted_inert nodeMap t Hwf Hdot) as Hi.
  split.
  - intros p s field Ht. unfold attachField.
    destruct (negb (resolved field) && _ && _); [| reflexivity].
    apply resolveField_inert. now rewrite Ht.
  - intros lookup astList s a Ha.
    rewrite attachAll_visits, runVisits_cell, Ha.
    now apply slotSteps_inert.
Qed.

Lemma qualified_types_never_rewritten_witness :
  let s : store := fun _ => "other.Foo" in
  wellFormedRegistry Sample.registryQR = true
  /\ includes "other.Foo" "." = true
  /\ attachField "p" Sample.registryQR s Sample.fieldG = s
  /\ stateOf (attachAll Sample.lookup [Sample.astQ; Sample.astR]
                        Sample.registryQR s) 2 = "other.Foo".
Proof.
  intros s.
  assert (Hwf : wellFormedRegistry Sample.registryQR = true)
    by (vm_compute; reflexivity).
  assert (Hdot : includes "other.Foo" "." = true) by (vm_compute; reflexivity).
  destruct (qualified_types_never_rewritten
              Sample.registryQR "other.Foo" Hwf Hdot) as [H1 H2].
  split; [exact Hwf |]. split; [exact Hdot |]. split.
  - exact (H1 "p" s Sample.fieldG eq_refl).
  - exact (H2 Sample.lookup [Sample.astQ; Sample.astR] s 2 eq_refl).
Defined.

(** What a successful scan returns, in a well-formed registry. *)
Lemma scan_key (m : NodeMap) (ff t : string) (d : PbNodeEntity) :
  wellFormedRegistry m = true ->
  scan m ff t = Some d ->
  exists data,
    In (stripLeadingDot (fullName (meta d)), data) m /\ In d data
    /\ isTypeEntry d = true /\ name (meta d) = t
    /\ includes (stripLeadingDot (fullName (meta d))) ff = true.
Proof.
  intros Hwf Hscan. apply scan_Some in Hscan.
  destruct Hscan as [ns [node [Hin [Hinc [Hd Hs]]]]].
  rewrite survives_spec in Hs. apply andb_prop in Hs. destruct Hs as [Ht Hn].
  destruct (wellFormedRegistry_entry m ns node d Hwf Hin Hd Ht) as [Hk _].
  unfold keyOf in Hk. rewrite Hk. apply String.eqb_eq in Hn.
  exists node. repeat split; assumption.
Qed.

(** X10. Over a well-formed registry a resolution never invents a name: the
    type of the field after its resolution is the type it had, or it is a
    key of the registry under which an enum or a message of the field's
    bare type name is registered, and that key holds the bare name behind a
    separator. *)
Theorem resolveField_rewrites_to_a_registered_type
        (p : string) (nodeMap : NodeMap) (s : store) (field : Field) :
  wellFormedRegistry nodeMap = true ->
  let t := typeOf s field in
  let t' := typeOf (resolveField p nodeMap s field) field in
  t' = t
  \/ exists data d,
      In (t', data) nodeMap /\ In d data
      /\ isTypeEntry d = true /\ name (meta d) = t
      /\ (includes t' (p +++ "." +++ t) = true
          \/ includes t' (searchKey t) = true).
Proof.
  intros Hwf t t'.
  assert (Ht' : t' = resolveCell p nodeMap t).
  { unfold t', typeOf at 1, resolveField.
    now rewrite fold_tryCandidate_cell, Nat.eqb_refl. }
  rewrite Ht'. unfold resolveCell, candidates. cbn [fold_left].
  assert (Hkey1 : searchKey (p +++ "." +++ t) = p +++ "." +++ t)
    by (unfold searchKey; now rewrite includes_app_dot).
  destruct (scan nodeMap (searchKey (p +++ "." +++ t)) t) as [d1|] eqn:H1.
  - assert (E1 : tryCell nodeMap t (p +++ "." +++ t)
                 = stripLeadingDot (fullName (meta d1)))
      by (unfold tryCell; now rewrite H1).
    rewrite E1.
    rewrite tryCell_inert
      by exact (rewritten_inert nodeMap _ t d1 Hwf (searchKey_dot _) H1).
    right. destruct (scan_key nodeMap _ t d1 Hwf H1)
      as [data [Hin [Hd [Hty [Hn Hinc]]]]].
    exists data, d1. rewrite Hkey1 in Hinc. repeat split; auto.
  - assert (E1 : tryCell nodeMap t (p +++ "." +++ t) = t)
      by (unfold tryCell; now rewrite H1).
    rewrite E1. unfold tryCell.
    destruct (scan nodeMap (searchKey t) t) as [d2|] eqn:H2;
      [| left; reflexivity].
    right. destruct (scan_key nodeMap _ t d2 Hwf H2)
      as [data [Hin [Hd [Hty [Hn Hinc]]]]].
    exists data, d2. repeat split; auto.
Qed.

Lemma resolveField_rewrites_to_a_registered_type_witness :
  wellFormedRegistry Sample.registryQR = true
  /\ typeOf (resolveField "p" Sample.registryQR Sample.typesFoo Sample.fieldG)
            Sample.fieldG = "p.Foo"
  /\ ("p.Foo" = "Foo"
      \/ exists data d,
          In ("p.Foo", data) Sample.registryQR /\ In d data
          /\ isTypeEntry d = true /\ name (meta d) = "Foo"
          /\ (includes "p.Foo" ("p" +++ "." +++ "Foo") = true
              \/ includes "p.Foo" (searchKey "Foo") = true)).
Proof.
  assert (Hwf : wellFormedRegistry Sample.registryQR = true)
    by (vm_compute; reflexivity).
  split; [exact Hwf |]. split; [vm_compute; reflexivity |].
  exact (resolveField_rewrites_to_a_registered_type
           "p" Sample.registryQR Sample.typesFoo Sample.fieldG Hwf).
Defined.

Lemma slotSteps_elsewhere (m : NodeMap) (b : nat)
      (visits : list (string * Field)) (t : string) :
  ~ In b (map visitAddr visits) ->
  fold_left (slotStep m b) visits t = t.
Proof.
  intros Hb. apply slotSteps_fixed. apply Forall_forall. intros v Hv.
  unfold slotStep. destruct (Nat.eqb b (addr (snd v))) eqn:E; [| reflexivity].
  apply Nat.eqb_eq in E. exfalso. apply Hb. rewrite E.
  now apply (in_map visitAddr).
Qed.

(** With distinct field objects, a slot is stepped by its own visit only. *)
Lemma slotSteps_find (m : NodeMap) (b : nat)
      (visits : list (string * Field)) (t : string) :
  NoDup (map visitAddr visits) ->
  fold_left (slotStep m b) visits t
  = match find (fun v => Nat.eqb b (visitAddr v)) visits with
    | Some v => attachCell (fst v) m (snd v) t
    | None => t
    end.
Proof.
  revert t; induction visits as [|v visits IH]; intros t Hnd; simpl;
    [reflexivity |].
  inversion Hnd as [|? ? Hnotin Hnd']; subst.
  unfold visitAddr at 1.
  destruct (Nat.eqb b (addr (snd v))) eqn:E.
  - assert (Hs : slotStep m b t v = attachCell (fst v) m (snd v) t)
      by (unfold slotStep; now rewrite E).
    rewrite Hs. apply slotSteps_elsewhere.
    apply Nat.eqb_eq in E. now subst b.
  - assert (Hs : slotStep m b t v = t) by (unfold slotStep; now rewrite E).
    rewrite Hs. now apply IH.
Qed.

Lemma find_visit_Permutation (b : nat) (l l' : list (string * Field)) :
  Permutation l l' ->
  NoDup (map visitAddr l) ->
  find (fun v => Nat.eqb b (visitAddr v)) l
  = find (fun v => Nat.eqb b (visitAddr v)) l'.
Proof.
  induction 1 as [|x l l' Hp IH|x y l|l l' l'' Hp1 IH1 Hp2 IH2]; intros Hnd.
  - reflexivity.
  - simpl. inversion Hnd; subst. now rewrite IH.
  - simpl. destruct (Nat.eqb b (visitAddr x)) eqn:Ex,
             (Nat.eqb b (visitAddr y)) eqn:Ey; try reflexivity.
    apply Nat.eqb_eq in Ex, Ey. exfalso.
    simpl in Hnd. inversion Hnd as [|? ? Hnotin _]; subst.
    apply Hnotin. left. congruence.
  - rewrite IH1 by exact Hnd. apply IH2.
    eapply Permutation_NoDup; [| exact Hnd]. now apply Permutation_map.
Qed.

Section ResolverOrder.
Variable lookup : ReflectionObject -> string -> option ReflectionObject.

Lemma visitsOf_flat_map (l : list IParserResult) :
  Forall (fun ast => packageNested lookup ast <> None) l ->
  visitsOf lookup l
  = flat_map (fun ast => match packageNested lookup ast with
                         | Some (p, nested) => map (pair p) (topFields nested)
                         | None => []
                         end) l.
Proof.
  induction 1 as [|ast l Hast _ IH]; simpl; [reflexivity |].
  destruct (packageNested lookup ast) as [[p nested]|]; [| tauto].
  now rewrite IH.
Qed.

(** X11. Over a fixed registry the order of the files does not matter to
    the resolver: when the package namespace of every file is found and
    the field objects are distinct, a run over the files in any other
    order returns as well and leaves every field type the same. *)
Theorem resolver_independent_of_file_order
        (astList astList' : list IParserResult) (nodeMap : NodeMap)
        (s : store) :
  Permutation astList astList' ->
  Forall (fun ast => packageNested lookup ast <> None) astList ->
  NoDup (map visitAddr (visitsOf lookup astList)) ->
  throws (attachAll lookup astList nodeMap s) = false
  /\ throws (attachAll lookup astList' nodeMap s) = false
  /\ forall a,
      stateOf (attachAll lookup astList' nodeMap s) a
      = stateOf (attachAll lookup astList nodeMap s) a.
Proof.
  intros Hperm Hok Hnd.
  assert (Hok' : Forall (fun ast => packageNested lookup ast <> None)
                        astList')
    by (eapply Permutation_Forall; eassumption).
  split; [exact (attachAll_returns lookup astList nodeMap s Hok) |].
  split; [exact (attachAll_returns lookup astList' nodeMap s Hok') |].
  intros a. rewrite !attachAll_visits, !runVisits_cell.
  assert (Hpv : Permutation (visitsOf lookup astList)
                            (visitsOf lookup astList')).
  { rewrite !visitsOf_flat_map by assumption.
    now apply Permutation_flat_map. }
  rewrite !slotSteps_find.
  - now rewrite (find_visit_Permutation a _ _ Hpv Hnd).
  - exact Hnd.
  - eapply Permutation_NoDup; [| exact Hnd]. now apply Permutation_map.
Qed.

End ResolverOrder.

Lemma resolver_independent_of_file_order_witness :
  Permutation [Sample.astQ; Sample.astR] [Sample.astR; Sample.astQ]
  /\ Forall (fun ast => packageNested Sample.lookup ast <> None)
            [Sample.astQ; Sample.astR]
  /\ NoDup (map visitAddr (visitsOf Sample.lookup [Sample.astQ; Sample.astR]))
  /\ forall a,
      stateOf (attachAll Sample.lookup [Sample.astR; Sample.astQ]
                         Sample.registryQR Sample.typesFoo) a
      = stateOf (attachAll Sample.lookup [Sample.astQ; Sample.astR]
                           Sample.registryQR Sample.typesFoo) a.
Proof.
  assert (Hp : Permutation [Sample.astQ; Sample.astR]
                           [Sample.astR; Sample.astQ])
    by apply perm_swap.
  assert (Hok : Forall (fun ast => packageNested Sample.lookup ast <> None)
                       [Sample.astQ; Sample.astR])
    by (repeat constructor; discriminate).
  assert (Hnd : NoDup (map visitAddr
                           (visitsOf Sample.lookup
                                     [Sample.astQ; Sample.astR]))).
  { simpl. repeat constructor; simpl; intuition discriminate. }
  split; [exact Hp |]. split; [exact Hok |]. split; [exact Hnd |].
  exact (proj2 (proj2 (resolver_independent_of_file_order
                         Sample.lookup _ _ Sample.registryQR Sample.typesFoo
                         Hp Hok Hnd))).
Defined.

(* ================================================================== *)
(** ** The entity builder, further *)

Lemma getProperty_setProperty (A : Type) (o : object A) (k k' : string)
      (v : A) :
  getProperty (setProperty o k v) k'
  = if String.eqb k k' then Some v else getProperty o k'.
Proof.
  induction o as [|[k0 w] o IH]; simpl.
  - reflexivity.
  - destruct (String.eqb k0 k) eqn:E0; simpl.
    + apply String.eqb_eq in E0. subst k0.
      destruct (String.eqb k k'); reflexivity.
    + destruct (String.eqb k0 k') eqn:E1; [| exact IH].
      apply String.eqb_eq in E1. subst k0.
      now rewrite String.eqb_sym, E0.
Qed.

Lemma getProperty_None (A : Type) (o : object A) (k : string) :
  getProperty o k = None <-> ~ In k (map fst o).
Proof.
  induction o as [|[k0 w] o IH]; simpl; [tauto |].
  destruct (String.eqb k0 k) eqn:E.
  - apply String.eqb_eq in E. split; [discriminate | tauto].
  - apply String.eqb_neq in E. rewrite IH. tauto.
Qed.

Lemma setProperty_new (A : Type) (o : object A) (k : string) (v : A) :
  getProperty o k = None -> setProperty o k v = o ++ [(k, v)].
Proof.
  induction o as [|[k0 w] o IH]; simpl; [reflexivity |].
  destruct (String.eqb k0 k); [discriminate |].
  intros H. now rewrite IH.
Qed.

Lemma NoDup_setProperty (A : Type) (o : object A) (k : string) (v : A) :
  NoDup (map fst o) -> NoDup (map fst (setProperty o k v)).
Proof.
  induction o as [|[k0 w] o IH]; simpl; intros H.
  - repeat constructor. simpl. tauto.
  - inversion H as [|? ? Hnotin Hnd]; subst.
    destruct (String.eqb k0 k) eqn:E; simpl.
    + constructor; assumption.
    + constructor; [| now apply IH].
      intros Hin. apply Hnotin.
      apply String.eqb_neq in E.
      clear - Hin E. induction o as [|[k1 w1] o IH]; simpl in *.
      * destruct Hin as [Hin|[]]. congruence.
      * destruct (String.eqb k1 k); simpl in Hin; [exact Hin |].
        destruct Hin as [Hin|Hin]; [left; exact Hin | right; now apply IH].
Qed.

Lemma find_append (A : Type) (p : A -> bool) (l1 l2 : list A) :
  find p (l1 ++ l2)
  = match find p l1 with
    | Some x => Some x
    | None => find p l2
    end.
Proof.
  induction l1 as [|x l1 IH]; simpl; [reflexivity |].
  destruct (p x); [reflexivity | exact IH].
Qed.

Section Assignments.
Variables A B : Type.
Variable key : A -> string.
Variable val : A -> B.

(** The object after [o[key x] = val x] for every [x] of [l], in order. *)
Let assigned (l : list A) (o : object B) : object B :=
  fold_left (fun rtn x => setProperty rtn (key x) (val x)) l o.

Lemma assigned_distinct (l : list A) (o : object B) :
  NoDup (map key l) ->
  (forall x, In x l -> getProperty o (key x) = None) ->
  assigned l o = o ++ map (fun x => (key x, val x)) l.
Proof.
  revert o; induction l as [|x l IH]; intros o Hnd Hnew; simpl.
  - now rewrite app_nil_r.
  - inversion Hnd as [|? ? Hnotin Hnd']; subst.
    rewrite (setProperty_new B o (key x) (val x))
      by (apply Hnew; left; reflexivity).
    rewrite IH; [now rewrite <- app_assoc | exact Hnd' |].
    intros y Hy. apply getProperty_None. rewrite map_app. simpl.
    intros Hin. apply in_app_or in Hin. destruct Hin as [Hin|[Hin|[]]].
    + apply getProperty_None in Hin; [exact Hin |].
      apply Hnew. right. exact Hy.
    + apply Hnotin. rewrite Hin. now apply in_map.
Qed.

Lemma assigned_get (l : list A) (o : object B) (k : string) :
  getProperty (assigned l o) k
  = match lastNamed key k l with
    | Some x => Some (val x)
    | None => getProperty o k
    end.
Proof.
  unfold lastNamed. revert o; induction l as [|x l IH]; intros o; simpl;
    [reflexivity |].
  rewrite IH, find_append. simpl.
  destruct (find (fun y => String.eqb (key y) k) (rev l)); [reflexivity |].
  rewrite getProperty_setProperty.
  destruct (String.eqb (key x) k); reflexivity.
Qed.

Lemma assigned_NoDup (l : list A) (o : object B) :
  NoDup (map fst o) -> NoDup (map fst (assigned l o)).
Proof.
  revert o; induction l as [|x l IH]; intros o H; simpl; [exact H |].
  apply IH. now apply NoDup_setProperty.
Qed.

End Assignments.

(** X12. The enum entity bears the name of the enum and, the member names
    being distinct as the keys of an object are, holds the members in
    declaration order, each with its declared integer value and an empty
    comment. *)
Theorem convertToEnumEntity_keeps_members (node : Enum) :
  NoDup (map fst (values node)) ->
  ee_name (convertToEnumEntity node) = e_name node
  /\ ee_properties (convertToEnumEntity node)
     = map (fun kv => (fst kv, mkMember (snd kv) "")) (values node)
  /\ forall k v,
      In (k, v) (values node) ->
      getProperty (ee_properties (convertToEnumEntity node)) k
      = Some (mkMember v "").
Proof.
  intros Hnd.
  assert (Hp : ee_properties (convertToEnumEntity node)
               = map (fun kv => (fst kv, mkMember (snd kv) ""))
                     (values node)).
  { unfold convertToEnumEntity. simpl.
    exact (assigned_distinct _ _ fst (fun kv => mkMember (snd kv) "")
                             (values node) [] Hnd (fun _ _ => eq_refl)). }
  split; [reflexivity |]. split; [exact Hp |].
  intros k v Hin. rewrite Hp. clear Hp.
  induction (values node) as [|[k0 v0] l IH]; [destruct Hin |].
  simpl in Hnd. inversion Hnd as [|? ? Hnotin Hnd']; subst.
  simpl. destruct Hin as [Hin|Hin].
  - injection Hin as -> ->. now rewrite String.eqb_refl.
  - destruct (String.eqb k0 k) eqn:E; [| now apply IH].
    apply String.eqb_eq in E. subst k0. exfalso. apply Hnotin.
    change k with (fst (k, v)). now apply in_map.
Qed.

Lemma convertToEnumEntity_keeps_members_witness :
  let node := mkEnum "Color" ".p.Color" [("RED", 0%Z); ("BLUE", 2%Z)] in
  NoDup (map fst (values node))
  /\ ee_properties (convertToEnumEntity node)
     = [("RED", mkMember 0 ""); ("BLUE", mkMember 2 "")].
Proof.
  intros node.
  assert (Hnd : NoDup (map fst (values node))).
  { simpl. repeat constructor; simpl; intuition discriminate. }
  split; [exact Hnd |].
  exact (proj1 (proj2 (convertToEnumEntity_keeps_members node Hnd))).
Defined.

(** X13. The service entity holds one function for every method name, the
    names distinct and none invented: under the name of a method it holds
    the conversion of the last method of that name, and nothing under a
    name no method bears. When the method names are distinct, the
    functions stand in the declaration order of the methods. *)
Theorem convertServiceToServiceEntity_one_function_per_name
        (data : Service) :
  se_name (convertServiceToServiceEntity data) = s_name data
  /\ NoDup (map fst (interfaces (convertServiceToServiceEntity data)))
  /\ (forall k,
         getProperty (interfaces (convertServiceToServiceEntity data)) k
         = option_map convertMethodToFunctionEntity
                      (lastNamed m_name k (methodsArray data)))
  /\ (NoDup (map m_name (methodsArray data)) ->
      interfaces (convertServiceToServiceEntity data)
      = map (fun acc => (m_name acc, convertMethodToFunctionEntity acc))
            (methodsArray data)).
Proof.
  unfold convertServiceToServiceEntity. simpl.
  split; [reflexivity |]. split; [| split].
  - apply (assigned_NoDup _ _ m_name convertMethodToFunctionEntity).
    constructor.
  - intros k.
    rewrite (assigned_get _ _ m_name convertMethodToFunctionEntity).
    destruct (lastNamed m_name k (methodsArray data)); reflexivity.
  - intros Hnd.
    exact (assigned_distinct _ _ m_name convertMethodToFunctionEntity
                             (methodsArray data) [] Hnd (fun _ _ => eq_refl)).
Qed.

Lemma convertServiceToServiceEntity_one_function_per_name_witness :
  let get1 := mkMethod "get" "Req" "Res" None in
  let put := mkMethod "put" "" "Ack" None in
  let get2 := mkMethod "get" "Req2" "Res2" None in
  let distinct := mkService "S" ".p.S" [get1; put] in
  let twice := mkService "S" ".p.S" [get1; put; get2] in
  NoDup (map m_name (methodsArray distinct))
  /\ interfaces (convertServiceToServiceEntity distinct)
     = [("get", convertMethodToFunctionEntity get1);
        ("put", convertMethodToFunctionEntity put)]
  /\ getProperty (interfaces (convertServiceToServiceEntity twice)) "get"
     = Some (convertMethodToFunctionEntity get2).
Proof.
  intros get1 put get2 distinct twice.
  assert (Hnd : NoDup (map m_name (methodsArray distinct))).
  { simpl. repeat constructor; simpl; intuition discriminate. }
  destruct (convertServiceToServiceEntity_one_function_per_name distinct)
    as [_ [_ [_ Hd]]].
  destruct (convertServiceToServiceEntity_one_function_per_name twice)
    as [_ [_ [Hg _]]].
  split; [exact Hnd |]. split; [exact (Hd Hnd) | exact (Hg "get")].
Defined.

Section MessageEntities.
Variable typeMapping : string -> bool -> string.

Abbreviation toInterface := (convertMessageToInterfaceEntity typeMapping).
Abbreviation toProperty := (convertFieldToInterfacePropertyEntity typeMapping).

(** The conversion of a message, its inner loops written with [map] and
    [filter]. *)
Lemma convertMessage_unfold (s : store) (n fn : string)
      (nested : list ReflectionObject) (fieldsArray : list Field) :
  toInterface s (pbType n fn nested fieldsArray)
  = mkInterface n
      (fold_left (fun props d => setProperty props (f_name d) (toProperty s d))
                 fieldsArray [])
      (map (toInterface s) (filter isMessage nested))
      (map convertToEnumEntity (nestedEnums nested)).
Proof.
  cbn [convertMessageToInterfaceEntity]. f_equal.
  - induction nested as [|d nested IH]; [reflexivity |].
    destruct d; cbn [isEnum isMessage filter map]; rewrite <- ?IH;
      reflexivity.
  - unfold nestedEnums.
    induction nested as [|d nested IH]; [reflexivity |].
    cbn [flat_map]. rewrite IH. destruct d; reflexivity.
Qed.

(** X14. The interface entity of a message bears its name; its nested
    interfaces are the conversions of the nested messages and its nested
    enums those of the nested enums, each in declaration order, whatever
    else is nested being passed over; under the name of a field it holds
    the conversion of the last field of that name; and with distinct field
    names its properties stand in the declaration order of the fields,
    not in the order of their numbers. *)
Theorem convertMessageToInterfaceEntity_keeps_declaration_order
        (s : store) (n fn : string) (nested : list ReflectionObject)
        (fieldsArray : list Field) :
  let entity := toInterface s (pbType n fn nested fieldsArray) in
  interfaceName entity = n
  /\ childrenInterfacesOf entity
     = map (toInterface s) (filter isMessage nested)
  /\ childrenEnumsOf entity = map convertToEnumEntity (nestedEnums nested)
  /\ (forall k,
         getProperty (propertiesOf entity) k
         = option_map (toProperty s) (lastNamed f_name k fieldsArray))
  /\ (NoDup (map f_name fieldsArray) ->
      propertiesOf entity
      = map (fun d => (f_name d, toProperty s d)) fieldsArray).
Proof.
  intros entity. unfold entity. rewrite convertMessage_unfold.
  cbn [interfaceName childrenInterfacesOf childrenEnumsOf propertiesOf].
  split; [reflexivity |]. split; [reflexivity |]. split; [reflexivity |].
  split.
  - intros k. rewrite (assigned_get _ _ f_name (toProperty s)).
    destruct (lastNamed f_name k fieldsArray); reflexivity.
  - intros Hnd.
    exact (assigned_distinct _ _ f_name (toProperty s) fieldsArray []
                             Hnd (fun _ _ => eq_refl)).
Qed.

Lemma allFields_message (n fn : string) (nested : list ReflectionObject)
      (fieldsArray : list Field) :
  allFields (pbType n fn nested fieldsArray)
  = fieldsArray ++ flat_map allFields nested.
Proof.
  reflexivity.
Qed.

Lemma fold_left_ext_in (A B : Type) (g h : A -> B -> A) (l : list B) (a : A) :
  (forall a x, In x l -> g a x = h a x) ->
  fold_left g l a = fold_left h l a.
Proof.
  revert a; induction l as [|x l IH]; intros a H; simpl; [reflexivity |].
  rewrite (H a x (or_introl eq_refl)). apply IH.
  intros a' y Hy. apply H. right. exact Hy.
Qed.

(** X15. The interface entity of a message reads the store at the fields
    declared in the message, nested messages included, and nowhere else:
    two stores that agree on the type of these fields give the same
    entity. *)
Theorem convertMessageToInterfaceEntity_reads_own_fields
        (node : ReflectionObject) (s s' : store) :
  (forall d, In d (allFields node) -> typeOf s d = typeOf s' d) ->
  toInterface s node = toInterface s' node.
Proof.
  induction node as [e|n fn nested fields IH|sv|n fn nested _|n fn]
    using ReflectionObject_nested_ind; intros Hagree; try reflexivity.
  rewrite !convertMessage_unfold. rewrite allFields_message in Hagree.
  f_equal.
  - apply fold_left_ext_in. intros props d Hd.
    unfold convertFieldToInterfacePropertyEntity.
    now rewrite (Hagree d (in_or_app _ _ d (or_introl Hd))).
  - apply map_ext_in. intros d Hd. apply filter_In in Hd.
    destruct Hd as [Hd _]. rewrite Forall_forall in IH.
    apply (IH d Hd). intros f Hf. apply Hagree.
    apply in_or_app. right. apply in_flat_map. exists d. split; assumption.
Qed.

Variable lookup : ReflectionObject -> string -> option ReflectionObject.

(** X16. The resolver and the entity builder together: after the resolver
    has run on a file, the interface entity of a message that is a direct
    child of the package namespace holds, for every field and in
    declaration order, the property built from the type the visit of that
    field leaves, the field objects of the file and the field names of the
    message being distinct. *)
Theorem resolved_types_reach_the_interface_entity
        (ast : IParserResult) (nodeMap : NodeMap) (s : store) (p : string)
        (nested nested' : list ReflectionObject) (n fn : string)
        (fieldsArray : list Field) :
  packageNested lookup ast = Some (p, nested) ->
  In (pbType n fn nested' fieldsArray) nested ->
  NoDup (map addr (topFields nested)) ->
  NoDup (map f_name fieldsArray) ->
  exists s',
    crawlAstAndAttachNamespace lookup ast nodeMap s = Returned s'
    /\ propertiesOf (toInterface s' (pbType n fn nested' fieldsArray))
       = map (fun d => (f_name d, toProperty (attachField p nodeMap s d) d))
             fieldsArray.
Proof.
  intros Hpkg Hin Hnd Hnames.
  unfold crawlAstAndAttachNamespace. rewrite Hpkg.
  eexists. split; [reflexivity |].
  rewrite convertMessage_unfold. cbn [propertiesOf].
  rewrite (assigned_distinct _ _ f_name
             (toProperty (attachNested p nodeMap nested s)) fieldsArray []
             Hnames (fun _ _ => eq_refl)).
  apply map_ext_in. intros d Hd.
  assert (Htop : In d (topFields nested)).
  { unfold topFields. apply in_flat_map.
    exists (pbType n fn nested' fieldsArray). split; assumption. }
  assert (Ht : typeOf (attachNested p nodeMap nested s) d
               = typeOf (attachField p nodeMap s d) d).
  { unfold typeOf.
    rewrite attachNested_visits, runVisits_cell, attachField_cell,
      Nat.eqb_refl.
    now apply slot_visited_once. }
  unfold convertFieldToInterfacePropertyEntity. now rewrite Ht.
Qed.

End MessageEntities.

Lemma convertMessageToInterfaceEntity_keeps_declaration_order_witness :
  let late := mkField "late" 9 1 false true false false None None in
  let early := mkField "early" 1 2 true false false false None None in
  NoDup (map f_name [late; early])
  /\ propertiesOf (convertMessageToInterfaceEntity
                     Sample.typeMapping Sample.typesFoo
                     (pbType "M" ".p.M" [] [late; early]))
     = [("late", mkProperty "" "" 9 "Foo" true false);
        ("early", mkProperty "" "" 1 "Foo[]" false false)].
Proof.
  intros late early.
  assert (Hnd : NoDup (map f_name [late; early])).
  { simpl. repeat constructor; simpl; intuition discriminate. }
  split; [exact Hnd |].
  exact (proj2 (proj2 (proj2 (proj2
           (convertMessageToInterfaceEntity_keeps_declaration_order
              Sample.typeMapping Sample.typesFoo "M" ".p.M" []
              [late; early])))) Hnd).
Defined.

Lemma convertMessageToInterfaceEntity_reads_own_fields_witness :
  let s' : store := fun a => if Nat.eqb a 1 then "Foo" else "Bar" in
  (forall d, In d (allFields Sample.messageInner) ->
             typeOf Sample.typesFoo d = typeOf s' d)
  /\ convertMessageToInterfaceEntity Sample.typeMapping Sample.typesFoo
                                     Sample.messageInner
     = convertMessageToInterfaceEntity Sample.typeMapping s'
                                       Sample.messageInner.
Proof.
  intros s'.
  assert (H : forall d, In d (allFields Sample.messageInner) ->
                        typeOf Sample.typesFoo d = typeOf s' d).
  { intros d [<-|[]]. reflexivity. }
  split; [exact H |].
  exact (convertMessageToInterfaceEntity_reads_own_fields
           Sample.typeMapping Sample.messageInner Sample.typesFoo s' H).
Defined.

Lemma resolved_types_reach_the_interface_entity_witness :
  packageNested Sample.lookup Sample.astQ
  = Some ("p", [Sample.messageFoo; Sample.messageOuter])
  /\ In Sample.messageOuter [Sample.messageFoo; Sample.messageOuter]
  /\ NoDup (map addr (topFields [Sample.messageFoo; Sample.messageOuter]))
  /\ NoDup (map f_name [Sample.fieldG])
  /\ exists s',
      crawlAstAndAttachNamespace Sample.lookup Sample.astQ Sample.registryQ
                                 Sample.typesFoo = Returned s'
      /\ propertiesOf (convertMessageToInterfaceEntity
                         Sample.typeMapping s' Sample.messageOuter)
         = [("g", mkProperty "" "" 2 "p.Foo" true false)].
Proof.
  assert (Hpkg : packageNested Sample.lookup Sample.astQ
                 = Some ("p", [Sample.messageFoo; Sample.messageOuter]))
    by reflexivity.
  assert (Hin : In Sample.messageOuter
                   [Sample.messageFoo; Sample.messageOuter])
    by (right; left; reflexivity).
  assert (Hnd : NoDup (map addr (topFields [Sample.messageFoo;
                                            Sample.messageOuter]))).
  { simpl. repeat constructor. simpl. tauto. }
  assert (Hnames : NoDup (map f_name [Sample.fieldG])).
  { simpl. repeat constructor. simpl. tauto. }
  split; [exact Hpkg |]. split; [exact Hin |]. split; [exact Hnd |].
  split; [exact Hnames |].
  destruct (resolved_types_reach_the_interface_entity
              Sample.typeMapping Sample.lookup Sample.astQ Sample.registryQ
              Sample.typesFoo "p" _ _ "Outer" ".p.Outer" [Sample.fieldG]
              Hpkg Hin Hnd Hnames) as [s' [Hs Hp]].
  exists s'. split; [exact Hs |]. unfold Sample.messageOuter. rewrite Hp.
  vm_compute. reflexivity.
Defined.

(* ================================================================== *)
(** ** The service printer, further *)

Lemma lastIndexed_cons (j : nat) (x : InputParam) (l : list InputParam) :
  lastIndexed j (x :: l)
  = match lastIndexed j l with
    | Some y => Some y
    | None => if Nat.eqb (index x) j then Some x else None
    end.
Proof. unfold lastIndexed. simpl. now rewrite find_append. Qed.

Lemma lastIndexed_Some (j : nat) (l : list InputParam) (d : InputParam) :
  lastIndexed j l = Some d -> In d l /\ index d = j.
Proof.
  unfold lastIndexed. intros H. apply find_some in H.
  destruct H as [Hin He]. apply in_rev in Hin. apply Nat.eqb_eq in He.
  split; assumption.
Qed.

(** The filled slots after the [forEach]: a slot holds the last parameter
    of its index, or what it held when no parameter has that index. *)
Lemma filled_last (l : list InputParam) (arr : list (option InputParam))
      (j : nat) (d : InputParam) :
  nth_error (filled l arr) j = Some (Some d)
  <-> lastIndexed j l = Some d
      \/ (lastIndexed j l = None /\ nth_error arr j = Some (Some d)).
Proof.
  revert arr; induction l as [|x l IH]; intros arr.
  - simpl. unfold lastIndexed. simpl. split; [tauto |].
    intros [H|[_ H]]; [discriminate | exact H].
  - change (filled (x :: l) arr) with (filled l (arraySet arr (index x) x)).
    rewrite IH, lastIndexed_cons.
    destruct (lastIndexed j l) as [y|].
    + split; intros [H|[H _]]; try discriminate; left; exact H.
    + destruct (Nat.eqb (index x) j) eqn:E.
      * apply Nat.eqb_eq in E. subst j. rewrite nth_arraySet_same.
        split.
        -- intros [H|[_ H]]; [discriminate |]. left. congruence.
        -- intros [H|[H _]]; [| discriminate]. right.
           split; [reflexivity | congruence].
      * apply Nat.eqb_neq in E.
        rewrite (nth_arraySet_other _ arr (index x) j x d E).
        split; intros [H|H]; try discriminate; right; exact H.
Qed.

Lemma In_sortedParams (i : FunctionEntity) (d : InputParam) :
  In d (sortedParams i) <-> lastIndexed (index d) (inputParams i) = Some d.
Proof.
  unfold sortedParams. fold (filled (inputParams i) []).
  rewrite In_compact. split.
  - intros [j Hj]. apply filled_last in Hj.
    destruct Hj as [Hj|[_ Hj]]; [| destruct j; discriminate].
    destruct (lastIndexed_Some _ _ _ Hj) as [_ <-]. exact Hj.
  - intros H. exists (index d). apply filled_last. left. exact H.
Qed.

Lemma sorted_NoDup (l : list InputParam) :
  StronglySorted (fun a b => (index a < index b)%nat) l -> NoDup l.
Proof.
  induction 1 as [|x l _ IH Hall]; constructor; [| exact IH].
  intros Hin. rewrite Forall_forall in Hall. specialize (Hall x Hin). lia.
Qed.

Lemma NoDup_map_eq (A B : Type) (g : A -> B) (l : list A) (x y : A) :
  NoDup (map g l) -> In x l -> In y l -> g x = g y -> x = y.
Proof.
  induction l as [|z l IH]; simpl; intros Hnd Hx Hy Heq; [destruct Hx |].
  inversion Hnd as [|? ? Hnotin Hnd']; subst.
  destruct Hx as [->|Hx], Hy as [->|Hy]; auto.
  - exfalso. apply Hnotin. rewrite Heq. now apply in_map.
  - exfalso. apply Hnotin. rewrite <- Heq. now apply in_map.
Qed.

(** X17. The parameters a method is printed with are, for every index some
    input parameter has, the last input parameter of that index: an earlier
    parameter of the same index is dropped without notice. When the
    indices are distinct nothing is dropped, the parameters printed being
    the input parameters in another order. *)
Theorem sortedParams_last_of_each_index (i : FunctionEntity) :
  (forall d,
      In d (sortedParams i)
      <-> lastIndexed (index d) (inputParams i) = Some d)
  /\ length (sortedParams i) <= length (inputParams i)
  /\ (NoDup (map index (inputParams i)) ->
      Permutation (sortedParams i) (inputParams i)).
Proof.
  assert (Hsorted : NoDup (sortedParams i)).
  { apply sorted_NoDup. unfold sortedParams.
    refine (proj1 (compact_sorted 0 _ _)).
    apply filled_wellIndexed. intros [|j] d H; discriminate. }
  assert (Hincl : incl (sortedParams i) (inputParams i)).
  { intros d Hd. apply In_sortedParams in Hd.
    exact (proj1 (lastIndexed_Some _ _ _ Hd)). }
  split; [apply In_sortedParams |]. split.
  - now apply NoDup_incl_length.
  - intros Hnd. apply NoDup_Permutation.
    + exact Hsorted.
    + eapply NoDup_map_inv. exact Hnd.
    + intros d. split; [apply Hincl |].
      intros Hin. apply In_sortedParams.
      destruct (lastIndexed (index d) (inputParams i)) as [y|] eqn:Hl.
      * destruct (lastIndexed_Some _ _ _ Hl) as [Hy Hi].
        f_equal. exact (NoDup_map_eq _ _ index _ y d Hnd Hy Hin Hi).
      * exfalso. unfold lastIndexed in Hl.
        apply in_rev in Hin.
        pose proof (find_none _ _ Hl d Hin) as Hc. simpl in Hc.
        rewrite Nat.eqb_refl in Hc. discriminate.
Qed.

Lemma sortedParams_last_of_each_index_witness :
  let a := mkParam "A" 1 "a" in
  let c := mkParam "C" 3 "c" in
  let b := mkParam "B" 2 "b" in
  let i := mkFunction "" [c; a; b] "R" in
  NoDup (map index (inputParams i))
  /\ sortedParams i = [a; b; c]
  /\ Permutation (sortedParams i) (inputParams i).
Proof.
  intros a c b i.
  assert (Hnd : NoDup (map index (inputParams i))).
  { simpl. repeat constructor; simpl; intuition discriminate. }
  split; [exact Hnd |]. split; [reflexivity |].
  exact (proj2 (proj2 (sortedParams_last_of_each_index i)) Hnd).
Defined.

(* ================================================================== *)
(** ** The printers, further *)

Lemma append_empty_r (s : string) : s +++ "" = s.
Proof. induction s as [|c s IH]; simpl; [reflexivity | now rewrite IH]. Qed.

Lemma join_empty_cons (x : string) (l : list string) :
  join "" (x :: l) = x +++ join "" l.
Proof.
  destruct l as [|y l]; [simpl; now rewrite append_empty_r | reflexivity].
Qed.

Lemma join_empty_app (l1 l2 : list string) :
  join "" (l1 ++ l2) = join "" l1 +++ join "" l2.
Proof.
  induction l1 as [|x l1 IH]; [reflexivity |].
  change ((x :: l1) ++ l2) with (x :: (l1 ++ l2)).
  now rewrite !join_empty_cons, IH, append_assoc.
Qed.

Lemma fold_append (A : Type) (g : A -> string) (l : list A) (acc : string) :
  fold_left (fun rtn cur => rtn +++ g cur) l acc
  = acc +++ fold_left (fun rtn cur => rtn +++ g cur) l "".
Proof.
  revert acc; induction l as [|x l IH]; intros acc; simpl.
  - now rewrite append_empty_r.
  - rewrite (IH (acc +++ g x)), (IH (g x)). now rewrite append_assoc.
Qed.

(** X18. The text printed for several interfaces, and for several
    services, is the text of each one after the other, in order, with
    nothing between; for none, nothing is printed. *)
Theorem printers_concatenate
        (attachComment : string -> string -> option string -> string)
        (printInternalInterfacesAndEnums : InterfaceEntity -> string) :
  printServices attachComment [] = ""
  /\ printInterfaces attachComment printInternalInterfacesAndEnums [] = ""
  /\ (forall a b,
         printServices attachComment (a ++ b)
         = printServices attachComment a +++ printServices attachComment b)
  /\ (forall a b,
         printInterfaces attachComment printInternalInterfacesAndEnums
                         (a ++ b)
         = printInterfaces attachComment printInternalInterfacesAndEnums a
             +++ printInterfaces attachComment
                                 printInternalInterfacesAndEnums b)
  /\ (forall cur rest,
         printServices attachComment (cur :: rest)
         = printService attachComment cur
             +++ printServices attachComment rest).
Proof.
  split; [reflexivity |]. split; [reflexivity |]. split; [| split].
  - intros a b. unfold printServices. rewrite fold_left_app.
    now rewrite fold_append.
  - intros a b. unfold printInterfaces.
    now rewrite flat_map_app, join_empty_app.
  - intros cur rest. unfold printServices. cbn [fold_left].
    rewrite fold_append. reflexivity.
Qed.

(* ================================================================== *)
(** ** From the files to the declarations *)

Lemma includes_refl (s : string) : includes s s = true.
Proof.
  apply includes_spec. exists "", "". simpl. now rewrite append_empty_r.
Qed.

(** The loop over the registry finds a survivor when there is one. *)
Lemma scan_finds (m : NodeMap) (ff t ns : string)
      (node : list PbNodeEntity) (d : PbNodeEntity) :
  In (ns, node) m -> includes ns ff = true -> In d node ->
  survives t d = true ->
  exists d', scan m ff t = Some d'.
Proof.
  intros Hin Hinc Hd Hs.
  induction m as [|[ns0 node0] m IH]; [destruct Hin |].
  simpl. destruct (includes ns0 ff) eqn:E0; simpl.
  - destruct (filter (survives t) node0) as [|d0 rest] eqn:Hf;
      [| exists d0; reflexivity].
    destruct Hin as [Hin|Hin]; [| now apply IH].
    injection Hin as -> ->.
    assert (Hc : In d (filter (survives t) node))
      by (apply filter_In; split; assumption).
    rewrite Hf in Hc. destruct Hc.
  - destruct Hin as [Hin|Hin]; [| now apply IH].
    injection Hin as -> ->. congruence.
Qed.

(** X19. A field that names a type of its own package is qualified with the
    package. Over a well-formed registry, if an enum or a message of the
    field's bare type name is registered under the package-qualified
    name, and no other key that holds such an entry contains that
    qualified name, then a field that the schema source has not resolved
    and whose type is no primitive is rewritten to the package-qualified
    name. *)
Theorem own_package_type_gets_qualified
        (p : string) (nodeMap : NodeMap) (s : store) (field : Field) :
  let t := typeOf s field in
  wellFormedRegistry nodeMap = true ->
  eligible field t = true ->
  (exists data d,
      In (p +++ "." +++ t, data) nodeMap /\ In d data
      /\ isTypeEntry d = true /\ name (meta d) = t) ->
  (forall k data d,
      In (k, data) nodeMap -> In d data ->
      isTypeEntry d = true -> name (meta d) = t ->
      includes k (p +++ "." +++ t) = true ->
      k = p +++ "." +++ t) ->
  typeOf (attachField p nodeMap s field) field = p +++ "." +++ t.
Proof.
  intros t Hwf Hel [data [d [Hin [Hd [Hty Hn]]]]] Huniq.
  unfold typeOf at 1. rewrite attachField_cell, Nat.eqb_refl.
  fold (typeOf s field). fold t. unfold attachCell. rewrite Hel.
  unfold resolveCell, candidates. cbn [fold_left].
  assert (Hkey : searchKey (p +++ "." +++ t) = p +++ "." +++ t)
    by (unfold searchKey; now rewrite includes_app_dot).
  assert (Hs : survives t d = true).
  { rewrite survives_spec, Hty, Hn. simpl. apply String.eqb_refl. }
  destruct (scan_finds nodeMap (searchKey (p +++ "." +++ t)) t _ data d
                       Hin (eq_ind_r (fun k => includes _ k = true)
                                     (includes_refl _) Hkey) Hd Hs)
    as [d1 H1].
  assert (E1 : tryCell nodeMap t (p +++ "." +++ t)
               = stripLeadingDot (fullName (meta d1)))
    by (unfold tryCell; now rewrite H1).
  rewrite E1.
  rewrite tryCell_inert
    by exact (rewritten_inert nodeMap _ t d1 Hwf (searchKey_dot _) H1).
  destruct (scan_key nodeMap _ t d1 Hwf H1)
    as [data1 [Hin1 [Hd1 [Hty1 [Hn1 Hinc1]]]]].
  rewrite Hkey in Hinc1.
  exact (Huniq _ data1 d1 Hin1 Hd1 Hty1 Hn1 Hinc1).
Qed.

Lemma own_package_type_gets_qualified_witness :
  wellFormedRegistry Sample.registryQR = true
  /\ eligible Sample.fieldG "Foo" = true
  /\ typeOf (attachField "p" Sample.registryQR Sample.typesFoo Sample.fieldG)
            Sample.fieldG = "p.Foo".
Proof.
  assert (Hwf : wellFormedRegistry Sample.registryQR = true)
    by (vm_compute; reflexivity).
  split; [exact Hwf |]. split; [reflexivity |].
  refine (own_package_type_gets_qualified
            "p" Sample.registryQR Sample.typesFoo Sample.fieldG
            Hwf eq_refl _ _).
  - exists [mkEntity Sample.messageFoo message "q.proto";
            mkEntity Sample.messageFoo' message "r.proto"],
           (mkEntity Sample.messageFoo message "q.proto").
    split; [vm_compute; right; right; left; reflexivity |].
    split; [left; reflexivity |]. split; reflexivity.
  - intros k data d Hin Hd Hty Hn _.
    vm_compute in Hin.
    destruct Hin as [Hin|[Hin|[Hin|[]]]]; injection Hin as <- <-.
    + destruct Hd as [<-|[<-|[]]]; discriminate.
    + destruct Hd as [<-|[]]; discriminate.
    + reflexivity.
Defined.

(* ------------------------------------------------------------------ *)

Lemma allEntries_set_absent (m : NodeMap) (k : string) :
  has m k = false -> allEntries (set m k []) = allEntries m.
Proof.
  unfold allEntries. induction m as [|[k0 v] m IH]; simpl; [reflexivity |].
  destruct (String.eqb k0 k); [discriminate |].
  intros H. simpl. now rewrite IH.
Qed.

Lemma existsb_allEntries_push (P : PbNodeEntity -> bool) (m : NodeMap)
      (k : string) (d : PbNodeEntity) :
  existsb P (allEntries (push m k d))
  = existsb P (allEntries m) || (has m k && P d).
Proof.
  unfold allEntries. induction m as [|[k0 v] m IH]; simpl; [reflexivity |].
  destruct (String.eqb k0 k); simpl; rewrite !existsb_app.
  - simpl. destruct (existsb P v), (P d), (existsb P (flat_map snd m));
      reflexivity.
  - rewrite IH. now rewrite orb_assoc.
Qed.

(** A turn of the loop adds the entry of the node to the registry and takes
    nothing away. *)
Lemma existsb_allEntries_register (P : PbNodeEntity -> bool) (f : string)
      (m : NodeMap) (v : ReflectionObject) :
  existsb P (allEntries (register f m v))
  = existsb P (allEntries m) || existsb P (entryOf f v).
Proof.
  set (m1 := if has m (keyOf v) then m else set m (keyOf v) []).
  assert (H1 : allEntries m1 = allEntries m).
  { unfold m1. destruct (has m (keyOf v)) eqn:Hh; [reflexivity |].
    now apply allEntries_set_absent. }
  assert (H2 : has m1 (keyOf v) = true).
  { unfold m1. destruct (has m (keyOf v)) eqn:Hh; [exact Hh |].
    rewrite has_set, String.eqb_refl. apply orb_true_r. }
  assert (Hpush : forall d,
             existsb P (allEntries (push m1 (keyOf v) d))
             = existsb P (allEntries m) || (P d || false)).
  { intros d. rewrite existsb_allEntries_push, H1, H2.
    now rewrite orb_false_r. }
  unfold register, entryOf. fold (keyOf v). fold m1.
  destruct v; simpl isEnum; simpl isMessage; simpl isService;
    simpl isNamespace; cbv iota; simpl kindOf; cbv iota;
    try apply Hpush.
  rewrite H1. simpl. now rewrite orb_false_r.
Qed.

Lemma existsb_allEntries_crawlAST (P : PbNodeEntity -> bool)
      (root : ReflectionObject) (m : NodeMap) (f : string) :
  existsb P (allEntries (crawlAST root m f))
  = existsb P (allEntries m)
    || existsb P (flat_map (entryOf f) (visited root)).
Proof.
  rewrite crawlAST_fold. revert m.
  induction (visited root) as [|v l IH]; intros m; simpl.
  - now rewrite orb_false_r.
  - rewrite IH, existsb_allEntries_register, existsb_app.
    now rewrite orb_assoc.
Qed.

Lemma declaresNamespace_existsb (m : NodeMap) (f : string) :
  declaresNamespace m f
  = existsb (fun d => String.eqb (filename d) f && hasKind namespace d)
            (allEntries m).
Proof.
  unfold declaresNamespace, entriesOfFile.
  induction (allEntries m) as [|d l IH]; simpl; [reflexivity |].
  destruct (String.eqb (filename d) f); simpl; now rewrite IH.
Qed.

(** The namespace entries a crawl makes for a file: one for the root when
    it is a plain namespace, and then there is one. *)
Lemma namespace_entries_of_crawl (f f0 : string) (root : ReflectionObject) :
  existsb (fun d => String.eqb (filename d) f0 && hasKind namespace d)
          (flat_map (entryOf f) (visited root))
  = String.eqb f f0 && isPlainNamespace root.
Proof.
  destruct (String.eqb f f0) eqn:E.
  - destruct root; simpl; rewrite ?E; reflexivity.
  - simpl. induction (visited root) as [|v l IH]; [reflexivity |].
    simpl. rewrite existsb_app, IH.
    unfold entryOf. destruct (kindOf v); simpl; rewrite ?E; reflexivity.
Qed.

Lemma declaresNamespace_crawlAll
      (loaded : list (string * IParserResult * ReflectionObject))
      (m : NodeMap) (f : string) :
  declaresNamespace (crawlAll loaded m) f
  = declaresNamespace m f || loadedWithNamespace loaded f.
Proof.
  unfold crawlAll, loadedWithNamespace. revert m.
  induction loaded as [|x loaded IH]; intros m; simpl.
  - now rewrite orb_false_r.
  - rewrite IH, !declaresNamespace_existsb, existsb_allEntries_crawlAST,
      namespace_entries_of_crawl.
    now rewrite orb_assoc.
Qed.

Section FilesWritten.

Variable lookup : ReflectionObject -> string -> option ReflectionObject.
Variable typeMapping : string -> bool -> string.
Variable attachComment : string -> string -> option string -> string.
Variable printEnums : list EnumEntity -> string.
Variable printInternalInterfacesAndEnums : InterfaceEntity -> string.
Variable prettier : string -> option string.
Variable targetFilename : string -> string.
Variable EOL : string.

(** X20. Outside lint mode, in a run that no file aborts and in which
    [prettier] throws on the text of no file, a declaration file is written
    for exactly the input files that parsed and whose package is a plain
    namespace, one for each and in the order of the input files; a file
    that failed to parse gets none. *)
Theorem loadPb_writes_one_file_per_loaded_file
        (l : list (string * ParseOutcome)) (s : store) :
  (forall f ast node,
      In (f, ast, node) (loadedFiles lookup l) -> nestedArray node <> None) ->
  existsb (aborting lookup) l = false ->
  let nodeMap := crawlAll (loadedFiles lookup l) [] in
  let s' :=
      stateOf (attachAll lookup
                         (map (fun x => snd (fst x)) (loadedFiles lookup l))
                         nodeMap s) in
  (forall file,
      In file l ->
      writeFile typeMapping attachComment printEnums
                printInternalInterfacesAndEnums prettier targetFilename EOL
                (groupByFilename nodeMap) s' (fst file)
      <> WriteThrown) ->
  exists written log,
    loadPb lookup typeMapping attachComment printEnums
           printInternalInterfacesAndEnums prettier targetFilename EOL
           false l s
    = Fulfilled nodeMap written s' log
    /\ map fst written
       = map targetFilename
             (filter (loadedWithNamespace (loadedFiles lookup l))
                     (map fst l)).
Proof.
  intros Hns Hab nodeMap s' Hok.
  rewrite (loadPb_fulfilled lookup typeMapping attachComment printEnums
             printInternalInterfacesAndEnums prettier targetFilename EOL
             l s Hns Hab).
  fold nodeMap. fold s'.
  pose proof (emitFiles_None typeMapping attachComment printEnums
                printInternalInterfacesAndEnums prettier targetFilename
                EOL (groupByFilename nodeMap) s' l) as Hnone.
  pose proof (emitFiles_targets typeMapping attachComment printEnums
                printInternalInterfacesAndEnums prettier targetFilename
                EOL nodeMap s' l) as Htargets.
  destruct (writeFiles typeMapping attachComment printEnums
                       printInternalInterfacesAndEnums prettier
                       targetFilename EOL (groupByFilename nodeMap) s' l)
    as [written|].
  - exists written. eexists. split; [reflexivity |].
    rewrite (Htargets written eq_refl). f_equal.
    apply filter_ext. intros f. unfold nodeMap.
    now rewrite declaresNamespace_crawlAll.
  - destruct (proj1 Hnone eq_refl) as [file [Hin Hw]].
    destruct (Hok file Hin Hw).
Qed.

End FilesWritten.

Lemma loadPb_writes_one_file_per_loaded_file_witness :
  let l := [("q.proto", Parsed Sample.astQ);
            ("bad.proto", ParseError "illegal token");
            ("r.proto", Parsed Sample.astR)] in
  (forall f ast node,
      In (f, ast, node) (loadedFiles Sample.lookup l) ->
      nestedArray node <> None)
  /\ existsb (aborting Sample.lookup) l = false
  /\ exists written log,
      loadPb Sample.lookup Sample.typeMapping Sample.attachComment
             Sample.printEnums Sample.printInternal Sample.prettier
             Sample.targetFilename nl false l Sample.typesFoo
      = Fulfilled Sample.registryQR written
                  (stateOf (attachAll Sample.lookup
                                      [Sample.astQ; Sample.astR]
                                      Sample.registryQR Sample.typesFoo))
                  log
      /\ map fst written = ["q.proto.d.ts"; "r.proto.d.ts"].
Proof.
  intros l.
  assert (Hns : forall f ast node,
             In (f, ast, node) (loadedFiles Sample.lookup l) ->
             nestedArray node <> None).
  { intros f ast node [H|[H|[]]]; injection H as _ _ <-; discriminate. }
  split; [exact Hns |]. split; [reflexivity |].
  refine (loadPb_writes_one_file_per_loaded_file
            Sample.lookup Sample.typeMapping Sample.attachComment
            Sample.printEnums Sample.printInternal Sample.prettier
            Sample.targetFilename nl l Sample.typesFoo Hns eq_refl _).
  intros file _. unfold writeFile.
  destruct (get _ (fst file)) as [data|]; [| discriminate].
  destruct (filter (hasKind namespace) data); discriminate.
Defined.

(* ================================================================== *)
(** ** A file that fails to parse *)

(** An entry of the registry stays through the crawls that follow. *)
Lemma entries_crawlAll_keeps
      (loaded : list (string * IParserResult * ReflectionObject))
      (m : NodeMap) (k : string) (d : PbNodeEntity) :
  In d (entries m k) -> In d (entries (crawlAll loaded m) k).
Proof.
  unfold crawlAll. revert m.
  induction loaded as [|x loaded IH]; intros m H; simpl; [exact H |].
  apply IH. rewrite entries_crawlAST. apply in_or_app. now left.
Qed.

(** Every node the crawl of a loaded file goes through has its entry. *)
Lemma entries_crawlAll_visited
      (loaded : list (string * IParserResult * ReflectionObject))
      (m : NodeMap) (f : string) (ast : IParserResult)
      (node v : ReflectionObject) (k : Kind) :
  In (f, ast, node) loaded ->
  In v (visited node) ->
  kindOf v = Some k ->
  In (mkEntity v k f) (entries (crawlAll loaded m) (keyOf v)).
Proof.
  revert m. induction loaded as [|x loaded IH]; intros m Hin Hv Hk;
    [destruct Hin |].
  destruct Hin as [->|Hin].
  - change (crawlAll ((f, ast, node) :: loaded) m)
      with (crawlAll loaded (crawlAST node m f)).
    apply entries_crawlAll_keeps. rewrite entries_crawlAST.
    apply in_or_app. right. apply in_flat_map. exists v.
    split; [exact Hv |]. rewrite String.eqb_refl.
    unfold entryOf. rewrite Hk. now left.
  - change (crawlAll (x :: loaded) m)
      with (crawlAll loaded (crawlAST (snd x) m (fst (fst x)))).
    now apply IH.
Qed.

(** Where the fields visited are distinct objects, each is left with the
    type its own resolution gives it. *)
Lemma attachAll_field
      (lookup : ReflectionObject -> string -> option ReflectionObject)
      (l : list IParserResult) (m : NodeMap) (s : store)
      (ast : IParserResult) (p : string) (nested : list ReflectionObject)
      (field : Field) :
  Forall (fun ast => packageNested lookup ast <> None) l ->
  NoDup (map visitAddr (visitsOf lookup l)) ->
  In ast l ->
  packageNested lookup ast = Some (p, nested) ->
  In field (topFields nested) ->
  typeOf (stateOf (attachAll lookup l m s)) field
  = typeOf (attachField p m s field) field.
Proof.
  intros Hall Hnd Hast Hp Hfield.
  assert (Hvisit : In (p, field) (visitsOf lookup l)).
  { rewrite (visitsOf_flat_map lookup l Hall). apply in_flat_map.
    exists ast. split; [exact Hast |]. rewrite Hp. now apply in_map. }
  unfold typeOf.
  rewrite attachAll_visits, runVisits_cell, (slotSteps_find _ _ _ _ Hnd),
    attachField_cell, Nat.eqb_refl.
  destruct (find (fun v => Nat.eqb (addr field) (visitAddr v))
                 (visitsOf lookup l)) as [v|] eqn:Hfind.
  - apply find_some in Hfind. destruct Hfind as [Hv Heq].
    apply Nat.eqb_eq in Heq.
    assert (Hsame : v = (p, field)).
    { apply (NoDup_map_eq _ _ visitAddr (visitsOf lookup l)); try assumption.
      now symmetry. }
    now subst v.
  - pose proof (find_none _ _ Hfind (p, field) Hvisit) as Hc.
    unfold visitAddr in Hc. simpl in Hc. now rewrite Nat.eqb_refl in Hc.
Qed.

Section ParseErrors.

Variable lookup : ReflectionObject -> string -> option ReflectionObject.
Variable typeMapping : string -> bool -> string.
Variable attachComment : string -> string -> option string -> string.
Variable printEnums : list EnumEntity -> string.
Variable printInternalInterfacesAndEnums : InterfaceEntity -> string.
Variable prettier : string -> option string.
Variable targetFilename : string -> string.
Variable EOL : string.

Abbreviation pbFiles := (loadFiles lookup EOL).
Abbreviation pbWrite :=
  (writeFile typeMapping attachComment printEnums
             printInternalInterfacesAndEnums prettier targetFilename EOL).
Abbreviation pbWrites :=
  (writeFiles typeMapping attachComment printEnums
              printInternalInterfacesAndEnums prettier targetFilename EOL).
Abbreviation pbRun :=
  (loadPb lookup typeMapping attachComment printEnums
          printInternalInterfacesAndEnums prettier targetFilename EOL).

(** A file that failed to parse is not among the loaded files, and does not
    abort the run. *)
Lemma loadedFiles_skip (l1 l2 : list (string * ParseOutcome))
      (f e : string) :
  loadedFiles lookup (l1 ++ (f, ParseError e) :: l2)
  = loadedFiles lookup (l1 ++ l2).
Proof. now rewrite !loadedFiles_app. Qed.

Lemma aborting_skip (l1 l2 : list (string * ParseOutcome)) (f e : string) :
  existsb (aborting lookup) (l1 ++ (f, ParseError e) :: l2)
  = existsb (aborting lookup) (l1 ++ l2).
Proof. now rewrite !existsb_app. Qed.

(** A file that parsed, in a run that no file aborts, is loaded. *)
Lemma parsed_loaded (l : list (string * ParseOutcome)) (f : string)
      (ast : IParserResult) :
  existsb (aborting lookup) l = false ->
  In (f, Parsed ast) l ->
  exists node, In (f, ast, node) (loadedFiles lookup l).
Proof.
  intros Hab Hin.
  destruct (packageNode lookup ast) as [node|] eqn:Hp.
  - exists node. unfold loadedFiles. apply in_flat_map.
    exists (f, Parsed ast). split; [exact Hin |]. simpl. rewrite Hp.
    now left.
  - assert (Hc : existsb (aborting lookup) l = true).
    { apply existsb_exists. exists (f, Parsed ast). split; [exact Hin |].
      unfold aborting. simpl. now rewrite Hp. }
    congruence.
Qed.

(** The tasks of the other files write what they write without the file
    that is the file of no entry. *)
Lemma writeFiles_skip (m : NodeMap) (s : store)
      (l1 l2 : list (string * ParseOutcome)) (f : string)
      (o : ParseOutcome) :
  mentions f m = false ->
  pbWrites (groupByFilename m) s (l1 ++ (f, o) :: l2)
  = pbWrites (groupByFilename m) s (l1 ++ l2).
Proof.
  intros Hm. rewrite !writeFiles_app. cbn [writeFiles].
  rewrite (writeFile_unmentioned typeMapping attachComment printEnums
             printInternalInterfacesAndEnums prettier targetFilename EOL
             m s f Hm).
  destruct (pbWrites (groupByFilename m) s l2); reflexivity.
Qed.

(** C7, as the code has it. Let the parser throw on the file [f], a file
    name no other input file bears. In either mode the run leaves what it
    leaves without that file: it is rejected in the same cases, and
    otherwise the registry, the files written and the field types are the
    same; no entry of the registry is of the file [f] and nothing is
    written for it; and once the files before [f] went through, the name
    of [f] and the error are on the console.

    Outside lint mode the other files are fully processed. When none of
    them ends the run (each that parses has its package namespace, with a
    [nestedArray], and [prettier] throws on the text of none), the run is
    fulfilled, and of every other file that parsed:
    - it is registered: each node reachable from its package namespace
      that is an enum, a message, a service or a namespace has its entry,
      with the name of the file, under its key;
    - it is resolved: the field objects visited being distinct, each field
      of its top-level messages is left with the type that the resolution
      of that field over the whole registry gives it;
    - it is emitted: if its package is a plain namespace, its task wrote
      its declaration file, the text [prettier] returned. *)
Theorem parse_error_skips_that_file_only
        (lint : bool) (l1 l2 : list (string * ParseOutcome))
        (f e : string) (s : store) :
  ~ In f (map fst (l1 ++ l2)) ->
  let withBad := pbRun lint (l1 ++ (f, ParseError e) :: l2) s in
  let without := pbRun lint (l1 ++ l2) s in
  effectsOf withBad = effectsOf without
  /\ (forall nodeMap written s' log,
         withBad = Fulfilled nodeMap written s' log ->
         mentions f nodeMap = false
         /\ pbWrite (groupByFilename nodeMap) s' f = NotWritten)
  /\ (forall st1,
         pbFiles lint l1 emptyState = Returned st1 ->
         In ("filename: " +++ f) (logOf withBad) /\ In e (logOf withBad))
  /\ (lint = false ->
      existsb (aborting lookup) (l1 ++ l2) = false ->
      (forall f' ast node,
          In (f', ast, node) (loadedFiles lookup (l1 ++ l2)) ->
          nestedArray node <> None) ->
      let loaded := loadedFiles lookup (l1 ++ l2) in
      let astList := map (fun x => snd (fst x)) loaded in
      let nodeMap := crawlAll loaded [] in
      let s' := stateOf (attachAll lookup astList nodeMap s) in
      (forall file,
          In file (l1 ++ l2) ->
          pbWrite (groupByFilename nodeMap) s' (fst file) <> WriteThrown) ->
      exists written,
        withBad
        = Fulfilled nodeMap written s'
                    (flat_map (parseErrorLines EOL false)
                              (l1 ++ (f, ParseError e) :: l2))
        /\ (forall f' ast,
               In (f', Parsed ast) (l1 ++ l2) ->
               exists node, In (f', ast, node) loaded)
        /\ (forall f' ast node,
               In (f', ast, node) loaded ->
               (forall v k,
                   reachable node v ->
                   kindOf v = Some k ->
                   In (mkEntity v k f') (entries nodeMap (keyOf v)))
               /\ (NoDup (map visitAddr (visitsOf lookup astList)) ->
                   forall p nested field,
                     packageNested lookup ast = Some (p, nested) ->
                     In field (topFields nested) ->
                     typeOf s' field
                     = typeOf (attachField p nodeMap s field) field)
               /\ (isPlainNamespace node = true ->
                   exists text,
                     In (targetFilename f', text) written
                     /\ pbWrite (groupByFilename nodeMap) s' f'
                        = Written (targetFilename f') text))).
Proof.
  intros Hf withBad without.
  assert (Hnot : forall l, (forall o, In (f, o) l -> exists e', o = ParseError e')
                           -> forall ast, ~ In (f, Parsed ast) l).
  { intros l Hl ast Hin. destruct (Hl _ Hin) as [e' He']. discriminate. }
  assert (Hother : forall o, In (f, o) (l1 ++ l2) -> exists e', o = ParseError e').
  { intros o Hin. exfalso. apply Hf.
    change f with (fst (f, o)). now apply in_map. }
  assert (Hbad : forall o, In (f, o) (l1 ++ (f, ParseError e) :: l2)
                           -> exists e', o = ParseError e').
  { intros o Hin. apply in_app_or in Hin. destruct Hin as [Hin|[Hin|Hin]].
    - apply Hother. apply in_or_app. now left.
    - injection Hin as <-. now exists e.
    - apply Hother. apply in_or_app. now right. }
  split; [| split; [| split]].
  - pose proof (loadFiles_mentions lookup EOL lint f (l1 ++ l2) emptyState
                  (Hnot _ Hother) eq_refl) as Hment.
    unfold withBad, without, loadPb. fold emptyState.
    rewrite loadFiles_app in Hment. rewrite !loadFiles_app.
    destruct (pbFiles lint l1 emptyState) as [st1|st1]; [| reflexivity].
    cbn [loadFiles loadFile].
    set (st1' := logged st1 _).
    assert (Hsame : sameButLog st1' st1) by (split; reflexivity).
    destruct (loadFiles_sameButLog lookup EOL lint l2 st1' st1 Hsame)
      as [Ht [Hm Ha]].
    destruct (pbFiles lint l2 st1') as [st|st],
             (pbFiles lint l2 st1) as [st'|st'];
      simpl in Ht, Hm, Ha, Hment; try discriminate; [| reflexivity].
    rewrite Hm, Ha.
    destruct (attachAll lookup (st_astList st') (st_nodeMap st') s)
      as [s'|s']; [| reflexivity].
    cbn beta iota zeta.
    rewrite (writeFiles_skip (st_nodeMap st') s' l1 l2 f (ParseError e) Hment).
    destruct (pbWrites (groupByFilename (st_nodeMap st')) s' (l1 ++ l2));
      reflexivity.
  - intros nodeMap written s' log Hful.
    apply loadPb_Fulfilled in Hful. subst nodeMap.
    assert (Hment : mentions f (st_nodeMap
                                  (stateOf
                                     (pbFiles lint
                                        (l1 ++ (f, ParseError e) :: l2)
                                        emptyState))) = false)
      by (apply loadFiles_mentions; [apply Hnot, Hbad | reflexivity]).
    split; [exact Hment | now apply writeFile_unmentioned].
  - intros st1 H1. unfold withBad. rewrite logOf_loadPb, loadFiles_app, H1.
    cbn [loadFiles loadFile].
    split; apply loadFiles_log; simpl; apply in_or_app; right.
    + left. reflexivity.
    + right. left. reflexivity.
  - intros -> Hab Hns loaded astList nodeMap s' Hok.
    assert (Hns' : forall f' ast node,
               In (f', ast, node)
                  (loadedFiles lookup (l1 ++ (f, ParseError e) :: l2)) ->
               nestedArray node <> None)
      by (rewrite loadedFiles_skip; exact Hns).
    assert (Hab' : existsb (aborting lookup) (l1 ++ (f, ParseError e) :: l2)
                   = false)
      by (rewrite aborting_skip; exact Hab).
    assert (Hment : mentions f nodeMap = false).
    { pose proof (loadFiles_mentions lookup EOL false f (l1 ++ l2) emptyState
                    (Hnot _ Hother) eq_refl) as Hm.
      rewrite (loadFiles_returned lookup EOL (l1 ++ l2) emptyState Hab)
        in Hm.
      exact Hm. }
    assert (Hall : Forall (fun ast => packageNested lookup ast <> None)
                          astList).
    { apply Forall_forall. intros ast Hin. apply in_map_iff in Hin.
      destruct Hin as [[[f' ast'] node] [<- Hin]]. simpl.
      destruct (loadedFiles_In lookup (l1 ++ l2) f' ast' node Hin)
        as [_ Hp].
      exact (packageNode_nested lookup ast' node Hp (Hns f' ast' node Hin)). }
    unfold withBad.
    rewrite (loadPb_fulfilled lookup typeMapping attachComment printEnums
               printInternalInterfacesAndEnums prettier targetFilename EOL
               (l1 ++ (f, ParseError e) :: l2) s Hns' Hab').
    rewrite loadedFiles_skip.
    fold loaded. fold astList. fold nodeMap. fold s'.
    rewrite (writeFiles_skip nodeMap s' l1 l2 f (ParseError e) Hment).
    pose proof (emitFiles_None typeMapping attachComment printEnums
                  printInternalInterfacesAndEnums prettier targetFilename
                  EOL (groupByFilename nodeMap) s' (l1 ++ l2)) as Hnone.
    destruct (pbWrites (groupByFilename nodeMap) s' (l1 ++ l2))
      as [written|] eqn:Hw.
    2:{ destruct (proj1 Hnone eq_refl) as [file [Hin Hthrown]].
        destruct (Hok file Hin Hthrown). }
    exists written. split; [reflexivity |].
    split; [intros f' ast Hin; now apply parsed_loaded |].
    intros f' ast node Hin.
    destruct (loadedFiles_In lookup (l1 ++ l2) f' ast node Hin)
      as [Hfile Hp].
    split; [| split].
    + intros v k Hv Hk.
      apply (entries_crawlAll_visited loaded [] f' ast node v k Hin);
        [| exact Hk].
      now apply visited_reachable.
    + intros Hnd p nested field Hpn Hfield.
      apply (attachAll_field lookup astList nodeMap s ast p nested field
               Hall Hnd); try assumption.
      apply in_map_iff. exists (f', ast, node). split; [reflexivity | exact Hin].
    + intros Hplain.
      assert (Hdecl : declaresNamespace nodeMap f' = true).
      { unfold nodeMap. rewrite declaresNamespace_crawlAll.
        apply orb_true_iff. right. unfold loadedWithNamespace.
        apply existsb_exists. exists (f', ast, node).
        split; [exact Hin |]. simpl. now rewrite String.eqb_refl. }
      assert (Hf' : In f' (map fst (l1 ++ l2))).
      { change f' with (fst (f', Parsed ast)). now apply in_map. }
      pose proof (emitFile_NotWritten typeMapping attachComment printEnums
                    printInternalInterfacesAndEnums prettier targetFilename
                    EOL nodeMap s' f') as Hnw.
      destruct (pbWrite (groupByFilename nodeMap) s' f')
        as [|target text|] eqn:He.
      * destruct Hnw as [Hnw _]. rewrite (Hnw eq_refl) in Hdecl.
        discriminate.
      * pose proof (emitFile_Written typeMapping attachComment printEnums
                      printInternalInterfacesAndEnums prettier
                      targetFilename EOL _ _ _ _ _ He) as ->.
        exists text. split; [| reflexivity].
        exact (emitFiles_In typeMapping attachComment printEnums
                 printInternalInterfacesAndEnums prettier targetFilename
                 EOL (groupByFilename nodeMap) s' (l1 ++ l2) written f'
                 (targetFilename f') text Hw Hf' He).
      * exfalso. apply (Hok (f', Parsed ast) Hfile). exact He.
Qed.

End ParseErrors.

Lemma parse_error_skips_that_file_only_witness :
  let load :=
      loadPb Sample.lookup Sample.typeMapping Sample.attachComment
             Sample.printEnums Sample.printInternal Sample.prettier
             Sample.targetFilename nl false in
  let q := ("q.proto", Parsed Sample.astQ) in
  let bad := ("bad.proto", ParseError "illegal token") in
  let r := ("r.proto", Parsed Sample.astR) in
  let s' := stateOf (attachAll Sample.lookup [Sample.astQ; Sample.astR]
                               Sample.registryQR Sample.typesFoo) in
  ~ In "bad.proto" (map fst ([q] ++ [r]))
  /\ existsb (aborting Sample.lookup) ([q] ++ [r]) = false
  /\ effectsOf (load ([q] ++ bad :: [r]) Sample.typesFoo)
     = effectsOf (load ([q] ++ [r]) Sample.typesFoo)
  /\ In "filename: bad.proto" (logOf (load ([q] ++ bad :: [r]) Sample.typesFoo))
  /\ exists written,
      load ([q] ++ bad :: [r]) Sample.typesFoo
      = Fulfilled Sample.registryQR written s'
                  ["filename: bad.proto"; "illegal token"]
      /\ In (mkEntity Sample.messageFoo' message "r.proto")
            (entries Sample.registryQR "p.Foo")
      /\ typeOf s' Sample.fieldH = "p.Foo"
      /\ exists text, In ("r.proto.d.ts", text) written.
Proof.
  intros load q bad r s'.
  assert (Hf : ~ In "bad.proto" (map fst ([q] ++ [r]))).
  { simpl. intros [H|[H|[]]]; discriminate. }
  assert (Hns : forall f ast node,
             In (f, ast, node) (loadedFiles Sample.lookup ([q] ++ [r])) ->
             nestedArray node <> None).
  { intros f ast node [H|[H|[]]]; injection H as _ _ <-; discriminate. }
  assert (Hnd : NoDup (map visitAddr
                           (visitsOf Sample.lookup
                                     [Sample.astQ; Sample.astR]))).
  { change (NoDup [2; 3]).
    constructor; [intros [H|[]]; discriminate |].
    constructor; [intros [] | constructor]. }
  destruct (parse_error_skips_that_file_only
              Sample.lookup Sample.typeMapping Sample.attachComment
              Sample.printEnums Sample.printInternal Sample.prettier
              Sample.targetFilename nl false [q] [r] "bad.proto"
              "illegal token" Sample.typesFoo Hf)
    as [Heff [_ [Hlog Hothers]]].
  split; [exact Hf |]. split; [reflexivity |]. split; [exact Heff |].
  split; [exact (proj1 (Hlog _ eq_refl)) |].
  destruct (Hothers eq_refl eq_refl Hns) as [written [Hful [_ Hfiles]]].
  { intros file _. unfold writeFile.
    destruct (get _ (fst file)) as [data|]; [| discriminate].
    destruct (filter (hasKind namespace) data); discriminate. }
  destruct (Hfiles "r.proto" Sample.astR Sample.namespaceR
                   (or_intror (or_introl eq_refl)))
    as [Hreg [Hres Hemit]].
  exists written. split; [exact Hful |]. split; [| split].
  - apply (Hreg Sample.messageFoo' message); [| reflexivity].
    apply (@reach_nested "p" ".p" [Sample.messageFoo'] Sample.messageFoo'
                         Sample.messageFoo').
    + now left.
    + apply reach_self.
  - refine (eq_trans (Hres Hnd "p" [Sample.messageFoo'] Sample.fieldH
                           eq_refl (or_introl eq_refl)) _).
    vm_compute. reflexivity.
  - destruct (Hemit eq_refl) as [text [Hin _]]. exists text. exact Hin.
Defined.

(** C7 as stated fails: in lint mode the file next to the one that failed
    to parse is parsed and nothing more; it is the file of no entry of the
    registry, none of its fields is resolved and no declaration file is
    written for it. Outside lint mode the same two files leave the
    registry of the second file and its declaration file. *)
Lemma lint_mode_processes_no_other_file :
  let load :=
      loadPb Sample.lookup Sample.typeMapping Sample.attachComment
             Sample.printEnums Sample.printInternal Sample.prettier
             Sample.targetFilename nl in
  let bad := ("bad.proto", ParseError "illegal token") in
  let q := ("q.proto", Parsed Sample.astQ) in
  load true [bad; q] Sample.typesFoo
  = Fulfilled [] [] Sample.typesFoo
              ["filename: bad.proto"; "illegal token";
               "pb lint ERROR: bad.proto" +++ nl; "illegal token"]
  /\ exists text,
      load false [bad; q] Sample.typesFoo
      = Fulfilled Sample.registryQ [("q.proto.d.ts", text)]
                  (stateOf (attachAll Sample.lookup [Sample.astQ]
                                      Sample.registryQ Sample.typesFoo))
                  ["filename: bad.proto"; "illegal token"].
Proof.
  intros load bad q. split; [reflexivity |].
  eexists. vm_compute. reflexivity.
Qed.
